(** * Audio feedback components (src/components/audio-feedback.js)

    A shallow embedding of the volume extraction, the quiet-avatar state
    machine of [networked-audio-analyser], the subscriber list of
    [local-audio-analyser], the scale mapper and the [mic-button] envelope.

    JavaScript numbers are IEEE-754 binary64 values; they are modelled by
    Rocq's primitive [float], whose operations are the same binary64
    operations (round to nearest, ties to even), so that [0/0] is [nan],
    comparisons with [nan] are false, and a term evaluated by [vm_compute]
    is the value the JavaScript engine computes.  Universal statements are
    proved through the bit-level specification [Prim2SF]. *)

From Stdlib Require Import ZArith List Bool Lia Uint63 String.
From Stdlib Require Import Floats.
From Stdlib.Strings Require Import Byte.
Import ListNotations.
Set Warnings "-inexact-float".

Local Open Scope float_scope.

(** ** JavaScript numbers *)

Module JS.

(** [ToBoolean] on a number: [0], [-0] and [NaN] are falsy. *)
Definition truthy (x : float) : bool := negb (is_zero x || is_nan x).

(** [ToBoolean] on a property that may still be [undefined]. *)
Definition truthy_opt (x : option float) : bool :=
  match x with
  | None => false
  | Some v => truthy v
  end.

(** [ToBoolean] on a flag that is [undefined], [true] or [false]. *)
Definition truthy_flag (x : option bool) : bool :=
  match x with
  | Some true => true
  | _ => false
  end.

(** [Math.min] on two arguments: [NaN] if either is [NaN]; [-0] is smaller
    than [+0]. *)
Definition Math_min (x y : float) : float :=
  if is_nan x || is_nan y then nan
  else if x <? y then x
  else if y <? x then y
  else if get_sign x then x else y.

(** [Math.max] on two arguments: [NaN] if either is [NaN]; [+0] is larger
    than [-0]. *)
Definition Math_max (x y : float) : float :=
  if is_nan x || is_nan y then nan
  else if x <? y then y
  else if y <? x then x
  else if get_sign x then y else x.

(** The Number read from a [Uint8Array] element. *)
Definition of_byte (b : byte) : float :=
  of_uint63 (Uint63.of_Z (Z.of_N (Byte.to_N b))).

(** The Number held by an array's [length] property. *)
Definition of_length {A : Type} (l : list A) : float :=
  of_uint63 (Uint63.of_Z (Z.of_nat (List.length l))).

End JS.

(** ** The order of binary64 numbers, as integers *)

Module Binary64.

Local Open Scope Z_scope.

(** The value of a binary64 number in units of [2^-2148] (every product of
    two finite numbers is a whole number of such units); the infinities
    lie just beyond the finite range. *)
Definition rank (x : spec_float) : Z :=
  match x with
  | S754_zero _ => 0
  | S754_nan => 0
  | S754_infinity s => cond_Zopp s (2 ^ 3172)
  | S754_finite s m e => cond_Zopp s (Zpos m * 2 ^ (e + 2148))
  end.

(** The rank of a number. *)
Definition frank (x : float) : Z := rank (Prim2SF x).

End Binary64.

(** ** Constants and [getVolume] *)

Definition DISABLE_AT_VOLUME_THRESHOLD : float := 0.00001.
Definition DISABLE_GRACE_PERIOD_MS : float := 10000.
Definition MIN_VOLUME_THRESHOLD : float := 0.01.

(** The body of the [for] loop of [getVolume], run over the samples in index
    order with the accumulator [sum]. *)
Fixpoint getVolume_loop (levels : list byte) (sum : float) : float :=
  match levels with
  | [] => sum
  | l :: rest =>
      let amplitude := (JS.of_byte l - 128) / 128 in
      getVolume_loop rest (sum + amplitude * amplitude)
  end.

Definition getVolume (levels : list byte) : float :=
  let sum := getVolume_loop levels 0 in
  let currVolume := sqrt (sum / JS.of_length levels) in
  if currVolume <? MIN_VOLUME_THRESHOLD then 0 else currVolume.

(** The root mean square as the specification words it: normalise every
    sample, square, take the mean over the [N] samples, take the root. *)
Definition normalized (sample : byte) : float := (JS.of_byte sample - 128) / 128.

Definition mean_of_squares (levels : list byte) : float :=
  fold_left add (map (fun s => normalized s * normalized s) levels) 0
  / JS.of_length levels.

Definition rms (levels : list byte) : float := sqrt (mean_of_squares levels).

(** ** [getAudioFeedbackScale] *)

(** three.js [Vector3] and the position column of a [Matrix4]
    ([setFromMatrixPosition] reads elements 12, 13 and 14). *)
Record Vector3 := mkVector3 { v_x : float; v_y : float; v_z : float }.

Record Object3D := mkObject3D { matrixWorld : list float }.

Definition setFromMatrixPosition (m : list float) : Vector3 :=
  mkVector3 (nth 12 m nan) (nth 13 m nan) (nth 14 m nan).

Definition distanceToSquared (a b : Vector3) : float :=
  let dx := v_x a - v_x b in
  let dy := v_y a - v_y b in
  let dz := v_z a - v_z b in
  dx * dx + dy * dy + dz * dz.

Definition distanceTo (a b : Vector3) : float := sqrt (distanceToSquared a b).

(** The scale as a function of the already halved-and-divided distance. *)
Definition feedbackScale (minScale maxScale volume distance : float) : float :=
  JS.Math_min maxScale (minScale + (maxScale - minScale) * volume * 8 * distance).

Definition getAudioFeedbackScale (fromObject toObject : Object3D)
    (minScale maxScale volume : float) : float :=
  let tempScaleToPosition := setFromMatrixPosition (matrixWorld toObject) in
  let tempScaleFromPosition := setFromMatrixPosition (matrixWorld fromObject) in
  let distance := distanceTo tempScaleFromPosition tempScaleToPosition / 10 in
  JS.Math_min maxScale (minScale + (maxScale - minScale) * volume * 8 * distance).

(** An object whose world matrix is the translation to [(x, y, z)]. *)
Definition at_position (x y z : float) : Object3D :=
  mkObject3D [1; 0; 0; 0; 0; 1; 0; 0; 0; 0; 1; 0; x; y; z; 1].

(** ** The frame scheduler *)

Module FrameScheduler.

(** A callback handed to the scheduler is a bound method of one entity:
    [this.m.bind(this)] is a function object of its own for every entity
    and every method. *)
Inductive method := UpdateAnalysis | RunScheduledWork.

Definition callback : Type := (nat * method)%type.

Definition method_eqb (a b : method) : bool :=
  match a, b with
  | UpdateAnalysis, UpdateAnalysis => true
  | RunScheduledWork, RunScheduledWork => true
  | _, _ => false
  end.

Definition callback_eqb (a b : callback) : bool :=
  Nat.eqb (fst a) (fst b) && method_eqb (snd a) (snd b).

Definition entry_eqb (a b : callback * string) : bool :=
  callback_eqb (fst a) (fst b) && String.eqb (snd a) (snd b).

(** Modelled from the spec: the frame-scheduler system itself
    (systems["frame-scheduler"]) is not among the source files.  The spec
    gives [schedule(callback, groupKey)] and [unschedule(callback, groupKey)]
    with idempotent registration: the registry holds each (callback, group)
    at most once, [schedule] adds an absent entry, [unschedule] drops the
    entry if it is present and does nothing otherwise. *)
Definition registry : Type := list (callback * string).

Definition registered (q : registry) (cb : callback) (group : string) : bool :=
  existsb (entry_eqb (cb, group)) q.

Definition schedule (cb : callback) (group : string) (q : registry) : registry :=
  if registered q cb group then q else q ++ [(cb, group)].

Definition unschedule (cb : callback) (group : string) (q : registry) : registry :=
  filter (fun e => negb (entry_eqb (cb, group) e)) q.

(** The callbacks the scheduler may still invoke for a group. *)
Definition callbacks_of (q : registry) (group : string) : list callback :=
  map fst (filter (fun e => String.eqb (snd e) group) q).

End FrameScheduler.

(** ** [networked-audio-analyser] *)

Module NetworkedAudioAnalyser.

Import FrameScheduler.

Record state := mkState {
  volume : float;
  prevVolume : float;
  immediateVolume : float;
  smoothing : float;
  (** [this.analyser] exists once "sound-source-set" was handled *)
  analyser : bool;
  (** [undefined] until the first assignment in [_updateAnalysis] *)
  avatarIsQuiet : option bool;
  lastSeenVolume : option float
}.

Definition initial : state :=
  mkState 0 0 0 0.3 false None None.

(** [init]: the fields are set and [this._updateAnalysis] is scheduled. *)
Definition init (el : nat) (q : registry) : state * registry :=
  (initial, schedule (el, UpdateAnalysis) "audio-analyser" q).

(** [remove]: [this._runScheduledWork] is unscheduled. *)
Definition remove (el : nat) (q : registry) : registry :=
  unschedule (el, RunScheduledWork) "audio-analyser" q.

(** The "sound-source-set" listener creates the analyser node. *)
Definition sound_source_set (s : state) : state :=
  mkState (volume s) (prevVolume s) (immediateVolume s) (smoothing s)
          true (avatarIsQuiet s) (lastSeenVolume s).

(** [_updateAnalysis(t)]; [levels] is the buffer as filled by
    [getByteTimeDomainData], [t] is [None] when the argument is absent. *)
Definition _updateAnalysis (s : state) (levels : list byte) (t : option float)
    : state :=
  if negb (analyser s) then s
  else
    let immediateVolume' := getVolume levels in
    let volume' :=
      smoothing s * immediateVolume' + (1 - smoothing s) * prevVolume s in
    if volume' <? DISABLE_AT_VOLUME_THRESHOLD then
      match t, lastSeenVolume s with
      | Some tv, Some seen =>
          if JS.truthy tv && JS.truthy seen
             && (seen <? tv - DISABLE_GRACE_PERIOD_MS)
          then mkState volume' volume' immediateVolume' (smoothing s)
                       true (Some true) (lastSeenVolume s)
          else mkState volume' volume' immediateVolume' (smoothing s)
                       true (avatarIsQuiet s) (lastSeenVolume s)
      | _, _ => mkState volume' volume' immediateVolume' (smoothing s)
                        true (avatarIsQuiet s) (lastSeenVolume s)
      end
    else
      mkState volume' volume' immediateVolume' (smoothing s) true
              (Some false)
              (if JS.truthy_opt t then t else lastSeenVolume s).

Definition tick (s : state) (levels : list byte) (t : float) : state :=
  if negb (JS.truthy_flag (avatarIsQuiet s))
  then _updateAnalysis s levels (Some t)
  else s.

Definition _runScheduledWork (s : state) (levels : list byte) : state :=
  if JS.truthy_flag (avatarIsQuiet s)
  then _updateAnalysis s levels None
  else s.

(** One call into the component, with the buffer the audio graph holds at
    that moment. *)
Inductive call :=
| Tick (t : float) (levels : list byte)
| ScheduledWork (levels : list byte)
| Update (t : option float) (levels : list byte).

Definition step (s : state) (c : call) : state :=
  match c with
  | Tick t levels => tick s levels t
  | ScheduledWork levels => _runScheduledWork s levels
  | Update t levels => _updateAnalysis s levels t
  end.

Definition run (s : state) (calls : list call) : state :=
  fold_left step calls s.

(** A call that carries no timestamp (the background path). *)
Definition untimed (c : call) : bool :=
  match c with
  | Tick _ _ => false
  | ScheduledWork _ => true
  | Update None _ => true
  | Update (Some _) _ => false
  end.

(** Buffers and a warm-up used to replay concrete runs: a full-scale
    buffer, a silent one, and one loud update followed by silence until the
    smoothed volume sits just above [DISABLE_AT_VOLUME_THRESHOLD]. *)
Definition loud : list byte := repeat xff 16.
Definition silent : list byte := repeat x80 16.
Definition warm_up : list call :=
  Update None loud :: repeat (Update None silent) 27.

End NetworkedAudioAnalyser.

(** ** [local-audio-analyser] *)

Module LocalAudioAnalyser.

(** A listener is an object; [indexOf] compares by identity. *)
Definition listener : Type := nat.

Record state := mkState {
  volume : float;
  prevVolume : float;
  smoothing : float;
  immediateVolume : float;
  subscribers : list listener
}.

Definition initial : state := mkState 0 0 0.3 0 [].

(** [Array.prototype.indexOf]: the first index holding [x], or [-1]. *)
Fixpoint indexOf_from (l : list listener) (x : listener) (i : Z) : Z :=
  match l with
  | [] => (-1)%Z
  | y :: rest => if Nat.eqb y x then i else indexOf_from rest x (i + 1)%Z
  end.

Definition indexOf (l : list listener) (x : listener) : Z := indexOf_from l x 0%Z.

(** [splice(index, 1)] at an index that [indexOf] returned. *)
Definition splice1 (l : list listener) (index : Z) : list listener :=
  firstn (Z.to_nat index) l ++ skipn (S (Z.to_nat index)) l.

Definition set_subscribers (s : state) (subs : list listener) : state :=
  mkState (volume s) (prevVolume s) (smoothing s) (immediateVolume s) subs.

Definition subscribe (s : state) (ii : listener) : state :=
  if (indexOf (subscribers s) ii =? -1)%Z
  then set_subscribers s (subscribers s ++ [ii])
  else s.

Definition unsubscribe (s : state) (ii : listener) : state :=
  let index := indexOf (subscribers s) ii in
  if negb (index =? -1)%Z
  then set_subscribers s (splice1 (subscribers s) index)
  else s.

End LocalAudioAnalyser.

(** ** [mic-button] *)

Module MicButton.

Import Binary64.

Definition micLevels : list string :=
  [ "mic-level-1.png"; "mic-level-1.png"; "mic-level-2.png"; "mic-level-3.png";
    "mic-level-4.png"; "mic-level-5.png"; "mic-level-7.png"; "mic-level-7.png" ]%string.

Record state := mkState {
  loudest : float;
  prevImage : string;
  decayingVolume : float;
  smoothing : float
}.

Definition initial : state := mkState 0 "" 0 0.8.

(** The envelope part of [tick]: the new [decayingVolume], the new
    [loudest] and the local [volume]. *)
Definition envelope (s : state) (immediateVolume : float) : float * float * float :=
  if decayingVolume s <? immediateVolume then
    (immediateVolume, JS.Math_max (loudest s) immediateVolume, immediateVolume)
  else
    let volume :=
      if decayingVolume s * smoothing s <? 0.001 then 0
      else decayingVolume s * smoothing s in
    (volume, loudest s, volume).

(** The bucket chosen for [volume] against the peak [loudest]. *)
Definition level_of (volume loudest : float) : nat :=
  if volume <? loudest * 0.1 then 1
  else if volume <? loudest * 0.2 then 2
  else if volume <? loudest * 0.45 then 3
  else if volume <? loudest * 0.6 then 4
  else if volume <? loudest * 0.8 then 5
  else 7.

(** [tick]: [audioAnalyser] is the local analyser system ([None] when the
    system is missing), [self] the identity of this component, [visible]
    is [el.object3D.visible].  The result holds the new component state,
    the analyser after the (un)subscription, and the image handed to
    [setAttribute] when it changed. *)
Definition tick (self : LocalAudioAnalyser.listener) (s : state) (visible : bool)
    (audioAnalyser : option LocalAudioAnalyser.state)
    : state * option LocalAudioAnalyser.state * option string :=
  match audioAnalyser with
  | None => (s, None, None)
  | Some a =>
      let a' := if visible then LocalAudioAnalyser.subscribe a self
                else LocalAudioAnalyser.unsubscribe a self in
      let '(decayingVolume', loudest', volume) :=
        envelope s (LocalAudioAnalyser.immediateVolume a') in
      let level := level_of volume loudest' in
      let newimage := nth level micLevels ""%string in
      if negb (String.eqb newimage (prevImage s))
      then (mkState loudest' newimage decayingVolume' (smoothing s), Some a', Some newimage)
      else (mkState loudest' (prevImage s) decayingVolume' (smoothing s), Some a', None)
  end.

(** A frame as the button meets it: its visibility and the analyser system
    as it is at that tick. *)
Definition frame : Type := (bool * LocalAudioAnalyser.state)%type.

Definition heard (f : frame) : float := LocalAudioAnalyser.immediateVolume (snd f).

Definition tick_state (self : LocalAudioAnalyser.listener) (s : state) (f : frame) : state :=
  fst (fst (tick self s (fst f) (Some (snd f)))).

Definition run (self : LocalAudioAnalyser.listener) (s : state) (frames : list frame) : state :=
  fold_left (tick_state self) frames s.

(** No frame of the list brings an input above the envelope of its tick. *)
Fixpoint no_new_peak (self : LocalAudioAnalyser.listener) (s : state) (frames : list frame) : bool :=
  match frames with
  | [] => true
  | f :: rest =>
      negb (decayingVolume s <? heard f)%float && no_new_peak self (tick_state self s f) rest
  end.

(** The invariant of the envelope state. *)
Definition Inv (s : state) : Prop :=
  smoothing s = 0.8%float /\
  is_nan (decayingVolume s) = false /\ is_nan (loudest s) = false /\
  (0 <= frank (decayingVolume s) <= frank (loudest s))%Z.

(** The rank of the snapping threshold 0.001. *)
Definition snap_rank : Z := (4611686018427388 * 2 ^ 2086)%Z.

End MicButton.

(** ** The life of a [networked-audio-analyser] *)

Module AnalyserLife.

Import NetworkedAudioAnalyser.

(** What can happen to the component after [init]: the "sound-source-set"
    event, or one of the calls. *)
Inductive event :=
| SoundSourceSet
| Call (c : call).

Definition handle (s : state) (e : event) : state :=
  match e with
  | SoundSourceSet => sound_source_set s
  | Call c => step s c
  end.

Definition play (s : state) (events : list event) : state :=
  fold_left handle events s.

(** The buffer a call reads. *)
Definition levels_of (c : call) : list byte :=
  match c with
  | Tick _ levels => levels
  | ScheduledWork levels => levels
  | Update _ levels => levels
  end.

(** A frame of the scene: the timestamp [tick] receives and the buffer it
    reads; and the same as a direct timed call of [_updateAnalysis]. *)
Definition frame : Type := (float * list byte)%type.

Definition as_tick (f : frame) : call := Tick (fst f) (snd f).

Definition as_update (f : frame) : call := Update (Some (fst f)) (snd f).

(** What holds of the component whatever has happened since [init]. *)
Definition settled (s : state) : Prop :=
  prevVolume s = volume s /\
  smoothing s = 0.3 /\
  JS.truthy_opt (lastSeenVolume s) = match lastSeenVolume s with Some _ => true | None => false end /\
  (JS.truthy_flag (avatarIsQuiet s) = true -> JS.truthy_opt (lastSeenVolume s) = true) /\
  (avatarIsQuiet s <> None -> analyser s = true).



End AnalyserLife.

(** ** Requests to the subscriber list of [local-audio-analyser] *)

Module Subscriptions.

Import LocalAudioAnalyser.

Inductive request :=
| Subscribe (ii : listener)
| Unsubscribe (ii : listener).

Definition serve (s : state) (r : request) : state :=
  match r with
  | Subscribe ii => subscribe s ii
  | Unsubscribe ii => unsubscribe s ii
  end.

Definition serve_all (s : state) (requests : list request) : state :=
  fold_left serve requests s.

(** The last request that names [ii], if any, asks to subscribe. *)
Fixpoint last_is_subscribe (ii : listener) (requests : list request) (now : bool) : bool :=
  match requests with
  | [] => now
  | Subscribe x :: rest => last_is_subscribe ii rest (if Nat.eqb x ii then true else now)
  | Unsubscribe x :: rest => last_is_subscribe ii rest (if Nat.eqb x ii then false else now)
  end.

End Subscriptions.
(** ** Numbers that are not negative *)

Module Sign.

Import Binary64.

(** A number (not [NaN]) that is not below zero; both zeros qualify. *)
Definition nonneg (x : float) : Prop := is_nan x = false /\ (0 <= frank x)%Z.

(** A buffer as a typed array can hold it: at least one sample, and a
    length within the range of the integer conversion. *)
Definition filled (levels : list byte) : Prop :=
  levels <> [] /\ (Z.of_nat (List.length levels) < 2 ^ 63)%Z.

(** A filled buffer of silence: every sample is 128. *)
Definition still (levels : list byte) : Prop :=
  filled levels /\ forall b, In b levels -> b = x80.

(** A direct call of [_updateAnalysis] on a buffer of silence. *)
Definition still_update (c : NetworkedAudioAnalyser.call) : Prop :=
  match c with
  | NetworkedAudioAnalyser.Update _ levels => still levels
  | _ => False
  end.

(** The rank of [DISABLE_AT_VOLUME_THRESHOLD]. *)
Definition disable_rank : Z := (5902958103587057 * 2 ^ 2079)%Z.

(** An event whose buffer, if it reads one, is filled. *)
Definition fed (e : AnalyserLife.event) : Prop :=
  match e with
  | AnalyserLife.SoundSourceSet => True
  | AnalyserLife.Call c => filled (AnalyserLife.levels_of c)
  end.

End Sign.

(** ** Invariants of the volumes of [networked-audio-analyser] *)

Module VolumeRange.

Import Binary64 Sign NetworkedAudioAnalyser.

(** What holds of the volumes as long as every buffer read is filled. *)
Definition in_range (s : state) : Prop :=
  smoothing s = 0.3 /\ nonneg (volume s) /\ nonneg (prevVolume s) /\
  nonneg (immediateVolume s) /\
  (immediateVolume s = 0 \/ (MIN_VOLUME_THRESHOLD <=? immediateVolume s) = true).

(** What a run of silent updates starts from and keeps. *)
Definition fading (s : state) : Prop :=
  analyser s = true /\ smoothing s = 0.3 /\ prevVolume s = volume s /\
  nonneg (volume s) /\ (frank (volume s) < 2 ^ 3172)%Z.

End VolumeRange.
(** ** The icon of the [mic-button] over a run of ticks *)

Module MicIcon.

Import MicButton.

(** The "icon-button" image attribute after a tick: [setAttribute]
    replaces it when the tick hands an image over. *)
Definition show (icon : option string) (emitted : option string) : option string :=
  match emitted with
  | Some image => Some image
  | None => icon
  end.

(** One tick against a present analyser system, with the attribute. *)
Definition tick_icon (self : LocalAudioAnalyser.listener)
    (st : state * option string) (f : frame) : state * option string :=
  let '(s', _, emitted) := tick self (fst st) (fst f) (Some (snd f)) in
  (s', show (snd st) emitted).

Definition run_icon (self : LocalAudioAnalyser.listener)
    (st : state * option string) (frames : list frame) : state * option string :=
  fold_left (tick_icon self) frames st.

(** The image files the button can show. *)
Definition images : list string :=
  [ "mic-level-1.png"; "mic-level-2.png"; "mic-level-3.png";
    "mic-level-4.png"; "mic-level-5.png"; "mic-level-7.png" ]%string.

End MicIcon.
(** ** [scale-audio-feedback] *)

Module ScaleAudioFeedback.

(** [this.data]; the schema gives the defaults. *)
Record data := mkData { minScale : float; maxScale : float }.

Definition schema : data := mkData 1 2.

(** The entity as [tick] meets it: [el.object3D] with its world matrix,
    its [visible] flag, its [scale] and [matrixNeedsUpdate], and the
    "networked-audio-analyser" component of the entity, if it has one. *)
Record entity := mkEntity {
  object3D : Object3D;
  visible : bool;
  scale : Vector3;
  matrixNeedsUpdate : bool;
  audioAnalyser : option NetworkedAudioAnalyser.state
}.

(** three.js [Vector3.setScalar]. *)
Definition setScalar (s : float) : Vector3 := mkVector3 s s s.

Definition tick (d : data) (_playerCamera : Object3D) (el : entity) : entity :=
  if negb (visible el) then el
  else
    match audioAnalyser el with
    | None => el
    | Some a =>
        let scale' :=
          getAudioFeedbackScale (object3D el) _playerCamera (minScale d) (maxScale d)
            (NetworkedAudioAnalyser.volume a) in
        mkEntity (object3D el) (visible el) (setScalar scale') true (audioAnalyser el)
    end.

End ScaleAudioFeedback.

(** ** [tick] of [local-audio-analyser] *)

Module LocalAnalyserTick.

Import LocalAudioAnalyser.

(** The system with the two fields that [tick] adds. [None] stands for
    the falsy [undefined] and [null]; a stream is known by its identity and
    an analyser node by the stream it was connected to. *)
Record system := mkSystem {
  fields : state;
  stream : option nat;
  analyser : option nat
}.

Definition initial_system : system := mkSystem initial None None.

(** The end of [tick], from the test of [this.analyser] and [this.stream]
    on; [levels] is the buffer as [getByteTimeDomainData] fills it. *)
Definition measure (s : system) (levels : list byte) : system :=
  match analyser s, stream s with
  | Some _, Some _ =>
      let immediateVolume' := getVolume levels in
      let volume' :=
        smoothing (fields s) * immediateVolume'
        + (1 - smoothing (fields s)) * prevVolume (fields s) in
      mkSystem (mkState volume' volume' (smoothing (fields s)) immediateVolume'
                        (subscribers (fields s)))
               (stream s) (analyser s)
  | _, _ => s
  end.

(** [tick] is an async function: it either runs to its end or stops at
    the [await] of [getMediaStream]. *)
Inductive progress :=
| Returned (s : system)
| Awaiting (s : system).

(** [tick] up to the [await]; [adapter] tells whether
    [NAF.connection.adapter] is set. *)
Definition tick_start (adapter : bool) (s : system) (levels : list byte) : progress :=
  if negb adapter then Returned s
  else
    match subscribers (fields s) with
    | [] => Returned (measure (mkSystem (fields s) None None) levels)
    | _ :: _ =>
        match stream s with
        | None => Awaiting s
        | Some _ => Returned (measure s levels)
        end
    end.

(** [tick] from the point where [getMediaStream] has resolved to [result],
    on the system as it is by then. *)
Definition tick_resume (s : system) (result : option nat) (levels : list byte) : system :=
  match result with
  | None => mkSystem (fields s) None (analyser s)
  | Some id => measure (mkSystem (fields s) (Some id) (Some id)) levels
  end.

(** What happens to the system: a [subscribe] or [unsubscribe], a frame
    (a call of [tick]), or the resolution of a pending [getMediaStream]. *)
Inductive event :=
| Request (r : Subscriptions.request)
| Frame (adapter : bool) (levels : list byte)
| Resolved (result : option nat) (levels : list byte).

(** The system together with the number of ticks stopped at their
    [await]. *)
Definition handle (w : system * nat) (e : event) : system * nat :=
  match e with
  | Request r =>
      (mkSystem (Subscriptions.serve (fields (fst w)) r) (stream (fst w)) (analyser (fst w)),
       snd w)
  | Frame adapter levels =>
      match tick_start adapter (fst w) levels with
      | Returned s => (s, snd w)
      | Awaiting s => (s, S (snd w))
      end
  | Resolved result levels =>
      match snd w with
      | O => w
      | S n => (tick_resume (fst w) result levels, n)
      end
  end.

Definition play (w : system * nat) (events : list event) : system * nat :=
  fold_left handle events w.

(** An event whose buffer, if it reads one, is filled. *)
Definition fed (e : event) : Prop :=
  match e with
  | Request _ => True
  | Frame _ levels => Sign.filled levels
  | Resolved _ levels => Sign.filled levels
  end.

(** What every interleaving of requests, frames and resolutions keeps. *)
Definition sound (s : system) : Prop :=
  prevVolume (fields s) = volume (fields s) /\
  smoothing (fields s) = 0.3 /\
  NoDup (subscribers (fields s)) /\
  (stream s = None \/ analyser s = stream s) /\
  Sign.nonneg (volume (fields s)) /\ Sign.nonneg (immediateVolume (fields s)).

End LocalAnalyserTick.

(** ** Completions: what an update call may throw *)

Module Completion.

Import NetworkedAudioAnalyser.

(** The completion of a JavaScript evaluation: a value, or a thrown
    exception. *)
Inductive completion (A : Type) : Type :=
| Normal (a : A)
| Throw (error : string).

Arguments Normal {A} a.
Arguments Throw {A} error.

Definition bind {A B : Type} (c : completion A) (k : A -> completion B) : completion B :=
  match c with
  | Normal a => k a
  | Throw error => Throw error
  end.

(** Reading a property or calling a method of a value: a [TypeError] when
    the value is [undefined]. *)
Definition defined {A : Type} (x : option A) : completion A :=
  match x with
  | Some a => Normal a
  | None => Throw "TypeError"
  end.

(** [levels[i]] on a typed array, as a Number: the element, or [undefined]
    (that is [NaN] in arithmetic) out of range; it does not throw. *)
Definition element (levels : list byte) (i : nat) : float :=
  match nth_error levels i with
  | Some b => JS.of_byte b
  | None => nan
  end.

(** The [for] loop of [getVolume] by its index [i]; [steps] counts the
    iterations left until [i] reaches [levels.length]. *)
Fixpoint loop (levels : list byte) (i steps : nat) (sum : float) : float :=
  match steps with
  | O => sum
  | S steps' =>
      let amplitude := (element levels i - 128) / 128 in
      loop levels (S i) steps' (sum + amplitude * amplitude)
  end.

(** [getVolume] on a buffer that may be [undefined]. Division, also by
    a zero length, and [Math.sqrt] complete normally on all Numbers. *)
Definition getVolume (levels : option (list byte)) : completion float :=
  bind (defined levels) (fun l =>
    let sum := loop l 0 (List.length l) 0 in
    let currVolume := sqrt (sum / JS.of_length l) in
    Normal (if currVolume <? MIN_VOLUME_THRESHOLD then 0 else currVolume)).

(** [_updateAnalysis(t)] with its completions: the call of
    [this.analyser.getByteTimeDomainData] throws when [this.analyser] is
    [undefined], [getVolume] when the buffer is. *)
Definition _updateAnalysis (s : state) (levels : option (list byte)) (t : option float)
    : completion state :=
  if negb (analyser s) then Normal s
  else
    bind (defined (if analyser s then Some tt else None)) (fun _ =>
    bind (getVolume levels) (fun immediateVolume' =>
      let volume' :=
        smoothing s * immediateVolume' + (1 - smoothing s) * prevVolume s in
      if volume' <? DISABLE_AT_VOLUME_THRESHOLD then
        match t, lastSeenVolume s with
        | Some tv, Some seen =>
            if JS.truthy tv && JS.truthy seen
               && (seen <? tv - DISABLE_GRACE_PERIOD_MS)
            then Normal (mkState volume' volume' immediateVolume' (smoothing s)
                                 true (Some true) (lastSeenVolume s))
            else Normal (mkState volume' volume' immediateVolume' (smoothing s)
                                 true (avatarIsQuiet s) (lastSeenVolume s))
        | _, _ => Normal (mkState volume' volume' immediateVolume' (smoothing s)
                                  true (avatarIsQuiet s) (lastSeenVolume s))
        end
      else
        Normal (mkState volume' volume' immediateVolume' (smoothing s) true
                        (Some false)
                        (if JS.truthy_opt t then t else lastSeenVolume s)))).

Definition tick (s : state) (levels : option (list byte)) (t : float) : completion state :=
  if negb (JS.truthy_flag (avatarIsQuiet s))
  then _updateAnalysis s levels (Some t)
  else Normal s.

Definition _runScheduledWork (s : state) (levels : option (list byte)) : completion state :=
  if JS.truthy_flag (avatarIsQuiet s)
  then _updateAnalysis s levels None
  else Normal s.

End Completion.

(** * Binary64 arithmetic through its bit-level specification *)

Module Binary64Facts.

Import Binary64.
Local Open Scope Z_scope.

Lemma fexp_eq e : fexp prec emax e = Z.max (e - 53) (-1074).
Proof. reflexivity. Qed.

Lemma digits2_pos_bounds p :
  2 ^ (Zpos (digits2_pos p) - 1) <= Zpos p < 2 ^ Zpos (digits2_pos p).
Proof.
  induction p as [p IH|p IH|]; cbn [digits2_pos].
  - rewrite Pos2Z.inj_succ. replace (Z.succ (Zpos (digits2_pos p)) - 1) with (1 + (Zpos (digits2_pos p) - 1)) by lia.
    unfold Z.succ. rewrite Z.add_comm with (m := 1).
    rewrite !Z.pow_add_r by lia. change (2 ^ 1) with 2. lia.
  - rewrite Pos2Z.inj_succ. replace (Z.succ (Zpos (digits2_pos p)) - 1) with (1 + (Zpos (digits2_pos p) - 1)) by lia.
    unfold Z.succ. rewrite Z.add_comm with (m := 1).
    rewrite !Z.pow_add_r by lia. change (2 ^ 1) with 2. lia.
  - simpl. lia.
Qed.

Lemma Zdigits2_bounds m : 0 < m -> 2 ^ (Zdigits2 m - 1) <= m < 2 ^ Zdigits2 m.
Proof. destruct m as [|p|p]; try lia. intros _. apply digits2_pos_bounds. Qed.

Lemma Zdigits2_pos m : 0 < m -> 0 < Zdigits2 m.
Proof. destruct m; simpl; lia. Qed.

(** digits is characterised by the power-of-two bracket *)
Lemma Zdigits2_unique m d : 0 < d -> 2 ^ (d - 1) <= m < 2 ^ d -> Zdigits2 m = d.
Proof.
  intros Hd [Hl Hu].
  assert (0 < m) as Hm by (pose proof (Z.pow_pos_nonneg 2 (d - 1)); lia).
  destruct (Zdigits2_bounds m Hm) as [Hl' Hu']. pose proof (Zdigits2_pos m Hm) as Hp.
  destruct (Z.lt_trichotomy (Zdigits2 m) d) as [H|[H|H]]; [|assumption|].
  - exfalso. assert (2 ^ Zdigits2 m <= 2 ^ (d - 1)) by (apply Z.pow_le_mono_r; lia). lia.
  - exfalso. assert (2 ^ d <= 2 ^ (Zdigits2 m - 1)) by (apply Z.pow_le_mono_r; lia). lia.
Qed.

Lemma shr_1_m mrs : 0 <= shr_m mrs -> shr_m (shr_1 mrs) = shr_m mrs / 2.
Proof.
  destruct mrs as [m r s]. cbn [shr_m]. intro H.
  destruct m as [|[p|p|]|p]; cbn [shr_1 shr_m]; try lia; try reflexivity;
    first [ apply Z.div_unique with (r := 1); lia
          | apply Z.div_unique with (r := 0); lia ].
Qed.

Lemma pow2_xO n : 2 ^ Zpos n~0 = 2 ^ Zpos n * 2 ^ Zpos n.
Proof. rewrite <- Z.pow_add_r by lia. f_equal. lia. Qed.

Lemma pow2_xI n : 2 ^ Zpos n~1 = 2 * (2 ^ Zpos n * 2 ^ Zpos n).
Proof.
  rewrite <- Z.pow_add_r by lia.
  replace (Zpos n~1) with (1 + (Zpos n + Zpos n)) by lia.
  rewrite Z.pow_add_r by lia. reflexivity.
Qed.

Lemma pow2_pos k : 0 <= k -> 0 < 2 ^ k.
Proof. intro H. apply Z.pow_pos_nonneg; lia. Qed.

Lemma iter_shr_m n : forall mrs, 0 <= shr_m mrs ->
  shr_m (iter_pos shr_1 n mrs) = shr_m mrs / 2 ^ Zpos n.
Proof.
  induction n as [n IH|n IH|]; intros mrs H; cbn [iter_pos].
  - assert (0 <= shr_m (shr_1 mrs)) as H1
      by (rewrite shr_1_m by assumption; apply Z.div_pos; lia).
    assert (0 <= shr_m (iter_pos shr_1 n (shr_1 mrs))) as H2
      by (rewrite IH by assumption; apply Z.div_pos; [lia | apply pow2_pos; lia]).
    pose proof (pow2_pos (Zpos n) ltac:(lia)) as Hp.
    rewrite IH, IH, shr_1_m by assumption.
    rewrite !Z.div_div by lia.
    rewrite pow2_xI. f_equal; try ring.
  - assert (0 <= shr_m (iter_pos shr_1 n mrs)) as H2
      by (rewrite IH by assumption; apply Z.div_pos; [lia | apply pow2_pos; lia]).
    pose proof (pow2_pos (Zpos n) ltac:(lia)) as Hp.
    rewrite IH, IH by assumption.
    rewrite !Z.div_div by lia.
    rewrite pow2_xO. reflexivity.
  - rewrite shr_1_m by assumption. reflexivity.
Qed.

(** [shr_fexp] on a non-negative mantissa whose exponent is not above the
    canonical one: the mantissa is divided down to the canonical exponent. *)
Lemma shr_fexp_m m e l :
  0 <= m -> e <= fexp prec emax (Zdigits2 m + e) ->
  shr_m (fst (shr_fexp prec emax m e l)) = m / 2 ^ (fexp prec emax (Zdigits2 m + e) - e) /\
  snd (shr_fexp prec emax m e l) = fexp prec emax (Zdigits2 m + e).
Proof.
  intros Hm He. unfold shr_fexp, shr.
  set (n := fexp prec emax (Zdigits2 m + e) - e).
  assert (0 <= n) as Hn by (unfold n; lia).
  assert (shr_m (shr_record_of_loc m l) = m) as Hrec by (destruct l as [|[]]; reflexivity).
  destruct n as [|p|p] eqn:E; try lia.
  - cbn [fst snd]. rewrite Hrec, Z.pow_0_r, Z.div_1_r. split; [reflexivity | lia].
  - cbn [fst snd]. rewrite iter_shr_m by (rewrite Hrec; assumption).
    rewrite Hrec. split; [reflexivity | lia].
Qed.

Lemma round_nearest_even_bounds m l : m <= round_nearest_even m l <= m + 1.
Proof.
  unfold round_nearest_even. destruct l as [|[]]; try lia.
  destruct (Z.even m); lia.
Qed.
Lemma pow2_split a b : 0 <= a -> 0 <= b -> 2 ^ (a + b) = 2 ^ a * 2 ^ b.
Proof. intros. apply Z.pow_add_r; lia. Qed.

Lemma digits_div m n :
  0 < m -> 0 <= n < Zdigits2 m ->
  0 < m / 2 ^ n /\ Zdigits2 (m / 2 ^ n) = Zdigits2 m - n.
Proof.
  intros Hm Hn. destruct (Zdigits2_bounds m Hm) as [Hl Hu].
  pose proof (pow2_pos n ltac:(lia)) as Hp.
  assert (2 ^ (Zdigits2 m - n - 1) <= m / 2 ^ n) as H1.
  { apply Z.div_le_lower_bound; [lia|].
    rewrite <- pow2_split by lia. replace (n + (Zdigits2 m - n - 1)) with (Zdigits2 m - 1) by lia.
    assumption. }
  assert (m / 2 ^ n < 2 ^ (Zdigits2 m - n)) as H2.
  { apply Z.div_lt_upper_bound; [lia|].
    rewrite <- pow2_split by lia. replace (n + (Zdigits2 m - n)) with (Zdigits2 m) by lia.
    assumption. }
  pose proof (pow2_pos (Zdigits2 m - n - 1) ltac:(lia)).
  split; [lia|]. apply Zdigits2_unique; [lia|]. split; assumption.
Qed.

Lemma div_small_digits m n : 0 < m -> Zdigits2 m <= n -> m / 2 ^ n = 0.
Proof.
  intros Hm Hn. destruct (Zdigits2_bounds m Hm) as [Hl Hu].
  apply Z.div_small. split; [lia|].
  assert (2 ^ Zdigits2 m <= 2 ^ n) by (apply Z.pow_le_mono_r; lia). lia.
Qed.

Lemma digits_succ m :
  0 < m ->
  Zdigits2 (m + 1) = Zdigits2 m \/
  (Zdigits2 (m + 1) = Zdigits2 m + 1 /\ m + 1 = 2 ^ Zdigits2 m).
Proof.
  intro Hm. destruct (Zdigits2_bounds m Hm) as [Hl Hu].
  pose proof (Zdigits2_pos m Hm) as Hd.
  destruct (Z.eq_dec (m + 1) (2 ^ Zdigits2 m)) as [E|E].
  - right. split; [|assumption]. apply Zdigits2_unique; [lia|].
    replace (Zdigits2 m + 1 - 1) with (Zdigits2 m) by lia.
    rewrite pow2_split by lia. change (2 ^ 1) with 2. lia.
  - left. apply Zdigits2_unique; [lia|]. lia.
Qed.

(** What [binary_round_aux] returns on an exact positive input whose
    exponent is at most the canonical one: the mantissa is cut down to the
    canonical exponent [e1], rounded to [m2] (the quotient or its
    successor), and renormalised without loss. *)
Lemma binary_round_aux_spec s m e :
  0 < m -> e <= fexp prec emax (Zdigits2 m + e) ->
  let e1 := fexp prec emax (Zdigits2 m + e) in
  let m1 := m / 2 ^ (e1 - e) in
  exists m2, m1 <= m2 <= m1 + 1 /\
    ((m2 = 0 /\ binary_round_aux prec emax s m e loc_Exact = S754_zero s) \/
     (exists m3 e3, 0 < m2 /\ e1 <= e3 /\ Zpos m3 * 2 ^ (e3 - e1) = m2 /\
        e3 = fexp prec emax (Zpos (digits2_pos m3) + e3) /\
        binary_round_aux prec emax s m e loc_Exact =
          if e3 <=? emax - prec then S754_finite s m3 e3 else S754_infinity s)).
Proof.
  intros Hm He e1 m1.
  destruct (shr_fexp_m m e loc_Exact ltac:(lia) He) as [Hm1 He1].
  fold e1 in Hm1, He1. fold m1 in Hm1.
  unfold binary_round_aux.
  destruct (shr_fexp prec emax m e loc_Exact) as [mrs' e'] eqn:E1.
  cbn [fst snd] in Hm1, He1. subst e'.
  set (m2 := round_nearest_even (shr_m mrs') (loc_of_shr_record mrs')).
  pose proof (round_nearest_even_bounds (shr_m mrs') (loc_of_shr_record mrs')) as Hb.
  fold m2 in Hb. rewrite Hm1 in Hb.
  exists m2. split; [assumption|].
  assert (0 <= m1) as Hm1pos by (apply Z.div_pos; [lia | apply pow2_pos; lia]).
  pose proof (Zdigits2_pos m Hm) as Hdm.
  (* the exponent after the first shift is canonical for [m2] or one below *)
  assert (m2 = 0 /\ e1 = -1074 \/
          0 < m2 /\ e1 <= fexp prec emax (Zdigits2 m2 + e1) <= e1 + 1 /\
          (fexp prec emax (Zdigits2 m2 + e1) = e1 + 1 -> exists k, 0 < k /\ m2 = 2 ^ k)) as Hcases.
  { destruct (Z.eq_dec m1 0) as [Hz|Hnz].
    - (* everything was shifted out *)
      assert (Zdigits2 m <= e1 - e) as Hbig.
      { destruct (Z_lt_le_dec (e1 - e) (Zdigits2 m)) as [Hlt|]; [|assumption].
        destruct (digits_div m (e1 - e) Hm ltac:(lia)) as [Hpos _]. fold m1 in Hpos. lia. }
      assert (e1 = -1074) as Hemin by (unfold e1 in *; rewrite fexp_eq in *; lia).
      destruct (Z.eq_dec m2 0) as [H0|H0]; [left; split; assumption|].
      right. assert (m2 = 1) as -> by lia. split; [lia|]. rewrite Hemin.
      split; [rewrite fexp_eq; simpl; lia|]. rewrite fexp_eq. simpl. lia.
    - right.
      assert (e1 - e < Zdigits2 m) as Hlt.
      { destruct (Z_lt_le_dec (e1 - e) (Zdigits2 m)) as [|Hge]; [assumption|].
        pose proof (div_small_digits m (e1 - e) Hm Hge). fold m1 in H. lia. }
      destruct (digits_div m (e1 - e) Hm ltac:(lia)) as [Hpos Hd1]. fold m1 in Hpos, Hd1.
      split; [lia|].
      assert (Zdigits2 m1 + e1 = Zdigits2 m + e) as Hsame by lia.
      assert (fexp prec emax (Zdigits2 m1 + e1) = e1) as Hcan by (rewrite Hsame; reflexivity).
      destruct (Z.eq_dec m2 m1) as [->|Hne].
      + rewrite Hcan. split; [lia|]. intro; lia.
      + assert (m2 = m1 + 1) as -> by lia.
        destruct (digits_succ m1 Hpos) as [Hs|[Hs Hpow]].
        * rewrite Hs, Hcan. split; [lia|]. intro; lia.
        * rewrite Hs. rewrite fexp_eq in *. split; [lia|].
          intros _. exists (Zdigits2 m1). split; [apply Zdigits2_pos; assumption | assumption]. }
  destruct Hcases as [[Hz Hemin]|(Hpos & Hrange & Hpow)].
  - left. split; [assumption|]. rewrite Hz.
    unfold shr_fexp. rewrite Hemin. reflexivity.
  - right.
    destruct (shr_fexp_m m2 e1 loc_Exact ltac:(lia) ltac:(lia)) as [Hm3 He3].
    destruct (shr_fexp prec emax m2 e1 loc_Exact) as [mrs'' e''] eqn:E2.
    cbn [fst snd] in Hm3, He3.
    set (n2 := fexp prec emax (Zdigits2 m2 + e1) - e1) in *.
    assert (n2 = 0 \/ n2 = 1) as Hn2 by (unfold n2; lia).
    assert (0 < shr_m mrs'' /\ shr_m mrs'' * 2 ^ n2 = m2 /\
            Zdigits2 (shr_m mrs'') + e'' = Zdigits2 m2 + e1) as (H3pos & H3val & H3dig).
    { rewrite Hm3. destruct Hn2 as [Hn|Hn]; rewrite Hn.
      - rewrite Z.pow_0_r, Z.div_1_r. repeat split; lia.
      - destruct (Hpow ltac:(unfold n2 in Hn; lia)) as (k & Hk & Hm2).
        change (2 ^ 1) with 2.
        assert (m2 = 2 * 2 ^ (k - 1)) as Hm2'.
        { rewrite Hm2. replace k with (1 + (k - 1)) at 1 by lia.
          rewrite pow2_split by lia. reflexivity. }
        pose proof (pow2_pos (k - 1) ltac:(lia)) as Hp.
        assert (m2 / 2 = 2 ^ (k - 1)) as Hq
          by (rewrite Hm2'; rewrite Z.mul_comm; apply Z.div_mul; lia).
        rewrite Hq. split; [assumption|]. split; [lia|].
        assert (Zdigits2 m2 = k + 1) as ->.
        { apply Zdigits2_unique; [lia|]. replace (k + 1 - 1) with k by lia.
          rewrite Hm2. rewrite pow2_split by lia. change (2 ^ 1) with 2.
          pose proof (pow2_pos k ltac:(lia)). lia. }
        assert (Zdigits2 (2 ^ (k - 1)) = k) as ->.
        { apply Zdigits2_unique; [lia|]. split; [lia|].
          replace k with ((k - 1) + 1) at 2 by lia. rewrite pow2_split by lia.
          change (2 ^ 1) with 2. lia. }
        unfold n2 in Hn. lia. }
    destruct (shr_m mrs'') as [|m3|m3] eqn:E3; try lia.
    exists m3, e''. split; [assumption|]. split; [lia|].
    split; [replace (e'' - e1) with n2 by (unfold n2; lia); assumption|].
    split; [|reflexivity].
    cbn [Zdigits2] in H3dig. rewrite H3dig. exact He3.
Qed.
Lemma valid_finite s m e :
  valid_binary (S754_finite s m e) = true ->
  -1074 <= e <= 971 /\ Zpos (digits2_pos m) <= 53 /\
  (-1074 < e -> Zpos (digits2_pos m) = 53).
Proof.
  unfold SpecFloat.valid_binary, bounded, canonical_mantissa.
  intro H. apply andb_true_iff in H as [H1 H2].
  apply Z.eqb_eq in H1. apply Z.leb_le in H2.
  rewrite fexp_eq in H1. change (emax - prec) with 971 in H2. lia.
Qed.

Lemma finite_rank_bounds s m e :
  valid_binary (S754_finite s m e) = true ->
  0 < Zpos m * 2 ^ (e + 2148) < 2 ^ 3172.
Proof.
  intro H. destruct (valid_finite s m e H) as (He & Hd & _).
  destruct (digits2_pos_bounds m) as [_ Hu].
  pose proof (pow2_pos (e + 2148) ltac:(lia)) as Hp.
  split; [lia|].
  assert (2 ^ Zpos (digits2_pos m) <= 2 ^ 53) by (apply Z.pow_le_mono_r; lia).
  assert (Zpos m * 2 ^ (e + 2148) < 2 ^ 53 * 2 ^ (e + 2148)) by (apply Z.mul_lt_mono_pos_r; lia).
  rewrite <- pow2_split in H1 by lia.
  assert (2 ^ (53 + (e + 2148)) <= 2 ^ 3172) by (apply Z.pow_le_mono_r; lia).
  lia.
Qed.

Lemma finite_rank_lt s1 m1 e1 s2 m2 e2 :
  valid_binary (S754_finite s1 m1 e1) = true ->
  valid_binary (S754_finite s2 m2 e2) = true ->
  e1 < e2 ->
  Zpos m1 * 2 ^ (e1 + 2148) < Zpos m2 * 2 ^ (e2 + 2148).
Proof.
  intros H1 H2 Hlt.
  destruct (valid_finite _ _ _ H1) as (He1 & Hd1 & _).
  destruct (valid_finite _ _ _ H2) as (He2 & _ & Hd2).
  specialize (Hd2 ltac:(lia)).
  destruct (digits2_pos_bounds m1) as [_ Hu1].
  destruct (digits2_pos_bounds m2) as [Hl2 _]. rewrite Hd2 in Hl2.
  assert (2 ^ Zpos (digits2_pos m1) <= 2 ^ 53) by (apply Z.pow_le_mono_r; lia).
  pose proof (pow2_pos (e1 + 2148) ltac:(lia)) as Hp1.
  pose proof (pow2_pos (e2 + 2148) ltac:(lia)) as Hp2.
  assert (Zpos m1 * 2 ^ (e1 + 2148) < 2 ^ 53 * 2 ^ (e1 + 2148)) by (apply Z.mul_lt_mono_pos_r; lia).
  rewrite <- pow2_split in H0 by lia.
  assert (2 ^ (53 - 1) * 2 ^ (e2 + 2148) <= Zpos m2 * 2 ^ (e2 + 2148)) by (apply Z.mul_le_mono_nonneg_r; lia).
  rewrite <- pow2_split in H3 by lia.
  assert (2 ^ (53 + (e1 + 2148)) <= 2 ^ (53 - 1 + (e2 + 2148))) by (apply Z.pow_le_mono_r; lia).
  lia.
Qed.

Lemma finite_compare_rank s1 m1 e1 s2 m2 e2 :
  valid_binary (S754_finite s1 m1 e1) = true ->
  valid_binary (S754_finite s2 m2 e2) = true ->
  match (e1 ?= e2) with
  | Lt => Lt
  | Gt => Gt
  | Eq => Pos.compare_cont Eq m1 m2
  end = (Zpos m1 * 2 ^ (e1 + 2148) ?= Zpos m2 * 2 ^ (e2 + 2148)).
Proof.
  intros H1 H2. destruct (Z.compare_spec e1 e2) as [->|Hlt|Hgt].
  - destruct (valid_finite _ _ _ H2) as (He2 & _).
    pose proof (pow2_pos (e2 + 2148) ltac:(lia)) as Hp.
    change (Pos.compare_cont Eq m1 m2) with (Zpos m1 ?= Zpos m2).
    destruct (Z.compare_spec (Zpos m1) (Zpos m2)) as [E|L|G]; symmetry.
    + rewrite E. apply Z.compare_refl.
    + apply Z.compare_lt_iff. apply Z.mul_lt_mono_pos_r; assumption.
    + apply Z.compare_gt_iff. apply Z.mul_lt_mono_pos_r; assumption.
  - symmetry. apply Z.compare_lt_iff. now apply finite_rank_lt with s1 s2.
  - symmetry. apply Z.compare_gt_iff. now apply finite_rank_lt with s2 s1.
Qed.

Lemma SFcompare_rank x y :
  valid_binary x = true -> valid_binary y = true ->
  x <> S754_nan -> y <> S754_nan ->
  SFcompare x y = Some (rank x ?= rank y).
Proof.
  intros Vx Vy Nx Ny.
  destruct x as [sx|sx| |sx mx ex]; try congruence;
  destruct y as [sy|sy| |sy my ey]; try congruence; cbn [SFcompare rank].
  - reflexivity.
  - destruct sy; reflexivity.
  - pose proof (finite_rank_bounds _ _ _ Vy) as Hb. f_equal. symmetry.
    destruct sy; cbn [cond_Zopp]; [apply Z.compare_gt_iff | apply Z.compare_lt_iff]; lia.
  - destruct sx; reflexivity.
  - destruct sx, sy; reflexivity.
  - pose proof (finite_rank_bounds _ _ _ Vy) as Hb. f_equal. symmetry.
    destruct sx, sy; cbn [cond_Zopp];
      first [apply Z.compare_gt_iff; lia | apply Z.compare_lt_iff; lia].
  - pose proof (finite_rank_bounds _ _ _ Vx) as Hb. f_equal. symmetry.
    destruct sx; cbn [cond_Zopp]; [apply Z.compare_lt_iff | apply Z.compare_gt_iff]; lia.
  - pose proof (finite_rank_bounds _ _ _ Vx) as Hb. f_equal. symmetry.
    destruct sx, sy; cbn [cond_Zopp];
      first [apply Z.compare_gt_iff; lia | apply Z.compare_lt_iff; lia].
  - pose proof (finite_rank_bounds _ _ _ Vx) as Hbx.
    pose proof (finite_rank_bounds _ _ _ Vy) as Hby.
    f_equal. destruct sx, sy; cbn [cond_Zopp].
    + rewrite Z.compare_opp. rewrite <- (finite_compare_rank true my ey true mx ex) by assumption.
      rewrite (Z.compare_antisym ey ex). rewrite (Pos.compare_cont_antisym mx my Eq).
      destruct (ey ?= ex); reflexivity.
    + symmetry. apply Z.compare_lt_iff. lia.
    + symmetry. apply Z.compare_gt_iff. lia.
    + apply finite_compare_rank with false false; assumption.
Qed.
(** The rounded result of an exact positive value [V = m * 2^e], read
    through [rank]: with [g] the unit of the target binade, the result is
    [m2 * g] for [m2] the quotient [V / g] or its successor, capped at the
    rank of infinity. *)
Lemma round_aux_value s m e :
  0 < m -> e <= fexp prec emax (Zdigits2 m + e) -> -2148 <= e ->
  let e1 := fexp prec emax (Zdigits2 m + e) in
  let V := m * 2 ^ (e + 2148) in
  let g := 2 ^ (e1 + 2148) in
  exists m2,
    V / g <= m2 <= V / g + 1 /\
    rank (binary_round_aux prec emax s m e loc_Exact) = cond_Zopp s (Z.min (m2 * g) (2 ^ 3172)) /\
    binary_round_aux prec emax s m e loc_Exact <> S754_nan /\
    (-1074 < e1 -> 2 ^ 52 <= V / g).
Proof.
  intros Hm He HeK e1 V g.
  destruct (binary_round_aux_spec s m e Hm He) as (m2 & Hb & Hres).
  fold e1 in Hb, Hres.
  assert (-1074 <= e1) as He1 by (unfold e1; rewrite fexp_eq; lia).
  pose proof (pow2_pos (e + 2148) ltac:(lia)) as Hpe.
  pose proof (pow2_pos (e1 - e) ltac:(lia)) as Hpd.
  pose proof (pow2_pos (e1 + 2148) ltac:(lia)) as Hpg. fold g in Hpg.
  assert (g = 2 ^ (e1 - e) * 2 ^ (e + 2148)) as Hg
    by (unfold g; rewrite <- pow2_split by lia; f_equal; lia).
  assert (V / g = m / 2 ^ (e1 - e)) as Hq
    by (unfold V; rewrite Hg; apply Z.div_mul_cancel_r; lia).
  exists m2. rewrite Hq. split; [assumption|].
  assert (-1074 < e1 -> 2 ^ 52 <= m / 2 ^ (e1 - e)) as Hnormal.
  { intro Hgt. pose proof (Zdigits2_pos m Hm) as Hdm.
    assert (e1 - e = Zdigits2 m - 53) as Hn by (unfold e1 in *; rewrite fexp_eq in *; lia).
    destruct (digits_div m (e1 - e) Hm ltac:(lia)) as [Hpos Hd].
    destruct (Zdigits2_bounds _ Hpos) as [Hl _]. rewrite Hd, Hn in Hl.
    replace (Zdigits2 m - (Zdigits2 m - 53) - 1) with 52 in Hl by lia. rewrite <- Hn in Hl. exact Hl. }
  destruct Hres as [[Hz Hr]|(m3 & e3 & Hpos & Hle & Hval & Hcan & Hr)].
  - rewrite Hr. split; [|split; [discriminate | assumption]].
    subst m2. cbn [rank]. rewrite Z.mul_0_l.
    rewrite Z.min_l by (pose proof (pow2_pos 3172 ltac:(lia)); lia).
    destruct s; reflexivity.
  - rewrite Hr. rewrite fexp_eq in Hcan.
    assert (m2 * g = Zpos m3 * 2 ^ (e3 + 2148)) as Hrank.
    { rewrite <- Hval. unfold g. rewrite <- Z.mul_assoc, <- pow2_split by lia.
      do 2 f_equal. lia. }
    destruct (digits2_pos_bounds m3) as [Hl3 Hu3].
    pose proof (pow2_pos (e3 + 2148) ltac:(lia)) as Hp3.
    change (emax - prec) with 971.
    destruct (Z.leb_spec e3 971) as [Hfin|Hinf].
    + split; [|split; [discriminate | assumption]].
      cbn [rank]. rewrite Hrank. f_equal. symmetry. apply Z.min_l.
      assert (2 ^ Zpos (digits2_pos m3) <= 2 ^ 53) by (apply Z.pow_le_mono_r; lia).
      assert (Zpos m3 * 2 ^ (e3 + 2148) < 2 ^ 53 * 2 ^ (e3 + 2148))
        by (apply Z.mul_lt_mono_pos_r; lia).
      rewrite <- pow2_split in H0 by lia.
      assert (2 ^ (53 + (e3 + 2148)) <= 2 ^ 3172) by (apply Z.pow_le_mono_r; lia).
      lia.
    + split; [|split; [discriminate | assumption]].
      cbn [rank]. rewrite Hrank. f_equal. symmetry. apply Z.min_r.
      assert (Zpos (digits2_pos m3) = 53) as Hd by lia. rewrite Hd in Hl3.
      assert (2 ^ (53 - 1) * 2 ^ (e3 + 2148) <= Zpos m3 * 2 ^ (e3 + 2148))
        by (apply Z.mul_le_mono_nonneg_r; lia).
      rewrite <- pow2_split in H by lia.
      assert (2 ^ 3172 <= 2 ^ (53 - 1 + (e3 + 2148))) by (apply Z.pow_le_mono_r; lia).
      lia.
Qed.

(** A representable number that is not above the exact value is not above
    the rounded one. *)
Lemma bracket_lower V g e1 m2 ma ea :
  0 < V -> g = 2 ^ (e1 + 2148) -> -1074 <= e1 ->
  V / g <= m2 ->
  (-1074 < e1 -> 2 ^ 52 <= V / g) ->
  valid_binary (S754_finite false ma ea) = true ->
  Zpos ma * 2 ^ (ea + 2148) <= V ->
  Zpos ma * 2 ^ (ea + 2148) <= Z.min (m2 * g) (2 ^ 3172).
Proof.
  intros HV Hg He1 Hm2 Hnormal Va Hle.
  pose proof (finite_rank_bounds _ _ _ Va) as Hb.
  destruct (valid_finite _ _ _ Va) as (Hea & Hda & _).
  pose proof (pow2_pos (e1 + 2148) ltac:(lia)) as Hpg. rewrite <- Hg in Hpg.
  apply Z.min_glb; [|lia].
  assert (Zpos ma * 2 ^ (ea + 2148) <= (V / g) * g) as Hfloor.
  { destruct (Z_le_gt_dec e1 ea) as [Hge|Hlt].
    - assert (Zpos ma * 2 ^ (ea + 2148) = Zpos ma * 2 ^ (ea - e1) * g) as Heq.
      { rewrite Hg, <- Z.mul_assoc, <- pow2_split by lia. do 2 f_equal. lia. }
      rewrite Heq in *. apply Z.mul_le_mono_nonneg_r; [lia|].
      apply Z.div_le_lower_bound; [lia|]. lia.
    - specialize (Hnormal ltac:(lia)).
      destruct (digits2_pos_bounds ma) as [_ Hu].
      assert (2 ^ Zpos (digits2_pos ma) <= 2 ^ 53) by (apply Z.pow_le_mono_r; lia).
      pose proof (pow2_pos (ea + 2148) ltac:(lia)) as Hpa.
      assert (Zpos ma * 2 ^ (ea + 2148) < 2 ^ 53 * 2 ^ (ea + 2148))
        by (apply Z.mul_lt_mono_pos_r; lia).
      rewrite <- pow2_split in H0 by lia.
      assert (2 ^ (53 + (ea + 2148)) <= 2 ^ (52 + (e1 + 2148))) by (apply Z.pow_le_mono_r; lia).
      rewrite (pow2_split 52 (e1 + 2148)) in H1 by lia. rewrite <- Hg in H1.
      assert (2 ^ 52 * g <= V / g * g) by (apply Z.mul_le_mono_nonneg_r; lia).
      lia. }
  assert (V / g * g <= m2 * g) by (apply Z.mul_le_mono_nonneg_r; lia).
  lia.
Qed.

(** A representable number strictly above the exact value is not below
    the rounded one. *)
Lemma bracket_upper V g e1 m2 b :
  0 < V -> g = 2 ^ (e1 + 2148) -> -1074 <= e1 ->
  m2 <= V / g + 1 ->
  (-1074 < e1 -> 2 ^ 52 <= V / g) ->
  valid_binary b = true -> b <> S754_nan ->
  V < rank b ->
  Z.min (m2 * g) (2 ^ 3172) <= rank b.
Proof.
  intros HV Hg He1 Hm2 Hnormal Vb Nb Hlt.
  pose proof (pow2_pos (e1 + 2148) ltac:(lia)) as Hpg. rewrite <- Hg in Hpg.
  pose proof (pow2_pos 3172 ltac:(lia)) as Hinf.
  destruct b as [sb|sb| |sb mb eb]; cbn [rank] in *; try congruence; try lia.
  - destruct sb; cbn [cond_Zopp] in *; lia.
  - pose proof (finite_rank_bounds _ _ _ Vb) as Hb.
    destruct (valid_finite _ _ _ Vb) as (Heb & Hdb & _).
    destruct sb; cbn [cond_Zopp] in *; [lia|].
    apply Z.le_trans with (m2 * g); [apply Z.le_min_l|].
    pose proof (Z.mul_div_le V g Hpg) as Hfl.
    destruct (Z_le_gt_dec e1 eb) as [Hge|Hgt].
    + assert (Zpos mb * 2 ^ (eb + 2148) = Zpos mb * 2 ^ (eb - e1) * g) as Heq.
      { rewrite Hg, <- Z.mul_assoc, <- pow2_split by lia. do 2 f_equal. lia. }
      rewrite Heq in *.
      assert (V / g < Zpos mb * 2 ^ (eb - e1)) as Hq.
      { apply Z.div_lt_upper_bound; [lia|]. lia. }
      apply Z.mul_le_mono_nonneg_r; lia.
    + exfalso. specialize (Hnormal ltac:(lia)).
      destruct (digits2_pos_bounds mb) as [_ Hu].
      assert (2 ^ Zpos (digits2_pos mb) <= 2 ^ 53) by (apply Z.pow_le_mono_r; lia).
      pose proof (pow2_pos (eb + 2148) ltac:(lia)) as Hpa.
      assert (Zpos mb * 2 ^ (eb + 2148) < 2 ^ 53 * 2 ^ (eb + 2148))
        by (apply Z.mul_lt_mono_pos_r; lia).
      rewrite <- pow2_split in H0 by lia.
      assert (2 ^ (53 + (eb + 2148)) <= 2 ^ (52 + (e1 + 2148))) by (apply Z.pow_le_mono_r; lia).
      rewrite (pow2_split 52 (e1 + 2148)) in H1 by lia. rewrite <- Hg in H1.
      assert (2 ^ 52 * g <= V / g * g) by (apply Z.mul_le_mono_nonneg_r; lia).
      lia.
Qed.
Lemma SFcompare_refl x : x <> S754_nan -> SFcompare x x = Some Eq.
Proof.
  destruct x as [s|s| |s m e]; intro H; try congruence; simpl.
  - reflexivity.
  - destruct s; reflexivity.
  - rewrite Z.compare_refl, Pos.compare_cont_refl. destruct s; reflexivity.
Qed.

Lemma is_nan_Prim2SF x : is_nan x = true <-> Prim2SF x = S754_nan.
Proof.
  unfold is_nan. rewrite eqb_spec. unfold SFeqb. split.
  - intro H. destruct (Prim2SF x) eqn:E; try reflexivity;
      rewrite SFcompare_refl in H by congruence; discriminate.
  - intros ->. reflexivity.
Qed.

Lemma not_nan_Prim2SF x : is_nan x = false <-> Prim2SF x <> S754_nan.
Proof.
  split.
  - intros H E. apply is_nan_Prim2SF in E. congruence.
  - intro H. destruct (is_nan x) eqn:E; [|reflexivity].
    apply is_nan_Prim2SF in E. contradiction.
Qed.

Lemma compare_rank x y :
  is_nan x = false -> is_nan y = false ->
  SFcompare (Prim2SF x) (Prim2SF y) = Some (frank x ?= frank y).
Proof.
  intros Hx Hy. apply SFcompare_rank; try apply Prim2SF_valid;
    now apply not_nan_Prim2SF.
Qed.

Lemma ltb_rank x y :
  is_nan x = false -> is_nan y = false -> (x <? y)%float = (frank x <? frank y).
Proof.
  intros Hx Hy. rewrite ltb_spec. unfold SFltb. rewrite compare_rank by assumption.
  unfold Z.ltb. destruct (frank x ?= frank y); reflexivity.
Qed.

Lemma leb_rank x y :
  is_nan x = false -> is_nan y = false -> (x <=? y)%float = (frank x <=? frank y).
Proof.
  intros Hx Hy. rewrite leb_spec. unfold SFleb. rewrite compare_rank by assumption.
  unfold Z.leb. destruct (frank x ?= frank y); reflexivity.
Qed.

Lemma ltb_nan_l x y : is_nan x = true -> (x <? y)%float = false.
Proof. intro H. rewrite ltb_spec. apply is_nan_Prim2SF in H. rewrite H. reflexivity. Qed.

Lemma ltb_nan_r x y : is_nan y = true -> (x <? y)%float = false.
Proof.
  intro H. rewrite ltb_spec. apply is_nan_Prim2SF in H. rewrite H.
  destruct (Prim2SF x); reflexivity.
Qed.

Lemma leb_true_not_nan x y : (x <=? y)%float = true -> is_nan x = false /\ is_nan y = false.
Proof.
  rewrite leb_spec. intro H. split; apply not_nan_Prim2SF; intro E; rewrite E in H.
  - discriminate.
  - destruct (Prim2SF x); discriminate.
Qed.

Lemma ltb_true_not_nan x y : (x <? y)%float = true -> is_nan x = false /\ is_nan y = false.
Proof.
  rewrite ltb_spec. intro H. split; apply not_nan_Prim2SF; intro E; rewrite E in H.
  - discriminate.
  - destruct (Prim2SF x); discriminate.
Qed.

(** Numbers of non-negative rank are zeros, positive finite numbers and
    [+infinity]. *)
Lemma nonneg_rank_cases x :
  is_nan x = false -> 0 <= frank x ->
  (exists s, Prim2SF x = S754_zero s) \/
  Prim2SF x = S754_infinity false \/
  (exists m e, Prim2SF x = S754_finite false m e).
Proof.
  intros Hn Hr. apply not_nan_Prim2SF in Hn. unfold frank in Hr.
  pose proof (Prim2SF_valid x) as V.
  destruct (Prim2SF x) as [s|s| |s m e] eqn:E; try congruence.
  - left. now exists s.
  - destruct s; [|now right; left]. cbn in Hr. pose proof (pow2_pos 3172 ltac:(lia)). lia.
  - destruct s; [|right; right; now exists m, e].
    pose proof (finite_rank_bounds _ _ _ V). cbn [rank cond_Zopp] in Hr. lia.
Qed.

Lemma mul_exponent_ok mx ex my ey :
  valid_binary (S754_finite false mx ex) = true ->
  valid_binary (S754_finite false my ey) = true ->
  ex + ey <= fexp prec emax (Zdigits2 (Zpos (mx * my)) + (ex + ey)) /\ -2148 <= ex + ey.
Proof.
  intros Vx Vy.
  destruct (valid_finite _ _ _ Vx) as (Hex & Hdx & Hnx).
  destruct (valid_finite _ _ _ Vy) as (Hey & Hdy & Hny).
  split; [|lia]. rewrite fexp_eq.
  destruct (digits2_pos_bounds mx) as [Hlx _].
  destruct (digits2_pos_bounds my) as [Hly _].
  destruct (Zdigits2_bounds (Zpos (mx * my)) ltac:(lia)) as [_ Hu].
  destruct (Z.eq_dec ex (-1074)) as [Ex|Ex]; destruct (Z.eq_dec ey (-1074)) as [Ey|Ey]; try lia.
  - (* y is normal *)
    rewrite Hny in Hly by lia.
    assert (2 ^ (53 - 1) <= Zpos (mx * my)) by (rewrite Pos2Z.inj_mul; nia).
    assert (53 <= Zdigits2 (Zpos (mx * my))).
    { destruct (Z_lt_le_dec (Zdigits2 (Zpos (mx * my))) 53) as [Hlt|]; [|assumption].
      assert (2 ^ Zdigits2 (Zpos (mx * my)) <= 2 ^ (53 - 1)) by (apply Z.pow_le_mono_r; lia). lia. }
    lia.
  - rewrite Hnx in Hlx by lia.
    assert (2 ^ (53 - 1) <= Zpos (mx * my)) by (rewrite Pos2Z.inj_mul; nia).
    assert (53 <= Zdigits2 (Zpos (mx * my))).
    { destruct (Z_lt_le_dec (Zdigits2 (Zpos (mx * my))) 53) as [Hlt|]; [|assumption].
      assert (2 ^ Zdigits2 (Zpos (mx * my)) <= 2 ^ (53 - 1)) by (apply Z.pow_le_mono_r; lia). lia. }
    lia.
  - rewrite Hnx in Hlx by lia.
    assert (2 ^ (53 - 1) <= Zpos (mx * my)) by (rewrite Pos2Z.inj_mul; nia).
    assert (53 <= Zdigits2 (Zpos (mx * my))).
    { destruct (Z_lt_le_dec (Zdigits2 (Zpos (mx * my))) 53) as [Hlt|]; [|assumption].
      assert (2 ^ Zdigits2 (Zpos (mx * my)) <= 2 ^ (53 - 1)) by (apply Z.pow_le_mono_r; lia). lia. }
    lia.
Qed.

(** The product of two positive finite numbers, through [rank]. *)
Lemma mul_finite_value (x y : float) mx ex my ey :
  Prim2SF x = S754_finite false mx ex ->
  Prim2SF y = S754_finite false my ey ->
  let e1 := fexp prec emax (Zdigits2 (Zpos (mx * my)) + (ex + ey)) in
  let V := Zpos (mx * my) * 2 ^ (ex + ey + 2148) in
  let g := 2 ^ (e1 + 2148) in
  exists m2,
    V / g <= m2 <= V / g + 1 /\
    frank (x * y)%float = Z.min (m2 * g) (2 ^ 3172) /\
    is_nan (x * y)%float = false /\
    (-1074 < e1 -> 2 ^ 52 <= V / g) /\ -1074 <= e1 /\ 0 < V.
Proof.
  intros Ex Ey e1 V g.
  pose proof (Prim2SF_valid x) as Vx. rewrite Ex in Vx.
  pose proof (Prim2SF_valid y) as Vy. rewrite Ey in Vy.
  destruct (mul_exponent_ok _ _ _ _ Vx Vy) as [Hok HK].
  destruct (round_aux_value false (Zpos (mx * my)) (ex + ey) ltac:(lia) Hok HK)
    as (m2 & Hb & Hr & Hn & Hnormal).
  fold e1 in Hb, Hr, Hnormal. fold V in Hb, Hnormal. fold g in Hb, Hr, Hnormal.
  exists m2. split; [assumption|].
  assert (Prim2SF (x * y)%float =
          binary_round_aux prec emax false (Zpos (mx * my)) (ex + ey) loc_Exact) as Hmul
    by (rewrite mul_spec, Ex, Ey; reflexivity).
  unfold frank. rewrite Hmul. split; [exact Hr|].
  split; [apply not_nan_Prim2SF; rewrite Hmul; exact Hn|].
  split; [assumption|]. split; [unfold e1; rewrite fexp_eq; lia|].
  unfold V. pose proof (pow2_pos (ex + ey + 2148) ltac:(lia)). lia.
Qed.
Lemma nan_eq x : is_nan x = true -> x = nan.
Proof.
  intro H. apply Prim2SF_inj. apply is_nan_Prim2SF in H. rewrite H. reflexivity.
Qed.

Lemma mul_nan_r x : (x * nan)%float = nan.
Proof.
  apply Prim2SF_inj. rewrite mul_spec. change (Prim2SF nan) with S754_nan.
  unfold SF64mul, SFmul. destruct (Prim2SF x); reflexivity.
Qed.

Lemma add_nan_l x : (nan + x)%float = nan.
Proof.
  apply Prim2SF_inj. rewrite add_spec. change (Prim2SF nan) with S754_nan.
  reflexivity.
Qed.
Lemma Prim2SF_decay : Prim2SF 0.8%float = S754_finite false 7205759403792794 (-53).
Proof. reflexivity. Qed.

Lemma mul_decay_le (x : float) :
  is_nan x = false -> 0 <= frank x ->
  is_nan (x * 0.8)%float = false /\ 0 <= frank (x * 0.8)%float <= frank x.
Proof.
  intros Hn Hr.
  destruct (nonneg_rank_cases x Hn Hr) as [[s E]|[E|(m & e & E)]].
  - assert (Prim2SF (x * 0.8)%float = S754_zero (xorb s false)) as H
      by (rewrite mul_spec, E, Prim2SF_decay; reflexivity).
    split; [apply not_nan_Prim2SF; rewrite H; discriminate|].
    unfold frank. rewrite H, E. cbn. lia.
  - assert (Prim2SF (x * 0.8)%float = S754_infinity false) as H
      by (rewrite mul_spec, E, Prim2SF_decay; reflexivity).
    split; [apply not_nan_Prim2SF; rewrite H; discriminate|].
    unfold frank. rewrite H, E. cbn. pose proof (pow2_pos 3172 ltac:(lia)). lia.
  - destruct (mul_finite_value x 0.8%float m e _ _ E Prim2SF_decay)
      as (m2 & Hb & Hval & Hnan & Hnormal & He1 & HV).
    split; [assumption|]. rewrite Hval.
    pose proof (Prim2SF_valid x) as V. rewrite E in V.
    destruct (valid_finite _ _ _ V) as (He & _).
    set (e1 := fexp prec emax (Zdigits2 (Zpos (m * 7205759403792794)) + (e + -53))) in *.
    set (g := 2 ^ (e1 + 2148)) in *.
    set (V0 := Zpos (m * 7205759403792794) * 2 ^ (e + -53 + 2148)) in *.
    pose proof (pow2_pos (e1 + 2148) ltac:(lia)) as Hg. fold g in Hg.
    pose proof (pow2_pos 3172 ltac:(lia)) as Hinf.
    assert (0 <= V0 / g) by (apply Z.div_pos; lia).
    split; [apply Z.min_glb; nia|].
    assert (V0 < frank x) as Hlt.
    { unfold V0, frank. rewrite E. cbn [rank cond_Zopp]. rewrite Pos2Z.inj_mul.
      replace (e + 2148) with (53 + (e + -53 + 2148)) by lia.
      rewrite (pow2_split 53) by lia.
      pose proof (pow2_pos (e + -53 + 2148) ltac:(lia)) as Hp.
      assert (7205759403792794 < 2 ^ 53) by (vm_compute; reflexivity).
      nia. }
    apply (bracket_upper V0 g e1 m2 (Prim2SF x)); try assumption; try reflexivity; try lia.
    + apply Prim2SF_valid.
    + rewrite E. discriminate.
Qed.

(** One decay of a normal number shrinks it by the factor
    [(0.8 * 2^53 + 2) / 2^53] at least. *)
Lemma mul_decay_geometric (x : float) m e :
  Prim2SF x = S754_finite false m e -> Zpos (digits2_pos m) = 53 ->
  frank (x * 0.8)%float * 2 ^ 53 <= frank x * (7205759403792794 + 2).
Proof.
  intros E Hd.
  destruct (mul_finite_value x 0.8%float m e _ _ E Prim2SF_decay)
    as (m2 & Hb & Hval & Hnan & Hnormal & He1 & HV).
  pose proof (Prim2SF_valid x) as V. rewrite E in V.
  destruct (valid_finite _ _ _ V) as (He & _).
  rewrite Hval.
  set (P := Zpos (m * 7205759403792794)) in *.
  set (e1 := fexp prec emax (Zdigits2 P + (e + -53))) in *.
  set (g := 2 ^ (e1 + 2148)) in *.
  set (V0 := P * 2 ^ (e + -53 + 2148)) in *.
  pose proof (pow2_pos (e1 + 2148) ltac:(lia)) as Hg. fold g in Hg.
  destruct (digits2_pos_bounds m) as [Hl Hu]. rewrite Hd in Hl, Hu.
  assert (Zdigits2 P <= 106) as HdP.
  { destruct (Zdigits2_bounds P ltac:(unfold P; lia)) as [HlP _].
    assert (P < 2 ^ 106).
    { unfold P. rewrite Pos2Z.inj_mul. change (2 ^ 106) with (2 ^ 53 * 2 ^ 53).
      assert (7205759403792794 < 2 ^ 53) by (vm_compute; reflexivity). nia. }
    destruct (Z_le_gt_dec (Zdigits2 P) 106) as [|Hgt]; [assumption|].
    assert (2 ^ 106 <= 2 ^ (Zdigits2 P - 1)) by (apply Z.pow_le_mono_r; lia). lia. }
  assert (e1 <= e) as He1e by (unfold e1; rewrite fexp_eq; lia).
  assert (g <= 2 ^ (e + 2148)) as Hge by (unfold g; apply Z.pow_le_mono_r; lia).
  pose proof (pow2_pos (e + 2148) ltac:(lia)) as Hpe.
  assert (frank x = Zpos m * 2 ^ (e + 2148)) as Hfx by (unfold frank; rewrite E; reflexivity).
  assert (V0 * 2 ^ 53 = frank x * 7205759403792794) as HV0.
  { rewrite Hfx. unfold V0, P. rewrite Pos2Z.inj_mul.
    replace (e + 2148) with (e + -53 + 2148 + 53) by lia.
    rewrite (pow2_split (e + -53 + 2148) 53) by lia. ring. }
  pose proof (Z.mul_div_le V0 g Hg) as Hfloor.
  assert (Z.min (m2 * g) (2 ^ 3172) <= V0 + g) as Hq.
  { apply Z.le_trans with (m2 * g); [apply Z.le_min_l|]. nia. }
  assert (2 ^ 53 * g <= 2 * frank x) as Hulp.
  { rewrite Hfx. change (53 - 1) with 52 in Hl.
    assert (2 ^ 52 * g <= Zpos m * 2 ^ (e + 2148)) by (apply Z.mul_le_mono_nonneg; lia).
    change (2 ^ 53) with (2 * 2 ^ 52). lia. }
  assert (Z.min (m2 * g) (2 ^ 3172) * 2 ^ 53 <= (V0 + g) * 2 ^ 53) as Hscaled
    by (apply Z.mul_le_mono_nonneg_r; lia).
  rewrite Z.mul_add_distr_r, HV0 in Hscaled. lia.
Qed.
Lemma Pos_iter_xO m d : Zpos (Pos.iter xO m d) = Zpos m * 2 ^ Zpos d.
Proof.
  rewrite <- Z.shiftl_mul_pow2 by lia. cbn [Z.shiftl].
  apply (Pos.iter_swap_gen _ _ Zpos xO (Z.mul 2)). reflexivity.
Qed.

Lemma shl_align_value mx ex ex' :
  snd (shl_align mx ex ex') = Z.min ex ex' /\
  Zpos (fst (shl_align mx ex ex')) = Zpos mx * 2 ^ (ex - Z.min ex ex').
Proof.
  unfold shl_align. destruct (ex' - ex) as [|d|d] eqn:E; cbn [fst snd].
  - rewrite Z.min_l by lia. rewrite Z.sub_diag. simpl. lia.
  - rewrite Z.min_l by lia. rewrite Z.sub_diag. simpl. lia.
  - rewrite Z.min_r by lia. split; [reflexivity|].
    rewrite Pos_iter_xO. do 2 f_equal. lia.
Qed.

Lemma digits_shift m k : 0 < m -> 0 <= k -> Zdigits2 (m * 2 ^ k) = Zdigits2 m + k.
Proof.
  intros Hm Hk. destruct (Zdigits2_bounds m Hm) as [Hl Hu].
  pose proof (Zdigits2_pos m Hm) as Hd. pose proof (pow2_pos k Hk) as Hp.
  apply Zdigits2_unique; [lia|].
  replace (Zdigits2 m + k - 1) with (Zdigits2 m - 1 + k) by lia.
  rewrite !pow2_split by lia. nia.
Qed.

(** [binary_round] through [rank]: as [round_aux_value], for any exponent. *)
Lemma binary_round_value s mx ex :
  -2148 <= ex ->
  let e1 := fexp prec emax (Zpos (digits2_pos mx) + ex) in
  let V := Zpos mx * 2 ^ (ex + 2148) in
  let g := 2 ^ (e1 + 2148) in
  exists m2,
    V / g <= m2 <= V / g + 1 /\
    rank (binary_round prec emax s mx ex) = cond_Zopp s (Z.min (m2 * g) (2 ^ 3172)) /\
    binary_round prec emax s mx ex <> S754_nan /\
    (-1074 < e1 -> 2 ^ 52 <= V / g).
Proof.
  intros HK e1 V g. unfold binary_round. fold e1.
  destruct (shl_align_value mx ex e1) as [Hez Hmz].
  destruct (shl_align mx ex e1) as [mz ez]. cbn [fst snd] in Hez, Hmz.
  assert (-1074 <= e1) as He1 by (unfold e1; rewrite fexp_eq; lia).
  assert (Zdigits2 (Zpos mz) + ez = Zpos (digits2_pos mx) + ex) as Hdig.
  { rewrite Hmz. rewrite (digits_shift (Zpos mx)) by lia. cbn [Zdigits2]. lia. }
  assert (fexp prec emax (Zdigits2 (Zpos mz) + ez) = e1) as Hf by (rewrite Hdig; reflexivity).
  destruct (round_aux_value s (Zpos mz) ez ltac:(lia) ltac:(lia) ltac:(lia))
    as (m2 & Hb & Hr & Hn & Hnormal).
  rewrite Hf in Hb, Hr, Hnormal. fold g in Hb, Hr, Hnormal.
  assert (Zpos mz * 2 ^ (ez + 2148) = V) as HV.
  { unfold V. rewrite Hmz, <- Z.mul_assoc, <- pow2_split by lia. do 2 f_equal. lia. }
  rewrite HV in Hb, Hnormal.
  exists m2. repeat split; try assumption; lia.
Qed.

(** The conversion of a positive integer below [2^63] is a positive number
    (finite or infinite), never zero and never NaN. *)
Lemma of_uint63_positive (n : Z) :
  0 < n < 2 ^ 63 ->
  is_nan (of_uint63 (Uint63.of_Z n)) = false /\ 0 < frank (of_uint63 (Uint63.of_Z n)).
Proof.
  intros Hn.
  assert (Uint63.to_Z (Uint63.of_Z n) = n) as Hto.
  { rewrite Uint63.of_Z_spec. apply Z.mod_small. change Uint63.wB with (2 ^ 63). lia. }
  pose proof (of_uint63_spec (Uint63.of_Z n)) as Hspec.
  change Uint63Axioms.to_Z with Uint63.to_Z in Hspec. rewrite Hto in Hspec.
  destruct n as [|p|p]; try lia. cbn [binary_normalize] in Hspec.
  destruct (binary_round_value false p 0 ltac:(lia)) as (m2 & Hb & Hr & Hnn & Hnormal).
  rewrite <- Hspec in Hr, Hnn.
  split; [now apply not_nan_Prim2SF|].
  unfold frank. rewrite Hr. cbn [cond_Zopp].
  set (e1 := fexp prec emax (Zpos (digits2_pos p) + 0)) in *.
  assert (-1074 <= e1) as He1 by (unfold e1; rewrite fexp_eq; lia).
  assert (Zpos 4503599627370496 * 2 ^ (-52 + 2148) <= Z.min (m2 * 2 ^ (e1 + 2148)) (2 ^ 3172)) as H.
  { pose proof (pow2_pos (0 + 2148) ltac:(lia)) as Hp.
    apply (bracket_lower (Zpos p * 2 ^ (0 + 2148)) _ e1 m2);
      try reflexivity; try assumption; try lia. }
  assert (0 < Zpos 4503599627370496 * 2 ^ (-52 + 2148)) by (vm_compute; reflexivity).
  lia.
Qed.
Ltac sf_simpl :=
  cbn [rank cond_Zopp SF64add SFadd SF64sub SFsub SF64mul SFmul xorb negb] in *.
Ltac sf_close :=
  sf_simpl; first [ congruence | lia | match goal with H : ?a <> ?a |- _ => now exfalso; apply H end ].

Lemma eqb_rank x y :
  is_nan x = false -> is_nan y = false -> (x =? y)%float = (frank x =? frank y).
Proof.
  intros Hx Hy. rewrite eqb_spec. unfold SFeqb. rewrite compare_rank by assumption.
  rewrite Z.eqb_compare. destruct (frank x ?= frank y); reflexivity.
Qed.

Lemma Math_min_rank l v :
  is_nan l = false -> is_nan v = false ->
  is_nan (JS.Math_min l v) = false /\ frank (JS.Math_min l v) = Z.min (frank l) (frank v).
Proof.
  intros Hl Hv. unfold JS.Math_min. rewrite Hl, Hv. cbn [orb].
  rewrite (ltb_rank l v), (ltb_rank v l) by assumption.
  destruct (Z.ltb_spec (frank l) (frank v)); [split; [assumption | lia]|].
  destruct (Z.ltb_spec (frank v) (frank l)); [split; [assumption | lia]|].
  destruct (get_sign l); split; try assumption; lia.
Qed.

Lemma aligned_rank s m e ez :
  ez <= e -> -2148 <= ez ->
  cond_Zopp s (Zpos (fst (shl_align m e ez))) * 2 ^ (ez + 2148) = rank (S754_finite s m e).
Proof.
  intros Hle HK. destruct (shl_align_value m e ez) as [_ H].
  rewrite H. rewrite Z.min_r by lia. cbn [rank].
  assert (Zpos m * 2 ^ (e - ez) * 2 ^ (ez + 2148) = Zpos m * 2 ^ (e + 2148)) as Heq.
  { rewrite <- Z.mul_assoc, <- pow2_split by lia. do 2 f_equal. lia. }
  destruct s; cbn [cond_Zopp]; lia.
Qed.

(** [binary_normalize] of an integer [D] at exponent [ez], through [rank]. *)
Lemma binary_normalize_value D ez :
  -2148 <= ez ->
  let r := binary_normalize prec emax D ez false in
  r <> S754_nan /\
  (D = 0 -> rank r = 0) /\
  (0 < D -> 0 <= rank r /\
     forall ma ea, valid_binary (S754_finite false ma ea) = true ->
       Zpos ma * 2 ^ (ea + 2148) <= D * 2 ^ (ez + 2148) ->
       Zpos ma * 2 ^ (ea + 2148) <= rank r) /\
  (D < 0 -> rank r <= 0 /\
     forall b, valid_binary b = true -> b <> S754_nan ->
       - D * 2 ^ (ez + 2148) < rank b -> - rank b <= rank r).
Proof.
  intros HK r. subst r.
  pose proof (pow2_pos (ez + 2148) ltac:(lia)) as Hp.
  pose proof (pow2_pos 3172 ltac:(lia)) as Hinf.
  destruct D as [|p|p]; cbn [binary_normalize].
  - repeat split; try discriminate; try lia.
  - destruct (binary_round_value false p ez HK) as (m2 & Hb & Hr & Hn & Hnormal).
    set (e1 := fexp prec emax (Zpos (digits2_pos p) + ez)) in *.
    assert (-1074 <= e1) as He1 by (unfold e1; rewrite fexp_eq; lia).
    pose proof (pow2_pos (e1 + 2148) ltac:(lia)) as Hg.
    assert (0 <= Zpos p * 2 ^ (ez + 2148) / 2 ^ (e1 + 2148)) by (apply Z.div_pos; lia).
    split; [assumption|]. split; [lia|]. split; [|lia].
    intros _. rewrite Hr. cbn [cond_Zopp]. split; [apply Z.min_glb; nia|].
    intros ma ea Va Hle.
    apply (bracket_lower (Zpos p * 2 ^ (ez + 2148)) _ e1 m2); try reflexivity; try assumption; lia.
  - destruct (binary_round_value true p ez HK) as (m2 & Hb & Hr & Hn & Hnormal).
    set (e1 := fexp prec emax (Zpos (digits2_pos p) + ez)) in *.
    assert (-1074 <= e1) as He1 by (unfold e1; rewrite fexp_eq; lia).
    pose proof (pow2_pos (e1 + 2148) ltac:(lia)) as Hg.
    assert (0 <= Zpos p * 2 ^ (ez + 2148) / 2 ^ (e1 + 2148)) by (apply Z.div_pos; lia).
    split; [assumption|]. split; [lia|]. split; [lia|].
    intros _. rewrite Hr. cbn [cond_Zopp].
    assert (0 <= Z.min (m2 * 2 ^ (e1 + 2148)) (2 ^ 3172)) by (apply Z.min_glb; nia).
    split; [lia|].
    intros b Vb Nb Hlt.
    assert (Z.min (m2 * 2 ^ (e1 + 2148)) (2 ^ 3172) <= rank b); [|lia].
    apply (bracket_upper (Zpos p * 2 ^ (ez + 2148)) _ e1 m2); try reflexivity; try assumption; try lia.
Qed.

Lemma add_not_nan x t :
  is_nan (x + t)%float = false -> is_nan x = false /\ is_nan t = false.
Proof.
  intro H. apply not_nan_Prim2SF in H. rewrite add_spec in H.
  split; apply not_nan_Prim2SF; intro E; apply H; rewrite E;
    [reflexivity | destruct (Prim2SF x); reflexivity].
Qed.

Lemma mul_not_nan x y :
  is_nan (x * y)%float = false -> is_nan x = false /\ is_nan y = false.
Proof.
  intro H. apply not_nan_Prim2SF in H. rewrite mul_spec in H.
  split; apply not_nan_Prim2SF; intro E; apply H; rewrite E;
    [reflexivity | destruct (Prim2SF x); reflexivity].
Qed.

Lemma sub_not_nan x y :
  is_nan (x - y)%float = false -> is_nan x = false /\ is_nan y = false.
Proof.
  intro H. apply not_nan_Prim2SF in H. rewrite sub_spec in H.
  split; apply not_nan_Prim2SF; intro E; apply H; rewrite E;
    [reflexivity | destruct (Prim2SF x); reflexivity].
Qed.

(** Adding a non-negative number never gives less. *)
Lemma add_nonneg_ge x t :
  is_nan (x + t)%float = false -> 0 <= frank t ->
  frank x <= frank (x + t)%float.
Proof.
  intros Hs Ht. destruct (add_not_nan x t Hs) as [Hx Hnt].
  pose proof (pow2_pos 3172 ltac:(lia)) as Hinf.
  pose proof (Prim2SF_valid x) as Vx. pose proof (Prim2SF_valid t) as Vt.
  apply not_nan_Prim2SF in Hs. rewrite add_spec in Hs.
  unfold frank. rewrite add_spec.
  destruct (nonneg_rank_cases t Hnt Ht) as [[st Et]|[Et|(mt & et & Et)]];
    rewrite Et in *; apply not_nan_Prim2SF in Hx;
    destruct (Prim2SF x) as [sx|sx| |sx mx ex] eqn:Ex; try congruence.
  - destruct sx, st; sf_close.
  - sf_close.
  - sf_close.
  - destruct sx; sf_close.
  - destruct sx; sf_close.
  - pose proof (finite_rank_bounds _ _ _ Vx). destruct sx; sf_close.
  - pose proof (finite_rank_bounds _ _ _ Vt). sf_close.
  - sf_close.
  - (* finite + finite *)
    destruct (valid_finite _ _ _ Vx) as (Hex & _).
    destruct (valid_finite _ _ _ Vt) as (Het & _).
    cbn [SF64add SFadd] in *.
    set (ez := Z.min ex et) in *.
    set (D := cond_Zopp sx (Zpos (fst (shl_align mx ex ez)))
              + cond_Zopp false (Zpos (fst (shl_align mt et ez)))) in *.
    pose proof (aligned_rank sx mx ex ez ltac:(lia) ltac:(lia)) as Ax.
    pose proof (aligned_rank false mt et ez ltac:(lia) ltac:(lia)) as At.
    assert (D * 2 ^ (ez + 2148) = rank (S754_finite sx mx ex) + rank (S754_finite false mt et)) as HD
      by (unfold D; lia).
    pose proof (finite_rank_bounds _ _ _ Vx) as Bx.
    pose proof (finite_rank_bounds _ _ _ Vt) as Bt.
    pose proof (pow2_pos (ez + 2148) ltac:(lia)) as Hp.
    destruct (binary_normalize_value D ez ltac:(lia)) as (_ & H0 & Hpos & Hneg).
    cbn [rank cond_Zopp] in HD |- *.
    destruct sx; cbn [cond_Zopp] in *.
    + destruct (Z.lt_trichotomy D 0) as [Hlt|[Hz|Hgt]].
      * destruct (Hneg Hlt) as [_ Hb].
        specialize (Hb (S754_finite false mx ex) Vx ltac:(discriminate)).
        cbn [rank cond_Zopp] in Hb. apply Hb. rewrite Z.mul_opp_l. lia.
      * rewrite (H0 Hz). lia.
      * destruct (Hpos Hgt) as [Hge _]. lia.
    + assert (0 < D) as Hgt by (apply (Z.mul_pos_cancel_r _ _ Hp); lia).
      destruct (Hpos Hgt) as [_ Hb]. apply Hb; [assumption | lia].
Qed.

(** Adding a zero changes nothing but possibly the sign of a zero. *)
Lemma add_zero_rank x t :
  is_nan (x + t)%float = false -> frank t = 0 ->
  frank (x + t)%float = frank x.
Proof.
  intros Hs Ht. destruct (add_not_nan x t Hs) as [Hx Hnt].
  pose proof (Prim2SF_valid t) as Vt.
  unfold frank. rewrite add_spec.
  destruct (nonneg_rank_cases t Hnt ltac:(lia)) as [[st Et]|[Et|(mt & et & Et)]].
  - rewrite Et. apply not_nan_Prim2SF in Hx.
    destruct (Prim2SF x) as [sx|sx| |sx mx ex]; try congruence; try reflexivity.
    destruct sx, st; reflexivity.
  - exfalso. unfold frank in Ht. rewrite Et in Ht.
    pose proof (pow2_pos 3172 ltac:(lia)). sf_close.
  - exfalso. unfold frank in Ht. rewrite Et in Ht, Vt.
    pose proof (finite_rank_bounds _ _ _ Vt). sf_close.
Qed.

(** The difference of a number and a smaller one is not negative. *)
Lemma sub_nonneg x y :
  is_nan (x - y)%float = false -> frank y <= frank x -> 0 <= frank (x - y)%float.
Proof.
  intros Hs Hle. destruct (sub_not_nan x y Hs) as [Hx Hy].
  pose proof (pow2_pos 3172 ltac:(lia)) as Hinf.
  pose proof (Prim2SF_valid x) as Vx. pose proof (Prim2SF_valid y) as Vy.
  apply not_nan_Prim2SF in Hs, Hx, Hy. rewrite sub_spec in Hs.
  unfold frank in *. rewrite sub_spec.
  destruct (Prim2SF x) as [sx|sx| |sx mx ex] eqn:Ex; try congruence;
  destruct (Prim2SF y) as [sy|sy| |sy my ey] eqn:Ey; try congruence.
  - destruct sx, sy; sf_close.
  - destruct sy; sf_close.
  - pose proof (finite_rank_bounds _ _ _ Vy). destruct sy; sf_close.
  - destruct sx; sf_close.
  - destruct sx, sy; sf_close.
  - pose proof (finite_rank_bounds _ _ _ Vy). destruct sx, sy; sf_close.
  - sf_close.
  - pose proof (finite_rank_bounds _ _ _ Vx). destruct sx, sy; sf_close.
  - destruct (valid_finite _ _ _ Vx) as (Hex & _).
    destruct (valid_finite _ _ _ Vy) as (Hey & _).
    cbn [SF64sub SFsub] in *.
    set (ez := Z.min ex ey) in *.
    set (D := cond_Zopp sx (Zpos (fst (shl_align mx ex ez)))
              - cond_Zopp sy (Zpos (fst (shl_align my ey ez)))) in *.
    pose proof (aligned_rank sx mx ex ez ltac:(lia) ltac:(lia)) as Ax.
    pose proof (aligned_rank sy my ey ez ltac:(lia) ltac:(lia)) as Ay.
    assert (D * 2 ^ (ez + 2148) = rank (S754_finite sx mx ex) - rank (S754_finite sy my ey)) as HD
      by (unfold D; lia).
    pose proof (pow2_pos (ez + 2148) ltac:(lia)) as Hp.
    destruct (binary_normalize_value D ez ltac:(lia)) as (_ & H0 & Hpos & _).
    destruct (Z.eq_dec D 0) as [Hz|Hnz]; [rewrite (H0 Hz); lia|].
    assert (0 <= D) as Hge0 by (apply (Z.mul_nonneg_cancel_r _ _ Hp); lia).
    assert (0 < D) as Hgt by lia.
    destruct (Hpos Hgt) as [Hge _]. exact Hge.
Qed.

(** A product of non-negative numbers is not negative. *)
Lemma mul_nonneg x y :
  is_nan (x * y)%float = false -> 0 <= frank x -> 0 <= frank y ->
  0 <= frank (x * y)%float.
Proof.
  intros Hp Hx Hy. destruct (mul_not_nan x y Hp) as [Nx Ny].
  pose proof (pow2_pos 3172 ltac:(lia)) as Hinf.
  apply not_nan_Prim2SF in Hp.
  destruct (nonneg_rank_cases x Nx Hx) as [[sx Ex]|[Ex|(mx & ex & Ex)]];
  destruct (nonneg_rank_cases y Ny Hy) as [[sy Ey]|[Ey|(my & ey & Ey)]].
  9: { destruct (mul_finite_value x y mx ex my ey Ex Ey) as (m2 & Hb & Hval & _ & _ & He1 & HV).
       rewrite Hval.
       set (g := 2 ^ (fexp prec emax (Zdigits2 (Zpos (mx * my)) + (ex + ey)) + 2148)) in *.
       assert (0 < g) by (apply pow2_pos; lia).
       assert (0 <= Zpos (mx * my) * 2 ^ (ex + ey + 2148) / g) by (apply Z.div_pos; lia).
       apply Z.min_glb; nia. }
  all: rewrite mul_spec, Ex, Ey in Hp; unfold frank; rewrite mul_spec, Ex, Ey;
    sf_close.
Qed.

(** A product with a zero factor is a zero. *)
Lemma mul_zero_rank x y :
  is_nan (x * y)%float = false -> frank x = 0 \/ frank y = 0 ->
  frank (x * y)%float = 0.
Proof.
  intros Hp Hz. destruct (mul_not_nan x y Hp) as [Nx Ny].
  pose proof (pow2_pos 3172 ltac:(lia)) as Hinf.
  pose proof (Prim2SF_valid x) as Vx. pose proof (Prim2SF_valid y) as Vy.
  apply not_nan_Prim2SF in Hp, Nx, Ny. rewrite mul_spec in Hp.
  unfold frank in *. rewrite mul_spec.
  destruct (Prim2SF x) as [sx|sx| |sx mx ex] eqn:Ex; try congruence;
  destruct (Prim2SF y) as [sy|sy| |sy my ey] eqn:Ey; try congruence;
    sf_simpl; try congruence; try lia;
    try (match goal with H : ?a <> ?a |- _ => now exfalso; apply H end).
  - destruct sx, sy, Hz as [Hz|Hz]; sf_close.
  - pose proof (finite_rank_bounds _ _ _ Vy).
    destruct sx, sy, Hz as [Hz|Hz]; sf_close.
  - pose proof (finite_rank_bounds _ _ _ Vx).
    destruct sx, sy, Hz as [Hz|Hz]; sf_close.
  - exfalso. pose proof (finite_rank_bounds _ _ _ Vx). pose proof (finite_rank_bounds _ _ _ Vy).
    destruct sx, sy, Hz as [Hz|Hz]; sf_close.
Qed.
Lemma frank_zero : frank 0%float = 0.
Proof. reflexivity. Qed.

Lemma Math_max_rank l v :
  is_nan l = false -> is_nan v = false ->
  is_nan (JS.Math_max l v) = false /\ frank (JS.Math_max l v) = Z.max (frank l) (frank v).
Proof.
  intros Hl Hv. unfold JS.Math_max. rewrite Hl, Hv. cbn [orb].
  rewrite (ltb_rank l v), (ltb_rank v l) by assumption.
  destruct (Z.ltb_spec (frank l) (frank v)); [split; [assumption | lia]|].
  destruct (Z.ltb_spec (frank v) (frank l)); [split; [assumption | lia]|].
  destruct (get_sign l); split; try assumption; lia.
Qed.

End Binary64Facts.
(** * [getVolume] *)

Module VolumeFacts.

Import Binary64 Binary64Facts NetworkedAudioAnalyser.

Lemma getVolume_loop_fold levels : forall sum,
  getVolume_loop levels sum =
  fold_left add (map (fun s => normalized s * normalized s) levels) sum.
Proof.
  induction levels as [|l rest IH]; intro sum; [reflexivity|].
  cbn [getVolume_loop map fold_left]. rewrite IH. reflexivity.
Qed.

Lemma getVolume_rms levels :
  getVolume levels = if rms levels <? MIN_VOLUME_THRESHOLD then 0 else rms levels.
Proof.
  unfold getVolume, rms, mean_of_squares. rewrite getVolume_loop_fold. reflexivity.
Qed.

Lemma getVolume_loop_silent levels :
  (forall b, In b levels -> b = x80) -> getVolume_loop levels 0 = 0.
Proof.
  induction levels as [|l rest IH]; intro H; [reflexivity|].
  cbn [getVolume_loop]. rewrite (H l (or_introl eq_refl)).
  change (0 + (JS.of_byte x80 - 128) / 128 * ((JS.of_byte x80 - 128) / 128)) with 0.
  apply IH. intros b Hb. apply H. now right.
Qed.

Lemma zero_div_positive x :
  is_nan x = false -> (0 < frank x)%Z -> 0 / x = 0.
Proof.
  intros Hn Hp. apply Prim2SF_inj. rewrite div_spec.
  destruct (nonneg_rank_cases x Hn ltac:(lia)) as [[s E]|[E|(m & e & E)]]; rewrite E.
  - exfalso. unfold frank in Hp. rewrite E in Hp. cbn [rank] in Hp. lia.
  - reflexivity.
  - reflexivity.
Qed.

Lemma getVolume_silent levels :
  levels <> [] -> (Z.of_nat (List.length levels) < 2 ^ 63)%Z ->
  (forall b, In b levels -> b = x80) ->
  getVolume levels = 0.
Proof.
  intros Hne Hlen Hall. unfold getVolume.
  rewrite getVolume_loop_silent by assumption.
  assert (0 < Z.of_nat (List.length levels))%Z as Hpos
    by (destruct levels; [congruence | cbn [List.length]; lia]).
  destruct (of_uint63_positive (Z.of_nat (List.length levels)) ltac:(lia)) as [Hn Hp].
  unfold JS.of_length. rewrite zero_div_positive by assumption.
  reflexivity.
Qed.

(** C4, as the code has it: for every buffer, [getVolume] is the root mean
    square of the normalised samples when that is at least
    [MIN_VOLUME_THRESHOLD] and exactly 0 when it is below; and every
    non-empty buffer (of a length a typed array can have) whose samples all
    equal 128 yields exactly 0. *)
Theorem getVolume_is_clamped_rms (levels : list byte) :
  getVolume levels
    = (if rms levels <? MIN_VOLUME_THRESHOLD then 0 else rms levels) /\
  ((MIN_VOLUME_THRESHOLD <=? rms levels) = true -> getVolume levels = rms levels) /\
  ((rms levels <? MIN_VOLUME_THRESHOLD) = true -> getVolume levels = 0) /\
  (levels <> [] -> (Z.of_nat (List.length levels) < 2 ^ 63)%Z ->
   (forall b, In b levels -> b = x80) -> getVolume levels = 0).
Proof.
  split; [apply getVolume_rms|]. split; [|split].
  - intro H. rewrite getVolume_rms.
    destruct (leb_true_not_nan _ _ H) as [Hm Hr].
    rewrite leb_rank in H by assumption. apply Z.leb_le in H.
    rewrite ltb_rank by assumption.
    destruct (Z.ltb_spec (frank (rms levels)) (frank MIN_VOLUME_THRESHOLD)); [lia | reflexivity].
  - intro H. rewrite getVolume_rms, H. reflexivity.
  - apply getVolume_silent.
Qed.

Lemma getVolume_is_clamped_rms_witness :
  getVolume loud = rms loud /\
  getVolume [x81] = 0 /\
  getVolume silent = 0.
Proof.
  split; [|split].
  - apply (proj1 (proj2 (getVolume_is_clamped_rms loud))). reflexivity.
  - apply (proj1 (proj2 (proj2 (getVolume_is_clamped_rms [x81])))). reflexivity.
  - apply (proj2 (proj2 (proj2 (getVolume_is_clamped_rms silent)))).
    + discriminate.
    + reflexivity.
    + intros b Hb. unfold silent in Hb. apply repeat_spec in Hb. exact Hb.
Defined.

(** C4 fails at the buffer of length 0: all of its samples equal 128, and
    the result is [NaN], not 0. *)
Lemma all_128_of_length_zero_is_nan :
  (forall b, In b (@nil byte) -> b = x80) /\
  getVolume [] <> 0 /\ (getVolume [] =? 0) = false.
Proof.
  split; [intros b []|]. split; [|reflexivity].
  intro H. apply (f_equal is_nan) in H. vm_compute in H. discriminate.
Qed.

(** C5 fails: on the empty buffer [getVolume] returns [NaN], a value that
    is not a number, and not 0. *)
Lemma getVolume_empty_not_zero :
  is_nan (getVolume []) = true /\ getVolume [] <> 0.
Proof.
  split; [reflexivity|].
  intro H. apply (f_equal is_nan) in H. vm_compute in H. discriminate.
Qed.

Lemma loop_in_range (levels : list byte) : forall (before : list byte) (sum : float),
  Completion.loop (before ++ levels) (List.length before) (List.length levels) sum
  = getVolume_loop levels sum.
Proof.
  induction levels as [|l rest IH]; intros before sum; [reflexivity|].
  cbn [List.length Completion.loop getVolume_loop]. unfold Completion.element.
  rewrite nth_error_app2 by apply Nat.le_refl. rewrite Nat.sub_diag. cbn [nth_error].
  specialize (IH (before ++ [l]) (sum + (JS.of_byte l - 128) / 128 * ((JS.of_byte l - 128) / 128))).
  rewrite <- app_assoc, length_app in IH. cbn [app List.length] in IH.
  rewrite Nat.add_1_r in IH. exact IH.
Qed.

Lemma getVolume_completes (levels : list byte) :
  Completion.getVolume (Some levels) = Completion.Normal (getVolume levels).
Proof.
  unfold Completion.getVolume, getVolume. cbn [Completion.defined Completion.bind].
  pose proof (loop_in_range levels [] 0) as H. cbn [app List.length] in H.
  rewrite H. reflexivity.
Qed.

Lemma update_completes (s : state) (levels : list byte) (t : option float) :
  Completion._updateAnalysis s (Some levels) t
  = Completion.Normal (_updateAnalysis s levels t).
Proof.
  unfold Completion._updateAnalysis, _updateAnalysis.
  destruct (analyser s); cbn [negb]; [|reflexivity].
  cbn [Completion.defined Completion.bind]. rewrite getVolume_completes.
  cbn [Completion.bind].
  destruct (_ <? DISABLE_AT_VOLUME_THRESHOLD); [|reflexivity].
  destruct t as [tv|]; [|reflexivity].
  destruct (lastSeenVolume s) as [seen|]; [|reflexivity].
  destruct (JS.truthy tv && JS.truthy seen && (seen <? tv - DISABLE_GRACE_PERIOD_MS));
    reflexivity.
Qed.

(** C5, as the code has it: on the empty buffer [getVolume] returns [NaN],
    not 0; the update stores [NaN] as immediate and smoothed volume, and
    since [NaN] is not below the threshold the avatar is marked as not
    quiet. And nothing is thrown, on the empty buffer or on any other:
    for every buffer, [getVolume], [_updateAnalysis], [tick] and
    [_runScheduledWork] complete normally, with the results of the
    definitions above; the loop reads no element out of range, and an
    update before the analyser exists returns at once, whatever the buffer
    is. *)
Theorem empty_buffer_yields_nan (s : state) (t : option float)
    (levels : list byte) (tv : float) (buffer : option (list byte)) :
  is_nan (getVolume []) = true /\
  (let s' := _updateAnalysis (sound_source_set s) [] t in
   is_nan (immediateVolume s') = true /\
   is_nan (volume s') = true /\
   avatarIsQuiet s' = Some false) /\
  Completion.getVolume (Some levels) = Completion.Normal (getVolume levels) /\
  Completion._updateAnalysis s (Some levels) t = Completion.Normal (_updateAnalysis s levels t) /\
  Completion.tick s (Some levels) tv = Completion.Normal (tick s levels tv) /\
  Completion._runScheduledWork s (Some levels)
  = Completion.Normal (_runScheduledWork s levels) /\
  Completion._updateAnalysis (mkState (volume s) (prevVolume s) (immediateVolume s)
                                (smoothing s) false (avatarIsQuiet s) (lastSeenVolume s))
                             buffer t
  = Completion.Normal (mkState (volume s) (prevVolume s) (immediateVolume s)
                         (smoothing s) false (avatarIsQuiet s) (lastSeenVolume s)).
Proof.
  split; [reflexivity|]. split.
  { unfold _updateAnalysis, sound_source_set. cbn [analyser negb smoothing prevVolume].
    change (getVolume []) with nan.
    rewrite mul_nan_r, add_nan_l. rewrite ltb_nan_l by reflexivity.
    repeat split. }
  split; [apply getVolume_completes|].
  split; [apply update_completes|].
  split.
  { unfold Completion.tick, tick. destruct (negb _); [apply update_completes | reflexivity]. }
  split.
  { unfold Completion._runScheduledWork, _runScheduledWork.
    destruct (JS.truthy_flag _); [apply update_completes | reflexivity]. }
  reflexivity.
Qed.

End VolumeFacts.

(** * [getAudioFeedbackScale] *)

Module ScaleFacts.

Import Binary64 Binary64Facts.

Lemma feedbackScale_bounds (minScale maxScale volume distance : float) :
  (minScale <=? maxScale) = true ->
  (0 <=? volume) = true ->
  (0 <=? distance) = true ->
  is_nan (minScale + (maxScale - minScale) * volume * 8 * distance) = false ->
  (minScale <=? feedbackScale minScale maxScale volume distance) = true /\
  (feedbackScale minScale maxScale volume distance <=? maxScale) = true /\
  ((volume =? 0) = true ->
   (feedbackScale minScale maxScale volume distance =? minScale) = true).
Proof.
  intros Hmm Hv Hd Hg.
  destruct (leb_true_not_nan _ _ Hmm) as [Nmin Nmax].
  destruct (leb_true_not_nan _ _ Hv) as [_ Nv].
  destruct (leb_true_not_nan _ _ Hd) as [_ Nd].
  rewrite leb_rank in Hmm, Hv, Hd by (assumption || reflexivity).
  apply Z.leb_le in Hmm, Hv, Hd. change (frank 0) with 0%Z in Hv, Hd.
  destruct (add_not_nan _ _ Hg) as [_ Nt].
  destruct (mul_not_nan _ _ Nt) as [N8 _].
  destruct (mul_not_nan _ _ N8) as [Ndv _].
  destruct (mul_not_nan _ _ Ndv) as [Ndelta _].
  pose proof (sub_nonneg _ _ Ndelta Hmm) as Rdelta.
  pose proof (mul_nonneg _ _ Ndv Rdelta Hv) as Rdv.
  assert (0 <= frank 8)%Z as R8 by (apply Z.leb_le; vm_compute; reflexivity).
  pose proof (mul_nonneg _ _ N8 Rdv R8) as R8v.
  pose proof (mul_nonneg _ _ Nt R8v Hd) as Rt.
  pose proof (add_nonneg_ge _ _ Hg Rt) as Hge.
  unfold feedbackScale.
  destruct (Math_min_rank maxScale _ Nmax Hg) as [Ns Rs].
  rewrite !leb_rank by assumption. rewrite Rs.
  split; [apply Z.leb_le; lia|]. split; [apply Z.leb_le; lia|].
  intro Hz. rewrite eqb_rank in Hz by (assumption || reflexivity).
  apply Z.eqb_eq in Hz. change (frank 0) with 0%Z in Hz.
  rewrite eqb_rank by assumption. rewrite Rs. apply Z.eqb_eq.
  pose proof (mul_zero_rank _ _ Ndv (or_intror Hz)) as Z1.
  pose proof (mul_zero_rank _ _ N8 (or_introl Z1)) as Z2.
  pose proof (mul_zero_rank _ _ Nt (or_introl Z2)) as Z3.
  rewrite (add_zero_rank _ _ Hg Z3). lia.
Qed.

(** C7, as the code has it: the result is
    [min(maxScale, minScale + (maxScale - minScale) * volume * 8 * distance)]
    with [distance] the world distance over 10; provided
    [minScale <= maxScale], volume and distance are not negative and the
    grown scale is a number (no [NaN] from an overflowing product), the
    result lies between [minScale] and [maxScale], and it equals [minScale]
    when the volume is 0. *)
Theorem scale_within_bounds (fromObject toObject : Object3D)
    (minScale maxScale volume : float) :
  let distance :=
    distanceTo (setFromMatrixPosition (matrixWorld fromObject))
               (setFromMatrixPosition (matrixWorld toObject)) / 10 in
  let grown := minScale + (maxScale - minScale) * volume * 8 * distance in
  let scale := getAudioFeedbackScale fromObject toObject minScale maxScale volume in
  (minScale <=? maxScale) = true ->
  (0 <=? volume) = true ->
  (0 <=? distance) = true ->
  is_nan grown = false ->
  scale = JS.Math_min maxScale grown /\
  (minScale <=? scale) = true /\
  (scale <=? maxScale) = true /\
  ((volume =? 0) = true -> (scale =? minScale) = true).
Proof.
  intros distance grown scale Hmm Hv Hd Hg.
  split; [reflexivity|].
  exact (feedbackScale_bounds minScale maxScale volume distance Hmm Hv Hd Hg).
Qed.

Lemma scale_within_bounds_witness :
  let near := at_position 0 0 0 in
  let far := at_position 30 40 0 in
  (1 <=? getAudioFeedbackScale near far 1 2 0.01) = true /\
  (getAudioFeedbackScale near far 1 2 0.01 <=? 2) = true /\
  (getAudioFeedbackScale near far 1 2 0 =? 1) = true.
Proof.
  intros near far.
  pose proof (scale_within_bounds near far 1 2 0.01 eq_refl eq_refl eq_refl eq_refl) as H.
  pose proof (scale_within_bounds near far 1 2 0 eq_refl eq_refl eq_refl eq_refl) as H0.
  split; [exact (proj1 (proj2 H))|]. split; [exact (proj1 (proj2 (proj2 H)))|].
  exact (proj2 (proj2 (proj2 H0)) eq_refl).
Defined.

(** C7 fails when [minScale] exceeds [maxScale] (at volume 0 the result is
    [maxScale], below [minScale]) and when the product overflows before it
    meets a zero distance (the result is [NaN]). *)
Lemma scale_outside_bounds :
  getAudioFeedbackScale (at_position 0 0 0) (at_position 50 0 0) 2 1 0 = 1 /\
  (2 <=? getAudioFeedbackScale (at_position 0 0 0) (at_position 50 0 0) 2 1 0) = false /\
  is_nan (getAudioFeedbackScale (at_position 0 0 0) (at_position 0 0 0) 0 0x1p1023 1) = true.
Proof. vm_compute. repeat split. Qed.

End ScaleFacts.
(** * The quiet state machine of [networked-audio-analyser] *)

Module QuietFacts.

Import NetworkedAudioAnalyser.

(** One update keeps the flag, clears it, or sets it under the grace test. *)
Lemma update_flag_cases s levels t :
  avatarIsQuiet (_updateAnalysis s levels t) = avatarIsQuiet s \/
  avatarIsQuiet (_updateAnalysis s levels t) = Some false \/
  (avatarIsQuiet (_updateAnalysis s levels t) = Some true /\
   exists tv seen, t = Some tv /\ lastSeenVolume s = Some seen /\
     JS.truthy tv = true /\ JS.truthy seen = true /\
     (seen <? tv - DISABLE_GRACE_PERIOD_MS) = true /\
     (volume (_updateAnalysis s levels t) <? DISABLE_AT_VOLUME_THRESHOLD) = true).
Proof.
  unfold _updateAnalysis.
  destruct (analyser s); simpl; [|now left].
  set (v := smoothing s * getVolume levels + (1 - smoothing s) * prevVolume s).
  destruct (v <? DISABLE_AT_VOLUME_THRESHOLD) eqn:Hv; [|right; left; reflexivity].
  destruct t as [tv|]; [|now left].
  destruct (lastSeenVolume s) as [seen|] eqn:Hs; [|now left].
  destruct (JS.truthy tv) eqn:Ht; simpl; [|now left].
  destruct (JS.truthy seen) eqn:Hse; simpl; [|now left].
  destruct (seen <? tv - DISABLE_GRACE_PERIOD_MS) eqn:Hg; simpl; [|now left].
  right; right. split; [reflexivity|]. exists tv, seen. auto 10.
Qed.

Lemma update_untimed_flag s levels :
  avatarIsQuiet (_updateAnalysis s levels None) = avatarIsQuiet s \/
  avatarIsQuiet (_updateAnalysis s levels None) = Some false.
Proof.
  destruct (update_flag_cases s levels None) as [H|[H|(_ & tv & seen & H & _)]];
    [now left | now right | discriminate].
Qed.

Lemma step_untimed_not_quiet s c :
  untimed c = true ->
  JS.truthy_flag (avatarIsQuiet s) = false ->
  JS.truthy_flag (avatarIsQuiet (step s c)) = false.
Proof.
  intros Hu Hq. destruct c as [t l|l|[t|] l]; simpl in *; try discriminate.
  - unfold _runScheduledWork. rewrite Hq. exact Hq.
  - destruct (update_untimed_flag s l) as [H|H]; rewrite H; [assumption | reflexivity].
Qed.

Lemma run_untimed_not_quiet calls : forall s,
  forallb untimed calls = true ->
  JS.truthy_flag (avatarIsQuiet s) = false ->
  JS.truthy_flag (avatarIsQuiet (run s calls)) = false.
Proof.
  induction calls as [|c calls IH]; intros s Hu Hq; simpl in *; [assumption|].
  apply andb_true_iff in Hu as [Hc Hu].
  apply IH; [assumption|]. now apply step_untimed_not_quiet.
Qed.

Lemma update_untimed_clears s levels :
  analyser s = true ->
  (smoothing s * getVolume levels + (1 - smoothing s) * prevVolume s
     <? DISABLE_AT_VOLUME_THRESHOLD) = false ->
  avatarIsQuiet (_updateAnalysis s levels None) = Some false.
Proof.
  intros Ha Hv. unfold _updateAnalysis. rewrite Ha. simpl. rewrite Hv. reflexivity.
Qed.

(** C2: whatever the sequence of calls, calls without a timestamp
    ([_runScheduledWork], or [_updateAnalysis] with no argument) never turn
    [avatarIsQuiet] from false to true; one update turns it on only when it
    carries a truthy timestamp [tv], a truthy timestamp [seen] is recorded,
    the volume is below the threshold and [seen < tv - 10000]; and an
    update without timestamp whose volume is not below the threshold sets
    the flag to false. *)
Theorem quiet_only_on_timestamped_update (s : state) (calls : list call)
    (levels : list byte) (t : option float) :
  (forallb untimed calls = true ->
   JS.truthy_flag (avatarIsQuiet s) = false ->
   JS.truthy_flag (avatarIsQuiet (run s calls)) = false) /\
  (JS.truthy_flag (avatarIsQuiet s) = false ->
   JS.truthy_flag (avatarIsQuiet (_updateAnalysis s levels t)) = true ->
   exists tv seen, t = Some tv /\ lastSeenVolume s = Some seen /\
     JS.truthy tv = true /\ JS.truthy seen = true /\
     (seen <? tv - DISABLE_GRACE_PERIOD_MS) = true /\
     (volume (_updateAnalysis s levels t) <? DISABLE_AT_VOLUME_THRESHOLD) = true) /\
  (analyser s = true ->
   (volume (_updateAnalysis s levels None) <? DISABLE_AT_VOLUME_THRESHOLD) = false ->
   avatarIsQuiet (_updateAnalysis s levels None) = Some false).
Proof.
  split; [|split].
  - apply run_untimed_not_quiet.
  - intros Hq Hq'.
    destruct (update_flag_cases s levels t) as [H|[H|(_ & H)]].
    + rewrite H, Hq in Hq'. discriminate.
    + rewrite H in Hq'. discriminate.
    + exact H.
  - intros Ha Hv. apply update_untimed_clears; [assumption|].
    unfold _updateAnalysis in Hv. rewrite Ha in Hv. simpl in Hv.
    destruct (smoothing s * getVolume levels + (1 - smoothing s) * prevVolume s
              <? DISABLE_AT_VOLUME_THRESHOLD) eqn:E; [|reflexivity].
    simpl in Hv. congruence.
Qed.

Lemma quiet_only_on_timestamped_update_witness :
  let s0 := sound_source_set initial in
  let s1 := run s0 (warm_up ++ [Tick 1 silent; Tick 5000 silent; Tick 10001 silent]) in
  JS.truthy_flag (avatarIsQuiet (run s0 (warm_up ++ [ScheduledWork silent]))) = false /\
  (exists tv seen, Some 10002 = Some tv /\ lastSeenVolume s1 = Some seen /\
     JS.truthy tv = true /\ JS.truthy seen = true /\
     (seen <? tv - DISABLE_GRACE_PERIOD_MS) = true /\
     (volume (_updateAnalysis s1 silent (Some 10002)) <? DISABLE_AT_VOLUME_THRESHOLD) = true) /\
  avatarIsQuiet (_updateAnalysis s0 loud None) = Some false.
Proof.
  intros s0 s1. split; [|split].
  - apply (proj1 (quiet_only_on_timestamped_update s0 (warm_up ++ [ScheduledWork silent])
                    silent None)); reflexivity.
  - apply (proj1 (proj2 (quiet_only_on_timestamped_update s1 [] silent (Some 10002))));
      reflexivity.
  - apply (proj2 (proj2 (quiet_only_on_timestamped_update s0 [] loud None)));
      reflexivity.
Defined.

Lemma update_zero_timestamp s levels :
  _updateAnalysis s levels (Some 0) = _updateAnalysis s levels None.
Proof.
  unfold _updateAnalysis.
  destruct (analyser s); simpl; [|reflexivity].
  destruct (_ <? DISABLE_AT_VOLUME_THRESHOLD); [|reflexivity].
  destruct (lastSeenVolume s); reflexivity.
Qed.

Lemma update_keeps_or_sets_lastSeen s levels t :
  lastSeenVolume (_updateAnalysis s levels t) = lastSeenVolume s \/
  (lastSeenVolume (_updateAnalysis s levels t) = t /\ JS.truthy_opt t = true).
Proof.
  unfold _updateAnalysis.
  destruct (analyser s); simpl; [|now left].
  destruct (_ <? DISABLE_AT_VOLUME_THRESHOLD).
  - destruct t as [tv|]; [|now left]. destruct (lastSeenVolume s); [|now left].
    destruct (_ && _); now left.
  - simpl. destruct (JS.truthy_opt t) eqn:E; [right; auto | now left].
Qed.

Lemma seen_zero_never_quiet v p i sm a q levels t :
  let s := mkState v p i sm a q (Some 0) in
  avatarIsQuiet (_updateAnalysis s levels t) = q \/
  avatarIsQuiet (_updateAnalysis s levels t) = Some false.
Proof.
  intro s.
  destruct (update_flag_cases s levels t) as [H|[H|(_ & tv & seen & _ & Hs & _ & Hse & _)]];
    [now left | now right |].
  simpl in Hs. injection Hs as <-. vm_compute in Hse. discriminate.
Qed.

(** C10: a call with timestamp 0 is the call with no timestamp (so is a
    [tick] at 0): it leaves [lastSeenVolume] as it was, even at a volume
    at or above the threshold, and leaves [avatarIsQuiet] as it was or
    sets it to false; and when the recorded timestamp is 0 no update, with
    whatever timestamp, turns [avatarIsQuiet] on. *)
Theorem zero_timestamp_is_untimed (s : state) (levels : list byte) (t : option float) :
  _updateAnalysis s levels (Some 0) = _updateAnalysis s levels None /\
  tick s levels 0 =
    (if JS.truthy_flag (avatarIsQuiet s) then s else _updateAnalysis s levels None) /\
  lastSeenVolume (_updateAnalysis s levels (Some 0)) = lastSeenVolume s /\
  (avatarIsQuiet (_updateAnalysis s levels (Some 0)) = avatarIsQuiet s \/
   avatarIsQuiet (_updateAnalysis s levels (Some 0)) = Some false) /\
  (let s0 := mkState (volume s) (prevVolume s) (immediateVolume s) (smoothing s)
                     (analyser s) (avatarIsQuiet s) (Some 0) in
   avatarIsQuiet (_updateAnalysis s0 levels t) = avatarIsQuiet s \/
   avatarIsQuiet (_updateAnalysis s0 levels t) = Some false).
Proof.
  repeat split.
  - apply update_zero_timestamp.
  - unfold tick. rewrite update_zero_timestamp.
    destruct (JS.truthy_flag (avatarIsQuiet s)); reflexivity.
  - rewrite update_zero_timestamp.
    destruct (update_keeps_or_sets_lastSeen s levels None) as [H|[_ H]];
      [assumption | discriminate].
  - rewrite update_zero_timestamp. apply update_untimed_flag.
  - apply seen_zero_never_quiet.
Qed.

(** C1, replayed on the code.  After the warm-up the smoothed volume is
    above the threshold at the next call and below it at every later one.
    First run: the loud call is the tick at [t = 0]; no timestamp is
    recorded and the avatar is not quiet at 9999, at 10000, nor at 20000.
    Second run: the loud call is the tick at [t = 1]; the avatar is not
    quiet at 10001, when 10000 ms have passed, and is quiet at 10002. *)
Theorem grace_period_boundary_traces :
  let s0 := run (sound_source_set initial) warm_up in
  let a0 := step s0 (Tick 0 silent) in
  let a1 := step a0 (Tick 5000 silent) in
  let a2 := step a1 (Tick 9999 silent) in
  let a3 := step a2 (Tick 10000 silent) in
  let a4 := step a3 (Tick 20000 silent) in
  let b0 := step s0 (Tick 1 silent) in
  let b1 := step b0 (Tick 5000 silent) in
  let b2 := step b1 (Tick 10000 silent) in
  let b3 := step b2 (Tick 10001 silent) in
  let b4 := step b3 (Tick 10002 silent) in
  ((volume a0 <? DISABLE_AT_VOLUME_THRESHOLD) = false /\
   (volume a1 <? DISABLE_AT_VOLUME_THRESHOLD) = true /\
   (volume a3 <? DISABLE_AT_VOLUME_THRESHOLD) = true /\
   lastSeenVolume a0 = None /\
   avatarIsQuiet a2 = Some false /\
   avatarIsQuiet a3 = Some false /\
   avatarIsQuiet a4 = Some false) /\
  ((volume b0 <? DISABLE_AT_VOLUME_THRESHOLD) = false /\
   (volume b1 <? DISABLE_AT_VOLUME_THRESHOLD) = true /\
   lastSeenVolume b0 = Some 1 /\
   avatarIsQuiet b2 = Some false /\
   avatarIsQuiet b3 = Some false /\
   avatarIsQuiet b4 = Some true).
Proof.
  vm_compute. repeat split.
Qed.

End QuietFacts.

(** * The subscriber list of [local-audio-analyser] *)

Module SubscriberFacts.
Import LocalAudioAnalyser.

Lemma indexOf_from_absent l x i : ~ In x l -> indexOf_from l x i = (-1)%Z.
Proof.
  revert i; induction l as [|y l IH]; intros i Hn; simpl; [reflexivity|].
  destruct (Nat.eqb_spec y x) as [->|Hne].
  - exfalso; apply Hn; now left.
  - apply IH. intro H; apply Hn; now right.
Qed.

Lemma indexOf_from_lower l x i : (0 <= i)%Z -> In x l -> (i <= indexOf_from l x i)%Z.
Proof.
  revert i; induction l as [|y l IH]; intros i Hi Hin; simpl in *; [contradiction|].
  destruct (Nat.eqb_spec y x) as [->|Hne]; [lia|].
  destruct Hin as [->|Hin]; [congruence|].
  specialize (IH (i + 1)%Z ltac:(lia) Hin). lia.
Qed.

Lemma indexOf_from_snoc_fresh l x i :
  ~ In x l -> indexOf_from (l ++ [x]) x i = (i + Z.of_nat (List.length l))%Z.
Proof.
  revert i; induction l as [|y l IH]; intros i Hn; simpl.
  - rewrite Nat.eqb_refl. lia.
  - destruct (Nat.eqb_spec y x) as [->|Hne]; [exfalso; apply Hn; now left|].
    rewrite IH; [lia|]. intro H; apply Hn; now right.
Qed.

Lemma splice1_snoc l (x : listener) : splice1 (l ++ [x]) (Z.of_nat (List.length l)) = l.
Proof.
  unfold splice1. rewrite Nat2Z.id.
  induction l as [|y l IH]; [reflexivity|].
  simpl. f_equal. exact IH.
Qed.

(** C9: subscribing a listener that is already in the list leaves the
    analyser unchanged, unsubscribing one that is not in it leaves it
    unchanged, and subscribing a fresh listener and then unsubscribing it
    gives back the analyser as it was. *)
Theorem subscribe_unsubscribe_noop (s : state) (ii : listener) :
  (In ii (subscribers s) -> subscribe s ii = s) /\
  (~ In ii (subscribers s) -> unsubscribe s ii = s) /\
  (~ In ii (subscribers s) -> unsubscribe (subscribe s ii) ii = s).
Proof.
  split; [|split].
  - intro Hin. unfold subscribe.
    assert (0 <= indexOf (subscribers s) ii)%Z as H
      by (apply indexOf_from_lower; [lia | assumption]).
    destruct (Z.eqb_spec (indexOf (subscribers s) ii) (-1)); [lia | reflexivity].
  - intro Hn. unfold unsubscribe, indexOf.
    rewrite indexOf_from_absent by assumption. reflexivity.
  - intro Hn. unfold subscribe at 1. unfold indexOf at 1.
    rewrite indexOf_from_absent by assumption. simpl.
    unfold unsubscribe, set_subscribers, indexOf. cbn [subscribers].
    rewrite indexOf_from_snoc_fresh by assumption. rewrite Z.add_0_l.
    replace (negb (Z.of_nat (List.length (subscribers s)) =? -1)%Z) with true
      by (symmetry; apply negb_true_iff, Z.eqb_neq; lia).
    rewrite splice1_snoc. cbn. destruct s; reflexivity.
Qed.

Lemma subscribe_unsubscribe_noop_witness :
  subscribe (set_subscribers initial [3; 5]%nat) 5%nat = set_subscribers initial [3; 5]%nat /\
  unsubscribe (set_subscribers initial [3; 5]%nat) 7%nat = set_subscribers initial [3; 5]%nat /\
  unsubscribe (subscribe (set_subscribers initial [3; 5]%nat) 7%nat) 7%nat
    = set_subscribers initial [3; 5]%nat.
Proof.
  split; [|split].
  - apply (proj1 (subscribe_unsubscribe_noop (set_subscribers initial [3; 5]%nat) 5%nat)).
    simpl. auto.
  - apply (proj1 (proj2 (subscribe_unsubscribe_noop (set_subscribers initial [3; 5]%nat) 7%nat))).
    simpl. intros [H|[H|[]]]; discriminate.
  - apply (proj2 (proj2 (subscribe_unsubscribe_noop (set_subscribers initial [3; 5]%nat) 7%nat))).
    simpl. intros [H|[H|[]]]; discriminate.
Defined.
End SubscriberFacts.

(** * The scheduler registration of [networked-audio-analyser] *)

Module LifecycleFacts.
Import FrameScheduler NetworkedAudioAnalyser.

Lemma entry_eqb_refl e : entry_eqb e e = true.
Proof.
  destruct e as [[n m] g]. unfold entry_eqb, callback_eqb. simpl.
  rewrite Nat.eqb_refl, String.eqb_refl. destruct m; reflexivity.
Qed.

Lemma registered_schedule cb g q : registered (schedule cb g q) cb g = true.
Proof.
  unfold schedule. destruct (registered q cb g) eqn:E; [assumption|].
  unfold registered. rewrite existsb_app. simpl. rewrite entry_eqb_refl.
  now rewrite orb_true_r.
Qed.

Lemma registered_unschedule_other cb cb' g q :
  callback_eqb cb' cb = false ->
  registered (unschedule cb' g q) cb g = registered q cb g.
Proof.
  intro Hne. unfold registered, unschedule.
  induction q as [|e q IH]; simpl; [reflexivity|].
  destruct (entry_eqb (cb', g) e) eqn:E1; simpl.
  - rewrite IH. destruct (entry_eqb (cb, g) e) eqn:E2; [|reflexivity].
    exfalso. destruct e as [[n m] g0]. destruct cb as [n1 m1], cb' as [n2 m2].
    unfold entry_eqb, callback_eqb in *. simpl in *.
    apply andb_true_iff in E1 as [E1 _]. apply andb_true_iff in E2 as [E2 _].
    apply andb_true_iff in E1 as [A1 B1]. apply andb_true_iff in E2 as [A2 B2].
    apply Nat.eqb_eq in A1, A2. subst.
    rewrite Nat.eqb_refl in Hne. simpl in Hne.
    destruct m, m1, m2; simpl in *; discriminate.
  - rewrite IH. reflexivity.
Qed.

(** C3, replayed on the code: [init] schedules the bound
    [_updateAnalysis], [remove] unschedules the bound [_runScheduledWork],
    a different callback; so after [init] and [remove] the callback that
    [init] registered is still registered with the scheduler. *)
Theorem remove_leaves_registered_callback (el : nat) (q : registry) :
  let scheduled_at_init := (el, UpdateAnalysis) in
  let unscheduled_at_remove := (el, RunScheduledWork) in
  callback_eqb scheduled_at_init unscheduled_at_remove = false /\
  registered (snd (init el q)) scheduled_at_init "audio-analyser" = true /\
  registered (remove el (snd (init el q))) scheduled_at_init "audio-analyser" = true.
Proof.
  cbv zeta. split; [|split].
  - unfold callback_eqb. simpl. now rewrite andb_false_r.
  - unfold init. simpl. apply registered_schedule.
  - unfold remove, init. simpl.
    rewrite registered_unschedule_other.
    + apply registered_schedule.
    + unfold callback_eqb. simpl. now rewrite andb_false_r.
Qed.
End LifecycleFacts.

(** * The level and the envelope of [mic-button] *)

Module LevelFacts.
Import MicButton.

Lemma level_of_zero_peak (volume : float) :
  (volume <? 0) = false -> level_of volume 0 = 7%nat.
Proof.
  intro H. unfold level_of.
  change (0 * 0.1) with 0. change (0 * 0.2) with 0. change (0 * 0.45) with 0.
  change (0 * 0.6) with 0. change (0 * 0.8) with 0.
  rewrite H. reflexivity.
Qed.

(** C6, replayed on the code: the first tick of a fresh button (peak 0)
    with a silent analyser keeps the peak at 0 and selects level 7, the
    image "mic-level-7.png", the loudest of the levels; the quietest level
    is 1, "mic-level-1.png". *)
Theorem silent_fresh_button_shows_level_7 (self : LocalAudioAnalyser.listener) (visible : bool) :
  let '(s', _, image) := tick self initial visible (Some LocalAudioAnalyser.initial) in
  loudest s' = 0 /\
  level_of (decayingVolume s') (loudest s') = 7%nat /\
  image = Some "mic-level-7.png"%string /\
  nth 1 micLevels ""%string = "mic-level-1.png"%string.
Proof.
  destruct visible; vm_compute; repeat split.
Qed.

End LevelFacts.

Module EnvelopeFacts.
Import Binary64 Binary64Facts MicButton.
Local Open Scope Z_scope.

Lemma heard_after_subscription (visible : bool) a self :
  LocalAudioAnalyser.immediateVolume
    (if visible then LocalAudioAnalyser.subscribe a self
     else LocalAudioAnalyser.unsubscribe a self)
  = LocalAudioAnalyser.immediateVolume a.
Proof.
  unfold LocalAudioAnalyser.subscribe, LocalAudioAnalyser.unsubscribe.
  destruct visible;
    [destruct (LocalAudioAnalyser.indexOf _ _ =? -1) | destruct (negb _)]; reflexivity.
Qed.

(** The envelope fields after a tick are those [envelope] computes. *)
Lemma tick_state_fields self s f :
  loudest (tick_state self s f) = snd (fst (envelope s (heard f))) /\
  decayingVolume (tick_state self s f) = fst (fst (envelope s (heard f))) /\
  smoothing (tick_state self s f) = smoothing s.
Proof.
  unfold tick_state, tick, heard. rewrite heard_after_subscription.
  destruct (envelope s (LocalAudioAnalyser.immediateVolume (snd f))) as [[d l] v].
  destruct (negb _); repeat split.
Qed.

Lemma tick_state_attack self s f :
  (decayingVolume s <? heard f)%float = true ->
  loudest (tick_state self s f) = JS.Math_max (loudest s) (heard f) /\
  decayingVolume (tick_state self s f) = heard f /\
  smoothing (tick_state self s f) = smoothing s.
Proof.
  intro H. destruct (tick_state_fields self s f) as (Hl & Hd & Hs).
  unfold envelope in Hl, Hd. rewrite H in Hl, Hd. auto.
Qed.

Lemma tick_state_release self s f :
  (decayingVolume s <? heard f)%float = false ->
  loudest (tick_state self s f) = loudest s /\
  decayingVolume (tick_state self s f) =
    (if (decayingVolume s * smoothing s <? 0.001)%float then 0%float
     else (decayingVolume s * smoothing s)%float) /\
  smoothing (tick_state self s f) = smoothing s.
Proof.
  intro H. destruct (tick_state_fields self s f) as (Hl & Hd & Hs).
  unfold envelope in Hl, Hd. rewrite H in Hl, Hd. auto.
Qed.

Lemma Inv_initial : Inv initial.
Proof. repeat split; vm_compute; congruence. Qed.

Lemma Inv_tick self s f :
  Inv s -> Inv (tick_state self s f) /\ frank (loudest s) <= frank (loudest (tick_state self s f)).
Proof.
  intros (Hs & Hd & Hl & Hr). unfold Inv.
  destruct (decayingVolume s <? heard f)%float eqn:E.
  - destruct (tick_state_attack self s f E) as (-> & -> & ->).
    destruct (ltb_true_not_nan _ _ E) as [_ Hv].
    rewrite ltb_rank in E by assumption. apply Z.ltb_lt in E.
    destruct (Math_max_rank (loudest s) (heard f) Hl Hv) as [Hn Hm].
    rewrite Hm. repeat split; try assumption; lia.
  - destruct (tick_state_release self s f E) as (-> & -> & ->). rewrite Hs.
    destruct (mul_decay_le (decayingVolume s) Hd ltac:(lia)) as (Hn & Hy).
    destruct (decayingVolume s * 0.8 <? 0.001)%float.
    + rewrite frank_zero. repeat split; try assumption; try reflexivity; lia.
    + repeat split; try assumption; lia.
Qed.

Lemma Inv_run self frames : forall s, Inv s -> Inv (run self s frames).
Proof.
  induction frames as [|f rest IH]; intros s H; [exact H|].
  apply IH. now apply Inv_tick.
Qed.

Lemma frank_snap : frank 0.001%float = snap_rank.
Proof. reflexivity. Qed.

(** One release tick: the envelope is snapped to 0 or shrinks geometrically. *)
Lemma release_tick self s f :
  Inv s -> frank (decayingVolume s) < 2 ^ 3172 ->
  (decayingVolume s <? heard f)%float = false ->
  frank (decayingVolume (tick_state self s f)) < 2 ^ 3172 /\
  (decayingVolume (tick_state self s f) = 0%float \/
   (snap_rank <= frank (decayingVolume (tick_state self s f)) /\
    frank (decayingVolume (tick_state self s f)) * 2 ^ 53
      <= frank (decayingVolume s) * (7205759403792794 + 2))).
Proof.
  intros HI Hfin Hrel.
  destruct HI as (Hs & Hd & Hl & Hr).
  destruct (tick_state_release self s f Hrel) as (_ & -> & _). rewrite Hs.
  destruct (mul_decay_le (decayingVolume s) Hd ltac:(lia)) as (Hn & Hy).
  destruct (decayingVolume s * 0.8 <? 0.001)%float eqn:E.
  - rewrite frank_zero. split; [pose proof (pow2_pos 3172 ltac:(lia)); lia | now left].
  - split; [lia|]. right.
    rewrite ltb_rank in E by (assumption || reflexivity).
    rewrite frank_snap in E. apply Z.ltb_ge in E. split; [assumption|].
    assert (0 < snap_rank) by (vm_compute; reflexivity).
    destruct (nonneg_rank_cases (decayingVolume s) Hd ltac:(lia)) as [[sg Ez]|[Ei|(m & e & Ef)]].
    + exfalso. unfold frank in Hy at 3. rewrite Ez in Hy. cbn [rank] in Hy. lia.
    + exfalso. unfold frank in Hfin. rewrite Ei in Hfin. cbn [rank cond_Zopp] in Hfin. lia.
    + apply mul_decay_geometric with m e; [assumption|].
      pose proof (Prim2SF_valid (decayingVolume s)) as V. rewrite Ef in V.
      destruct (valid_finite _ _ _ V) as (He & Hdig & Hnormal).
      apply Hnormal.
      destruct (Z.eq_dec e (-1074)) as [->|]; [exfalso|lia].
      unfold frank in Hy at 3. rewrite Ef in Hy. cbn [rank cond_Zopp] in Hy.
      destruct (digits2_pos_bounds m) as [_ Hu].
      assert (2 ^ Zpos (digits2_pos m) <= 2 ^ 53) by (apply Z.pow_le_mono_r; lia).
      assert (2 ^ 53 * 2 ^ (-1074 + 2148) < snap_rank) by (vm_compute; reflexivity).
      pose proof (pow2_pos (-1074 + 2148) ltac:(lia)). nia.
Qed.

Lemma release_run self quiet : forall s,
  Inv s -> frank (decayingVolume s) < 2 ^ 3172 ->
  no_new_peak self s quiet = true -> quiet <> [] ->
  decayingVolume (run self s quiet) = 0%float \/
  (snap_rank <= frank (decayingVolume (run self s quiet)) /\
   frank (decayingVolume (run self s quiet)) * 2 ^ (53 * Z.of_nat (List.length quiet))
     <= frank (decayingVolume s) * (7205759403792794 + 2) ^ Z.of_nat (List.length quiet)).
Proof.
  induction quiet as [|f rest IH]; intros s HI Hfin Hq Hne; [congruence|].
  cbn [no_new_peak] in Hq. apply andb_true_iff in Hq as [Hv Hq].
  apply negb_true_iff in Hv.
  destruct (release_tick self s f HI Hfin Hv) as (Hfin1 & Hstep).
  destruct (Inv_tick self s f HI) as [HI1 _].
  cbn [run fold_left]. fold (run self (tick_state self s f) rest).
  destruct rest as [|w rest'].
  - cbn [run fold_left List.length]. change (Z.of_nat 1) with 1.
    rewrite Z.mul_1_r, Z.pow_1_r. exact Hstep.
  - specialize (IH (tick_state self s f) HI1 Hfin1 Hq ltac:(discriminate)).
    set (n := List.length (w :: rest')) in *.
    destruct IH as [IH|[IHT IHg]]; [now left|].
    assert (0 < snap_rank) by (vm_compute; reflexivity).
    pose proof (pow2_pos (53 * Z.of_nat n) ltac:(lia)) as Hp.
    assert (0 < (7205759403792794 + 2) ^ Z.of_nat n) as Hc by (apply Z.pow_pos_nonneg; lia).
    destruct Hstep as [Hz|[HT1 Hg1]].
    + exfalso. rewrite Hz, frank_zero in IHg. nia.
    + right. split; [assumption|].
      change (List.length (f :: w :: rest')) with (S n).
      rewrite Nat2Z.inj_succ. unfold Z.succ.
      rewrite Z.mul_add_distr_l, Z.mul_1_r.
      rewrite !Z.pow_add_r by lia. rewrite Z.pow_1_r.
      set (a := frank (decayingVolume (run self (tick_state self s f) (w :: rest')))) in *.
      set (b := frank (decayingVolume (tick_state self s f))) in *.
      set (c := frank (decayingVolume s)) in *.
      set (p := 2 ^ (53 * Z.of_nat n)) in *.
      set (q := (7205759403792794 + 2) ^ Z.of_nat n) in *.
      assert (a * p * 2 ^ 53 <= b * q * 2 ^ 53) by (apply Z.mul_le_mono_nonneg_r; lia).
      assert (b * 2 ^ 53 * q <= c * (7205759403792794 + 2) * q) by (apply Z.mul_le_mono_nonneg_r; lia).
      lia.
Qed.

(** Past [n0] release ticks, a start value of at most [B] units has fallen
    below the snapping threshold. *)
Lemma below_threshold_from B n0 :
  0 <= B ->
  B * (7205759403792794 + 2) ^ Z.of_nat n0 < snap_rank * 2 ^ (53 * Z.of_nat n0) ->
  forall n, (n0 <= n)%nat ->
  B * (7205759403792794 + 2) ^ Z.of_nat n < snap_rank * 2 ^ (53 * Z.of_nat n).
Proof.
  intros HB H0 n Hn. induction Hn as [|n Hn IH]; [assumption|].
  rewrite Nat2Z.inj_succ. unfold Z.succ. rewrite Z.mul_add_distr_l, Z.mul_1_r.
  rewrite !Z.pow_add_r by lia. rewrite Z.pow_1_r.
  pose proof (pow2_pos (53 * Z.of_nat n) ltac:(lia)) as Hp.
  assert (0 < (7205759403792794 + 2) ^ Z.of_nat n) as Hc by (apply Z.pow_pos_nonneg; lia).
  assert (0 < snap_rank) by (vm_compute; reflexivity).
  assert (7205759403792794 + 2 < 2 ^ 53) by (vm_compute; reflexivity).
  nia.
Qed.

Lemma release_reaches_zero B n0 self s quiet :
  0 <= B -> (0 < n0)%nat ->
  B * (7205759403792794 + 2) ^ Z.of_nat n0 < snap_rank * 2 ^ (53 * Z.of_nat n0) ->
  Inv s -> frank (decayingVolume s) <= B -> B < 2 ^ 3172 ->
  no_new_peak self s quiet = true -> (n0 <= List.length quiet)%nat ->
  decayingVolume (run self s quiet) = 0%float.
Proof.
  intros HB Hn0 Hbound HI HsB HBfin Hq Hlen.
  assert (frank (decayingVolume s) < 2 ^ 3172) as Hfin
    by (apply Z.le_lt_trans with B; assumption).
  destruct (release_run self quiet s HI Hfin Hq) as [H|[HT Hg]];
    [destruct quiet; [simpl in Hlen; lia | discriminate] | assumption |].
  exfalso.
  pose proof (below_threshold_from B n0 HB Hbound _ Hlen) as Hlt.
  set (n := Z.of_nat (List.length quiet)) in *.
  pose proof (pow2_pos (53 * n) ltac:(lia)) as Hp.
  assert (0 < (7205759403792794 + 2) ^ n) as Hc by (apply Z.pow_pos_nonneg; lia).
  destruct HI as (_ & _ & _ & Hr).
  assert (frank (decayingVolume s) * (7205759403792794 + 2) ^ n
          <= B * (7205759403792794 + 2) ^ n) by (apply Z.mul_le_mono_nonneg_r; lia).
  assert (snap_rank * 2 ^ (53 * n) <= frank (decayingVolume (run self s quiet)) * 2 ^ (53 * n))
    by (apply Z.mul_le_mono_nonneg_r; lia).
  exact (Z.lt_irrefl _ (Z.le_lt_trans _ _ _ H0 (Z.le_lt_trans _ _ _ Hg (Z.le_lt_trans _ _ _ H Hlt)))).
Qed.

Lemma bound_unit : 2 ^ 2148 * (7205759403792794 + 2) ^ Z.of_nat 31 < snap_rank * 2 ^ (53 * Z.of_nat 31).
Proof. vm_compute. reflexivity. Qed.

(** Twenty-eight decays lose at least nine binary orders of magnitude. *)
Lemma decay_block (j : nat) :
  (7205759403792794 + 2) ^ (28 * Z.of_nat j) * 2 ^ (9 * Z.of_nat j)
  <= 2 ^ (53 * (28 * Z.of_nat j)).
Proof.
  induction j as [|j IH]; [vm_compute; discriminate|].
  rewrite Nat2Z.inj_succ. unfold Z.succ.
  rewrite !Z.mul_add_distr_l, !Z.mul_1_r, !Z.pow_add_r by lia.
  assert ((7205759403792794 + 2) ^ 28 * 2 ^ 9 <= 2 ^ (53 * 28)) as H0
    by (vm_compute; discriminate).
  set (a := (7205759403792794 + 2) ^ (28 * Z.of_nat j)) in *.
  set (b := 2 ^ (9 * Z.of_nat j)) in *.
  set (c := 2 ^ (53 * (28 * Z.of_nat j))) in *.
  set (a0 := (7205759403792794 + 2) ^ 28) in *.
  set (c0 := 2 ^ (53 * 28)) in *.
  assert (0 < a) by (apply Z.pow_pos_nonneg; lia).
  assert (0 < b) by (apply pow2_pos; lia).
  assert (0 < a0) by (apply Z.pow_pos_nonneg; lia).
  assert (0 <= a * b) by nia.
  assert (0 <= a0 * 2 ^ 9) by nia.
  assert (a * b * (a0 * 2 ^ 9) <= c * c0) by (apply Z.mul_le_mono_nonneg; lia).
  lia.
Qed.

Lemma bound_finite :
  (2 ^ 3172 - 1) * (7205759403792794 + 2) ^ Z.of_nat 3220
  < snap_rank * 2 ^ (53 * Z.of_nat 3220).
Proof.
  pose proof (decay_block 115) as H.
  change (Z.of_nat 115) with 115 in H. change (Z.of_nat 3220) with (28 * 115).
  assert (0 < (7205759403792794 + 2) ^ (28 * 115)) as HA
    by (apply Z.pow_pos_nonneg; [reflexivity | discriminate]).
  assert (0 < 2 ^ (53 * (28 * 115))) as HP
    by (apply Z.pow_pos_nonneg; [reflexivity | discriminate]).
  revert H HA HP.
  generalize ((7205759403792794 + 2) ^ (28 * 115)) as A.
  generalize (2 ^ (53 * (28 * 115))) as P.
  intros P A H HA HP.
  change (9 * 115) with 1035 in H.
  assert (2 ^ 2138 <= snap_rank) as HS by (vm_compute; discriminate).
  assert (2 ^ 3172 = 2 ^ 2137 * 2 ^ 1035) as E by (rewrite <- Z.pow_add_r by lia; reflexivity).
  assert (2 ^ 2138 = 2 * 2 ^ 2137) as E2 by (rewrite <- Z.pow_succ_r by lia; reflexivity).
  rewrite E. rewrite E2 in HS.
  assert (0 < 2 ^ 2137) as HU by (apply pow2_pos; lia).
  assert (0 < 2 ^ 1035) as HQ by (apply pow2_pos; lia).
  revert H HS HU HQ.
  generalize (2 ^ 2137) as U. generalize (2 ^ 1035) as Q. generalize snap_rank as S.
  intros S Q U H HS HU HQ.
  assert (U * (A * Q) <= U * P) by (apply Z.mul_le_mono_nonneg_l; lia).
  assert (2 * U * P <= S * P) by (apply Z.mul_le_mono_nonneg_r; lia).
  nia.
Qed.

(** The invariant, in the comparisons of the code. *)
Lemma Inv_of_bounds s :
  smoothing s = 0.8%float ->
  (0 <=? decayingVolume s)%float = true ->
  (decayingVolume s <=? loudest s)%float = true ->
  Inv s.
Proof.
  intros Hs H0 Hle.
  destruct (leb_true_not_nan _ _ Hle) as [Hd Hl].
  rewrite leb_rank in H0 by (reflexivity || assumption). rewrite frank_zero in H0.
  rewrite leb_rank in Hle by assumption.
  apply Z.leb_le in H0. apply Z.leb_le in Hle.
  split; [exact Hs|]. split; [exact Hd|]. split; [exact Hl|]. split; assumption.
Qed.

Lemma bounds_of_Inv s :
  Inv s ->
  smoothing s = 0.8%float /\
  (0 <=? decayingVolume s)%float = true /\
  (decayingVolume s <=? loudest s)%float = true.
Proof.
  intros (Hs & Hd & Hl & H0 & Hle).
  split; [exact Hs|]. split.
  - rewrite leb_rank by (reflexivity || assumption). rewrite frank_zero. now apply Z.leb_le.
  - rewrite leb_rank by assumption. now apply Z.leb_le.
Qed.

(** C8: the envelope never exceeds the peak and is not negative, after any
    sequence of ticks from the initial state, and a tick keeps it so from
    every state in which it is so.  At a tick from such a state the peak
    [loudest] never decreases; an input above the envelope becomes the
    envelope and the peak becomes the larger of the peak and the input; an
    input that does not exceed the envelope leaves the peak and multiplies
    the envelope by 0.8, making it exactly 0 when the product is below
    0.001; and ticks without a new peak bring the envelope to exactly 0:
    within 31 ticks when it is at most 1 (the largest volume samples can
    give), within 3220 ticks when it is finite. *)
Theorem envelope_never_exceeds_peak_and_decays
    (self : LocalAudioAnalyser.listener) (frames quiet : list frame)
    (s : state) (f : frame) :
  (let r := run self initial frames in
   smoothing r = 0.8%float /\
   (0 <=? decayingVolume r)%float = true /\
   (decayingVolume r <=? loudest r)%float = true) /\
  (smoothing s = 0.8%float ->
   (0 <=? decayingVolume s)%float = true ->
   (decayingVolume s <=? loudest s)%float = true ->
   let s' := tick_state self s f in
   (smoothing s' = 0.8%float /\
    (0 <=? decayingVolume s')%float = true /\
    (decayingVolume s' <=? loudest s')%float = true) /\
   (loudest s <=? loudest s')%float = true /\
   ((decayingVolume s <? heard f)%float = true ->
    decayingVolume s' = heard f /\
    loudest s' = JS.Math_max (loudest s) (heard f)) /\
   ((decayingVolume s <? heard f)%float = false ->
    loudest s' = loudest s /\
    decayingVolume s' =
      if (decayingVolume s * 0.8 <? 0.001)%float then 0%float
      else (decayingVolume s * 0.8)%float) /\
   (no_new_peak self s quiet = true ->
    (decayingVolume s <=? 1)%float = true -> (31 <= List.length quiet)%nat ->
    decayingVolume (run self s quiet) = 0%float) /\
   (no_new_peak self s quiet = true ->
    (decayingVolume s <? infinity)%float = true -> (3220 <= List.length quiet)%nat ->
    decayingVolume (run self s quiet) = 0%float)).
Proof.
  split; [exact (bounds_of_Inv _ (Inv_run self frames initial Inv_initial))|].
  intros Hsm H0 Hle s'.
  pose proof (Inv_of_bounds s Hsm H0 Hle) as HI.
  destruct (Inv_tick self s f HI) as [HI' Hmono]. fold s' in HI', Hmono.
  pose proof HI as (Hs & Hd & Hl & Hr).
  split; [exact (bounds_of_Inv _ HI')|].
  destruct HI' as (_ & _ & Hl' & _).
  split; [rewrite leb_rank by assumption; apply Z.leb_le; lia|].
  split.
  { intro Hatt. destruct (tick_state_attack self s f Hatt) as (Ha1 & Ha2 & _).
    split; assumption. }
  split.
  { intro Hrel. destruct (tick_state_release self s f Hrel) as (Hr1 & Hr2 & _).
    split; [exact Hr1|]. unfold s'. rewrite Hr2, Hs. reflexivity. }
  split.
  - intros Hq Hle1 Hlen.
    rewrite leb_rank in Hle1 by (assumption || reflexivity). apply Z.leb_le in Hle1.
    change (frank 1) with (2 ^ 2148) in Hle1.
    apply (release_reaches_zero (2 ^ 2148) 31 self s quiet).
    + apply Z.lt_le_incl, pow2_pos. lia.
    + apply Nat.lt_0_succ.
    + exact bound_unit.
    + exact HI.
    + exact Hle1.
    + apply Z.pow_lt_mono_r; lia.
    + exact Hq.
    + exact Hlen.
  - intros Hq Hlt Hlen.
    rewrite ltb_rank in Hlt by (assumption || reflexivity). apply Z.ltb_lt in Hlt.
    change (frank infinity) with (2 ^ 3172) in Hlt.
    pose proof (pow2_pos 3172 ltac:(lia)) as Hinf.
    apply (release_reaches_zero (2 ^ 3172 - 1) 3220 self s quiet).
    + apply Z.lt_le_pred. exact Hinf.
    + apply Nat.lt_0_succ.
    + exact bound_finite.
    + exact HI.
    + apply Z.lt_le_pred. exact Hlt.
    + apply Z.lt_pred_l.
    + exact Hq.
    + exact Hlen.
Qed.
Lemma envelope_never_exceeds_peak_and_decays_witness :
  let s := mkState 0.5 "mic-level-7.png" 0.5 0.8 in
  let louder : frame := (true, LocalAudioAnalyser.mkState 0 0 0.3 0.75 []) in
  let silence : frame := (true, LocalAudioAnalyser.initial) in
  (decayingVolume (tick_state 1%nat s louder) = 0.75%float /\
   loudest (tick_state 1%nat s louder) = 0.75%float) /\
  (loudest (tick_state 1%nat s silence) = 0.5%float /\
   decayingVolume (tick_state 1%nat s silence) = 0.4%float) /\
  decayingVolume (run 1%nat s (repeat silence 27)) <> 0%float /\
  decayingVolume (run 1%nat s (repeat silence 31)) = 0%float.
Proof.
  intros s louder silence.
  destruct (proj2 (envelope_never_exceeds_peak_and_decays 1%nat [] (repeat silence 31) s louder)
              eq_refl eq_refl eq_refl) as (_ & _ & Hatt & _ & Hzero & _).
  destruct (proj2 (envelope_never_exceeds_peak_and_decays 1%nat [] [] s silence)
              eq_refl eq_refl eq_refl) as (_ & _ & _ & Hrel & _).
  split; [exact (Hatt eq_refl)|]. split; [exact (Hrel eq_refl)|]. split.
  - intro H. apply (f_equal (fun x => (x =? 0)%float)) in H. vm_compute in H.
    exact (Bool.diff_false_true H).
  - apply Hzero; [vm_compute; reflexivity | reflexivity | apply Nat.le_refl].
Defined.

End EnvelopeFacts.

(** * Further properties of [networked-audio-analyser] *)

Module AnalyserLifeFacts.

Import NetworkedAudioAnalyser AnalyserLife.

Lemma update_without_source s levels t :
  analyser s = false -> _updateAnalysis s levels t = s.
Proof. intro H. unfold _updateAnalysis. rewrite H. reflexivity. Qed.

Lemma step_without_source s c : analyser s = false -> step s c = s.
Proof.
  intro H. destruct c as [t l|l|t l]; cbn [step]; unfold tick, _runScheduledWork;
    rewrite ?update_without_source by assumption;
    try destruct (negb _); try destruct (JS.truthy_flag _); reflexivity.
Qed.

(** X1: Until "sound-source-set" has created the analyser node, no call, on
    whatever path and in whatever number, changes the component: the
    volumes stay as they are, nothing is reset and nothing is recorded. *)
Theorem calls_without_source_change_nothing (s : state) (calls : list call) :
  analyser s = false -> run s calls = s.
Proof.
  intro H. induction calls as [|c calls IH]; [reflexivity|].
  cbn [run fold_left]. rewrite step_without_source by assumption. exact IH.
Qed.

Lemma calls_without_source_change_nothing_witness :
  run initial [Tick 16 loud; ScheduledWork loud; Update None loud; Update (Some 32) silent]
  = initial.
Proof. apply calls_without_source_change_nothing. reflexivity. Defined.

Lemma settled_initial : settled initial.
Proof.
  unfold settled, initial. cbn.
  split; [reflexivity|]. split; [reflexivity|]. split; [reflexivity|].
  split; [discriminate | congruence].
Qed.

Lemma settled_update s levels t : settled s -> settled (_updateAnalysis s levels t).
Proof.
  intro H. unfold _updateAnalysis.
  destruct (analyser s) eqn:Ean; cbn [negb]; [|exact H].
  destruct H as (Hp & Hs & Hl & Hq & Ha).
  set (v := smoothing s * getVolume levels + (1 - smoothing s) * prevVolume s).
  assert (Hkeep : forall q, (JS.truthy_flag q = true -> JS.truthy_opt (lastSeenVolume s) = true) ->
            settled (mkState v v (getVolume levels) (smoothing s) true q (lastSeenVolume s))).
  { intros q Hq'. unfold settled.
    cbn [prevVolume volume smoothing lastSeenVolume avatarIsQuiet analyser].
    split; [reflexivity|]. split; [exact Hs|]. split; [exact Hl|]. split; [exact Hq'|].
    reflexivity. }
  destruct (v <? DISABLE_AT_VOLUME_THRESHOLD).
  - destruct t as [tv|]; [|apply Hkeep, Hq].
    destruct (lastSeenVolume s) as [seen|] eqn:Es; [|apply Hkeep, Hq].
    destruct (JS.truthy tv && JS.truthy seen && (seen <? tv - DISABLE_GRACE_PERIOD_MS)) eqn:E;
      [|apply Hkeep, Hq].
    apply Hkeep. intros _. apply andb_true_iff in E as [E _].
    apply andb_true_iff in E as [_ E]. exact E.
  - unfold settled. cbn [prevVolume volume smoothing lastSeenVolume avatarIsQuiet analyser].
    split; [reflexivity|]. split; [exact Hs|]. split; [|split; [discriminate | reflexivity]].
    destruct (JS.truthy_opt t) eqn:Et; [|exact Hl].
    destruct t; [exact Et | discriminate].
Qed.

Lemma settled_handle s e : settled s -> settled (handle s e).
Proof.
  intro H. destruct e as [|[t l|l|t l]]; cbn [handle step].
  - destruct H as (Hp & Hs & Hl & Hq & Ha). unfold settled, sound_source_set.
    cbn [prevVolume volume smoothing lastSeenVolume avatarIsQuiet analyser].
    split; [exact Hp|]. split; [exact Hs|]. split; [exact Hl|]. split; [exact Hq|]. reflexivity.
  - unfold tick. destruct (negb _); [now apply settled_update | assumption].
  - unfold _runScheduledWork. destruct (JS.truthy_flag _); [now apply settled_update | assumption].
  - now apply settled_update.
Qed.

Lemma settled_play events : forall s, settled s -> settled (play s events).
Proof.
  induction events as [|e events IH]; intros s H; [exact H|].
  apply IH. now apply settled_handle.
Qed.

(** X2: Whatever events and calls follow [init]: the stored previous volume is
    the current smoothed volume, the smoothing factor is still 0.3, a
    recorded [lastSeenVolume] is a truthy number (never 0 or NaN), the
    avatar is flagged quiet only with such a timestamp on record, and the
    flag is assigned, to true or to false, only once the analyser node
    exists. *)
Theorem analyser_state_invariants (events : list event) :
  let s := play initial events in
  prevVolume s = volume s /\
  smoothing s = 0.3 /\
  match lastSeenVolume s with
  | Some seen => JS.truthy seen = true
  | None => True
  end /\
  match avatarIsQuiet s with
  | Some true => analyser s = true /\ exists seen, lastSeenVolume s = Some seen
  | Some false => analyser s = true
  | None => True
  end.
Proof.
  intro s. destruct (settled_play events initial settled_initial) as (Hp & Hs & Hl & Hq & Ha).
  fold s in Hp, Hs, Hl, Hq, Ha.
  split; [assumption|]. split; [assumption|]. split.
  - destruct (lastSeenVolume s) as [seen|]; [exact Hl | exact I].
  - destruct (avatarIsQuiet s) as [[|]|]; [| apply Ha; discriminate | exact I].
    split; [apply Ha; discriminate|].
    specialize (Hq eq_refl). destruct (lastSeenVolume s) as [seen|]; [now exists seen | discriminate].
Qed.

Lemma tick_while_quiet s levels t :
  JS.truthy_flag (avatarIsQuiet s) = true -> tick s levels t = s.
Proof. intro H. unfold tick. rewrite H. reflexivity. Qed.


Lemma ticks_while_quiet (frames : list frame) s :
  JS.truthy_flag (avatarIsQuiet s) = true -> run s (map as_tick frames) = s.
Proof.
  intro H. induction frames as [|f rest IH]; [reflexivity|].
  cbn [map run fold_left step as_tick]. rewrite tick_while_quiet by assumption. exact IH.
Qed.




Lemma update_untimed_keeps_lastSeen s levels :
  lastSeenVolume (_updateAnalysis s levels None) = lastSeenVolume s.
Proof.
  unfold _updateAnalysis. destruct (analyser s); cbn [negb]; [|reflexivity].
  destruct (_ <? DISABLE_AT_VOLUME_THRESHOLD); reflexivity.
Qed.

(** X4: Calls without a timestamp never record or change [lastSeenVolume],
    even when they find the volume at or above the threshold and clear the
    quiet flag: waking up on the background path does not restart the
    grace period. *)
Theorem untimed_calls_keep_lastSeenVolume (s : state) (calls : list call) :
  forallb untimed calls = true ->
  lastSeenVolume (run s calls) = lastSeenVolume s.
Proof.
  revert s. induction calls as [|c calls IH]; intros s Hc; [reflexivity|].
  cbn [forallb] in Hc. apply andb_true_iff in Hc as [Hc1 Hc2].
  cbn [run fold_left]. fold (run (step s c) calls). rewrite IH by assumption.
  destruct c as [t l|l|[t|] l]; try discriminate; cbn [step].
  - unfold _runScheduledWork. destruct (JS.truthy_flag _);
      [apply update_untimed_keeps_lastSeen | reflexivity].
  - apply update_untimed_keeps_lastSeen.
Qed.

Lemma untimed_calls_keep_lastSeenVolume_witness :
  let quiet := mkState 0 0 0 0.3 true (Some true) (Some 1) in
  lastSeenVolume (run quiet [ScheduledWork loud; Update None silent]) = Some 1 /\
  avatarIsQuiet (run quiet [ScheduledWork loud; Update None silent]) = Some false.
Proof.
  intro quiet. split; [|reflexivity].
  apply (untimed_calls_keep_lastSeenVolume quiet [ScheduledWork loud; Update None silent]).
  reflexivity.
Defined.

End AnalyserLifeFacts.

(** * The subscriber list as a set *)

Module SubscriptionFacts.

Import LocalAudioAnalyser Subscriptions.

Lemma indexOf_from_miss l x : forall i,
  (0 <= i)%Z -> indexOf_from l x i = (-1)%Z -> ~ In x l.
Proof.
  induction l as [|y l IH]; intros i Hi H; cbn [indexOf_from] in H; [intros []|].
  destruct (Nat.eqb y x) eqn:E; [lia|].
  apply Nat.eqb_neq in E. intros [Hy|Hin]; [congruence|].
  exact (IH (i + 1)%Z ltac:(lia) H Hin).
Qed.

(** The index found splits the list around the first occurrence. *)
Lemma indexOf_from_hit l x : forall i,
  (0 <= i)%Z -> indexOf_from l x i <> (-1)%Z ->
  exists k, indexOf_from l x i = (i + Z.of_nat k)%Z /\
            l = firstn k l ++ x :: skipn (S k) l /\ ~ In x (firstn k l).
Proof.
  induction l as [|y l IH]; intros i Hi H; cbn [indexOf_from] in *; [congruence|].
  destruct (Nat.eqb y x) eqn:E.
  - apply Nat.eqb_eq in E. subst y. exists 0%nat. cbn. split; [lia|]. split; [reflexivity|tauto].
  - apply Nat.eqb_neq in E. destruct (IH (i + 1)%Z ltac:(lia) H) as (k & Hk & Hl & Hn).
    exists (S k). split; [lia|]. cbn [firstn skipn app]. split; [f_equal; exact Hl|].
    intros [Hy|Hin]; [congruence | exact (Hn Hin)].
Qed.

Lemma subscribe_subscribers s x :
  subscribers (subscribe s x) =
  if (indexOf (subscribers s) x =? -1)%Z then subscribers s ++ [x] else subscribers s.
Proof. unfold subscribe. destruct (_ =? _)%Z; reflexivity. Qed.

Lemma subscribe_In s x y :
  In y (subscribers (subscribe s x)) <-> y = x \/ In y (subscribers s).
Proof.
  rewrite subscribe_subscribers. destruct (_ =? _)%Z eqn:E.
  - rewrite in_app_iff. cbn. intuition congruence.
  - apply Z.eqb_neq in E.
    destruct (indexOf_from_hit _ _ 0%Z ltac:(lia) E) as (k & _ & Hl & _).
    split; [tauto|]. intros [->|H]; [|exact H].
    rewrite Hl. apply in_app_iff. right. now left.
Qed.

Lemma subscribe_NoDup s x :
  NoDup (subscribers s) -> NoDup (subscribers (subscribe s x)).
Proof.
  intro H. rewrite subscribe_subscribers. destruct (_ =? _)%Z eqn:E; [|exact H].
  apply Z.eqb_eq in E. pose proof (indexOf_from_miss _ _ 0%Z ltac:(lia) E) as Hn.
  apply NoDup_app; [exact H | repeat constructor; intros [] | ].
  intros a Ha [<-|[]]. exact (Hn Ha).
Qed.

Lemma unsubscribe_subscribers s x :
  indexOf (subscribers s) x = (-1)%Z /\ subscribers (unsubscribe s x) = subscribers s /\
    ~ In x (subscribers s)
  \/ exists front back,
       subscribers s = front ++ x :: back /\ ~ In x front /\
       subscribers (unsubscribe s x) = front ++ back.
Proof.
  unfold unsubscribe. destruct (_ =? _)%Z eqn:E; cbn [negb].
  - apply Z.eqb_eq in E. left. split; [exact E|]. split; [reflexivity|].
    exact (indexOf_from_miss _ _ 0%Z ltac:(lia) E).
  - apply Z.eqb_neq in E. right.
    destruct (indexOf_from_hit _ _ 0%Z ltac:(lia) E) as (k & Hk & Hl & Hn).
    exists (firstn k (subscribers s)), (skipn (S k) (subscribers s)).
    split; [exact Hl|]. split; [exact Hn|].
    unfold set_subscribers, splice1. cbn [subscribers]. fold (indexOf (subscribers s) x).
    unfold indexOf. rewrite Hk. cbn [Z.add]. now rewrite Nat2Z.id.
Qed.

Lemma unsubscribe_NoDup s x :
  NoDup (subscribers s) -> NoDup (subscribers (unsubscribe s x)).
Proof.
  intro H. destruct (unsubscribe_subscribers s x) as [(_ & -> & _)|(f & b & Hs & _ & ->)];
    [exact H|].
  rewrite Hs in H. exact (NoDup_remove_1 _ _ _ H).
Qed.

Lemma unsubscribe_In s x y :
  NoDup (subscribers s) ->
  (In y (subscribers (unsubscribe s x)) <-> y <> x /\ In y (subscribers s)).
Proof.
  intro H. destruct (unsubscribe_subscribers s x) as [(_ & -> & Hn)|(f & b & Hs & _ & ->)].
  - split; [|tauto]. intro Hy. split; [|exact Hy]. intros ->. exact (Hn Hy).
  - rewrite Hs in *. pose proof (NoDup_remove_2 _ _ _ H) as Hx.
    rewrite !in_app_iff in *. cbn [In]. split.
    + intro Hy. split; [intros ->; exact (Hx Hy) | tauto].
    + intros [Hne [Hy|[Hy|Hy]]]; [tauto | congruence | tauto].
Qed.

Lemma serve_volumes s r :
  volume (serve s r) = volume s /\ prevVolume (serve s r) = prevVolume s /\
  smoothing (serve s r) = smoothing s /\ immediateVolume (serve s r) = immediateVolume s.
Proof.
  destruct r as [x|x]; cbn [serve]; unfold subscribe, unsubscribe;
    destruct (_ =? _)%Z; cbn; auto.
Qed.

Lemma serve_all_spec requests : forall s now ii,
  NoDup (subscribers s) ->
  (In ii (subscribers s) <-> now = true) ->
  let s' := serve_all s requests in
  NoDup (subscribers s') /\
  (In ii (subscribers s') <-> last_is_subscribe ii requests now = true) /\
  volume s' = volume s /\ prevVolume s' = prevVolume s /\
  smoothing s' = smoothing s /\ immediateVolume s' = immediateVolume s.
Proof.
  induction requests as [|r requests IH]; intros s now ii Hnd Hin; cbn zeta.
  - cbn. tauto.
  - cbn [serve_all fold_left last_is_subscribe]. fold (serve_all (serve s r) requests).
    destruct (serve_volumes s r) as (V1 & V2 & V3 & V4).
    rewrite <- V1, <- V2, <- V3, <- V4.
    destruct r as [x|x]; cbn [serve] in *.
    + apply IH; [now apply subscribe_NoDup|].
      rewrite subscribe_In. destruct (Nat.eqb x ii) eqn:E.
      * apply Nat.eqb_eq in E. intuition.
      * apply Nat.eqb_neq in E. rewrite <- Hin. intuition congruence.
    + apply IH; [now apply unsubscribe_NoDup|].
      rewrite unsubscribe_In by assumption. destruct (Nat.eqb x ii) eqn:E.
      * apply Nat.eqb_eq in E. intuition congruence.
      * apply Nat.eqb_neq in E. rewrite <- Hin. intuition congruence.
Qed.

(** X5: After any sequence of [subscribe] and [unsubscribe] calls on the
    system as [init] leaves it, the subscriber array holds no listener
    twice, it holds a listener exactly when the last call that named that
    listener was a [subscribe], and the volumes and the smoothing factor are
    as [init] set them. *)
Theorem subscribers_form_a_set (requests : list request) (ii : listener) :
  let s := serve_all initial requests in
  NoDup (subscribers s) /\
  (In ii (subscribers s) <-> last_is_subscribe ii requests false = true) /\
  volume s = 0 /\ prevVolume s = 0 /\ smoothing s = 0.3 /\ immediateVolume s = 0.
Proof.
  apply (serve_all_spec requests initial false ii).
  - constructor.
  - cbn. split; [intros [] | discriminate].
Qed.

(** X6: On a subscriber array without repetition, a listener is absent after
    its [unsubscribe], whatever else the array holds, and the [subscribe]
    that follows appends it at the end: a listener that re-subscribes moves
    behind the others. *)
Theorem resubscribe_moves_to_the_end (s : state) (ii : listener) :
  NoDup (subscribers s) ->
  ~ In ii (subscribers (unsubscribe s ii)) /\
  exists others,
    subscribers (subscribe (unsubscribe s ii) ii) = others ++ [ii] /\
    ~ In ii others /\
    forall x, In x others <-> x <> ii /\ In x (subscribers s).
Proof.
  intro H.
  assert (Hn : ~ In ii (subscribers (unsubscribe s ii))).
  { rewrite unsubscribe_In by assumption. tauto. }
  split; [exact Hn|]. exists (subscribers (unsubscribe s ii)).
  split; [|split; [exact Hn|]].
  - rewrite subscribe_subscribers. destruct (_ =? _)%Z eqn:E; [reflexivity|].
    apply Z.eqb_neq in E. destruct (indexOf_from_hit _ _ 0%Z ltac:(lia) E) as (k & _ & Hl & _).
    exfalso. apply Hn. rewrite Hl. apply in_app_iff. right. now left.
  - intro x. now apply unsubscribe_In.
Qed.

Lemma resubscribe_moves_to_the_end_witness :
  subscribers (subscribe (unsubscribe (set_subscribers initial [4; 7; 9]%nat) 4%nat) 4%nat)
  = [7; 9; 4]%nat /\
  exists others,
    subscribers (subscribe (unsubscribe (set_subscribers initial [4; 7; 9]%nat) 4%nat) 4%nat)
    = others ++ [4%nat].
Proof.
  split; [reflexivity|].
  destruct (resubscribe_moves_to_the_end (set_subscribers initial [4; 7; 9]%nat) 4%nat)
    as (_ & others & Ho & _).
  - repeat constructor; cbn; intuition discriminate.
  - exists others. exact Ho.
Defined.

End SubscriptionFacts.

(** * Signs of sums, products, quotients and roots *)

Module SignFacts.

Import Binary64 Binary64Facts Sign.

Local Open Scope Z_scope.

Lemma nonneg_intro x : Prim2SF x <> S754_nan -> 0 <= rank (Prim2SF x) -> nonneg x.
Proof. intros Hn Hr. split; [now apply not_nan_Prim2SF | exact Hr]. Qed.

Lemma shr_fexp_nonneg m e l : 0 <= m -> 0 <= shr_m (fst (shr_fexp prec emax m e l)).
Proof.
  intro Hm. unfold shr_fexp, shr.
  assert (shr_m (shr_record_of_loc m l) = m) as Hrec by (destruct l as [|[]]; reflexivity).
  destruct (fexp prec emax (Zdigits2 m + e) - e) as [|p|p]; cbn [fst]; rewrite ?Hrec;
    try assumption.
  rewrite iter_shr_m by (rewrite Hrec; assumption). rewrite Hrec.
  apply Z.div_pos; [assumption | apply pow2_pos; lia].
Qed.

(** Rounding a non-negative mantissa, whatever the location of the exact
    value, gives a number that is not negative. *)
Lemma round_aux_nonneg m e l :
  0 <= m ->
  binary_round_aux prec emax false m e l <> S754_nan /\
  0 <= rank (binary_round_aux prec emax false m e l).
Proof.
  intro Hm. unfold binary_round_aux.
  pose proof (shr_fexp_nonneg m e l Hm) as H1.
  destruct (shr_fexp prec emax m e l) as [mrs' e'] eqn:E1. cbn [fst] in H1.
  pose proof (round_nearest_even_bounds (shr_m mrs') (loc_of_shr_record mrs')) as Hr.
  pose proof (shr_fexp_nonneg (round_nearest_even (shr_m mrs') (loc_of_shr_record mrs'))
                e' loc_Exact ltac:(lia)) as H2.
  destruct (shr_fexp prec emax (round_nearest_even (shr_m mrs') (loc_of_shr_record mrs'))
              e' loc_Exact) as [mrs'' e''] eqn:E2. cbn [fst] in H2.
  destruct (shr_m mrs'') as [|p|p]; [split; [discriminate | cbn [rank]; lia] | | lia].
  destruct (e'' <=? emax - prec); (split; [discriminate|]); cbn [rank cond_Zopp].
  - apply Z.mul_nonneg_nonneg; [lia | apply Z.pow_nonneg; lia].
  - apply Z.pow_nonneg; lia.
Qed.

Lemma sqrt_nonneg x : nonneg x -> nonneg (sqrt x).
Proof.
  intros [Hn Hr]. apply nonneg_intro; rewrite sqrt_spec;
    destruct (nonneg_rank_cases x Hn Hr) as [[s E]|[E|(m & e & E)]]; rewrite E;
    unfold SF64sqrt, SFsqrt; try discriminate;
    try (cbn [rank cond_Zopp]; first [lia | apply Z.pow_nonneg; lia]).
  all: destruct (SFsqrt_core_binary prec emax (Zpos m) e) as [[mz ez] lz] eqn:Ec;
    apply round_aux_nonneg; unfold SFsqrt_core_binary in Ec;
    match type of Ec with context [Z.sqrtrem ?a] =>
      pose proof (Z.sqrtrem_sqrt a) as Hs; destruct (Z.sqrtrem a) as [q r] end;
    inversion Ec; subst; cbn [fst] in Hs; rewrite Hs; apply Z.sqrt_nonneg.
Qed.

Lemma div_nonneg x y :
  nonneg x -> is_nan y = false -> 0 < frank y < 2 ^ 3172 -> nonneg (x / y).
Proof.
  intros [Hn Hr] Hy [Hpos Hfin].
  destruct (nonneg_rank_cases y Hy ltac:(lia)) as [[sy Ey]|[Ey|(my & ey & Ey)]];
    try (exfalso; unfold frank in Hpos, Hfin; rewrite Ey in Hpos, Hfin;
         cbn [rank cond_Zopp] in Hpos, Hfin; lia).
  apply nonneg_intro; rewrite div_spec, Ey;
    destruct (nonneg_rank_cases x Hn Hr) as [[s E]|[E|(m & e & E)]]; rewrite E;
    unfold SF64div, SFdiv; cbn [xorb]; try discriminate;
    try (cbn [rank cond_Zopp]; first [lia | apply Z.pow_nonneg; lia]).
  all: destruct (SFdiv_core_binary prec emax (Zpos m) e (Zpos my) ey) as [[mz ez] lz] eqn:Ec;
    apply round_aux_nonneg; unfold SFdiv_core_binary in Ec;
    match type of Ec with context [Z.div_eucl ?a ?b] =>
      assert (0 <= a) as Ha
        by (match goal with |- 0 <= match ?s with _ => _ end =>
              destruct s; [lia | apply Z.shiftl_nonneg; lia | lia] end);
      pose proof (Z.div_pos a b Ha ltac:(lia)) as Hq; unfold Z.div in Hq;
      destruct (Z.div_eucl a b) as [q r] end;
    inversion Ec; subst; exact Hq.
Qed.

Lemma add_nonneg x t : nonneg x -> nonneg t -> nonneg (x + t)%float.
Proof.
  intros [Hx Rx] [Ht Rt].
  assert (is_nan (x + t)%float = false) as Hs.
  { apply not_nan_Prim2SF. rewrite add_spec.
    pose proof (Prim2SF_valid x) as Vx. pose proof (Prim2SF_valid t) as Vt.
    destruct (nonneg_rank_cases x Hx Rx) as [[sx Ex]|[Ex|(mx & ex & Ex)]];
    destruct (nonneg_rank_cases t Ht Rt) as [[st Et]|[Et|(mt & et & Et)]];
      rewrite Ex, Et in *; unfold SF64add, SFadd; try discriminate.
    - destruct sx, st; discriminate.
    - destruct (valid_finite _ _ _ Vx) as (Hex & _).
      destruct (valid_finite _ _ _ Vt) as (Het & _).
      exact (proj1 (binary_normalize_value _ (Z.min ex et) ltac:(lia))). }
  split; [exact Hs|]. pose proof (add_nonneg_ge x t Hs Rt). lia.
Qed.

(** A product with a positive finite constant. *)
Lemma mul_const_nonneg c x mc ec :
  Prim2SF c = S754_finite false mc ec -> nonneg x -> nonneg (c * x)%float.
Proof.
  intros Ec [Hx Rx].
  assert (is_nan (c * x)%float = false) as Hp.
  { destruct (nonneg_rank_cases x Hx Rx) as [[sx Ex]|[Ex|(mx & ex & Ex)]].
    - apply not_nan_Prim2SF. rewrite mul_spec, Ec, Ex. discriminate.
    - apply not_nan_Prim2SF. rewrite mul_spec, Ec, Ex. discriminate.
    - destruct (mul_finite_value c x mc ec mx ex Ec Ex) as (_ & _ & _ & Hn & _). exact Hn. }
  split; [exact Hp|]. apply mul_nonneg; [exact Hp | | exact Rx].
  unfold frank. rewrite Ec. cbn [rank cond_Zopp].
  apply Z.mul_nonneg_nonneg; [lia | apply Z.pow_nonneg; lia].
Qed.

Lemma mul_comm x y : (x * y)%float = (y * x)%float.
Proof.
  apply Prim2SF_inj. rewrite !mul_spec. unfold SF64mul, SFmul.
  destruct (Prim2SF x) as [sx|sx| |sx mx ex], (Prim2SF y) as [sy|sy| |sy my ey];
    try reflexivity; try (now rewrite xorb_comm).
  now rewrite xorb_comm, Pos.mul_comm, Z.add_comm.
Qed.

(** Adding to [+0] changes nothing but possibly the sign of a zero. *)
Lemma add_zero_l y :
  is_nan y = false -> is_nan (0 + y)%float = false /\ frank (0 + y)%float = frank y.
Proof.
  intro Hy. apply not_nan_Prim2SF in Hy.
  assert (Prim2SF (0 + y)%float = SFadd prec emax (S754_zero false) (Prim2SF y)) as E
    by (rewrite add_spec; reflexivity).
  split; [apply not_nan_Prim2SF|unfold frank]; rewrite E;
    destruct (Prim2SF y) as [sy|sy| |sy my ey]; try congruence; try discriminate;
    try reflexivity; destruct sy; first [reflexivity | discriminate].
Qed.

(** A number converted from an array length is finite. *)
Lemma of_uint63_finite (n : Z) :
  0 < n < 2 ^ 63 -> frank (of_uint63 (Uint63.of_Z n)) < 2 ^ 3172.
Proof.
  intros Hn.
  assert (Uint63.to_Z (Uint63.of_Z n) = n) as Hto.
  { rewrite Uint63.of_Z_spec. apply Z.mod_small. change Uint63.wB with (2 ^ 63). lia. }
  pose proof (of_uint63_spec (Uint63.of_Z n)) as Hspec.
  change Uint63Axioms.to_Z with Uint63.to_Z in Hspec. rewrite Hto in Hspec.
  destruct n as [|p|p]; try lia. cbn [binary_normalize] in Hspec.
  destruct (binary_round_value false p 0 ltac:(lia)) as (m2 & Hb & Hr & Hnn & Hnormal).
  rewrite <- Hspec in Hr. unfold frank. rewrite Hr. cbn [cond_Zopp].
  set (e1 := fexp prec emax (Zpos (digits2_pos p) + 0)) in *.
  destruct (digits2_pos_bounds p) as [Hl Hu].
  assert (Zpos (digits2_pos p) <= 63) as Hd.
  { destruct (Z_le_gt_dec (Zpos (digits2_pos p)) 63) as [|Hgt]; [assumption|].
    assert (2 ^ 63 <= 2 ^ (Zpos (digits2_pos p) - 1)) by (apply Z.pow_le_mono_r; lia). lia. }
  assert (-1074 <= e1 <= 10) as He1 by (unfold e1; rewrite fexp_eq; lia).
  set (g := 2 ^ (e1 + 2148)) in *.
  set (V := Zpos p * 2 ^ (0 + 2148)) in *.
  pose proof (pow2_pos (e1 + 2148) ltac:(lia)) as Hg. fold g in Hg.
  pose proof (Z.mul_div_le V g Hg) as Hfloor.
  assert (g <= 2 ^ 2158) as Hg' by (apply Z.pow_le_mono_r; lia).
  assert (V < 2 ^ 63 * 2 ^ 2148) as HV.
  { unfold V. apply Z.mul_lt_mono_pos_r; [apply pow2_pos; lia | lia]. }
  rewrite <- (pow2_split 63 2148) in HV by lia.
  assert (2 ^ (63 + 2148) <= 2 ^ 3171) as H1 by (apply Z.pow_le_mono_r; lia).
  assert (2 ^ 2158 <= 2 ^ 3171) as H2 by (apply Z.pow_le_mono_r; lia).
  assert (2 ^ 3172 = 2 ^ 1 * 2 ^ 3171) as H3 by (apply (pow2_split 1 3171); lia).
  change (2 ^ 1) with 2 in H3.
  apply Z.le_lt_trans with (m2 * g); [apply Z.le_min_l|].
  apply Z.le_lt_trans with (V + g).
  - assert (m2 * g <= (V / g + 1) * g) by (apply Z.mul_le_mono_nonneg_r; lia).
    rewrite Z.mul_add_distr_r in H. lia.
  - revert HV Hg' H1 H2 H3. generalize (2 ^ 3172) (2 ^ 3171) (2 ^ 2158) (2 ^ (63 + 2148)).
    intros. lia.
Qed.

End SignFacts.

(** * The range of the volumes *)

Module RangeFacts.

Import Binary64 Binary64Facts Sign VolumeRange SignFacts NetworkedAudioAnalyser AnalyserLife.

Lemma nonneg_of_leb x : (0 <=? x) = true -> nonneg x.
Proof.
  intro H. destruct (leb_true_not_nan _ _ H) as [_ Hn]. split; [exact Hn|].
  rewrite leb_rank in H by (reflexivity || assumption). rewrite frank_zero in H.
  now apply Z.leb_le.
Qed.

Lemma leb_of_nonneg x : nonneg x -> (0 <=? x) = true.
Proof.
  intros [Hn Hr]. rewrite leb_rank by (reflexivity || assumption). rewrite frank_zero.
  now apply Z.leb_le.
Qed.

Lemma square_nonneg (b : byte) : nonneg (normalized b * normalized b).
Proof. apply nonneg_of_leb. destruct b; vm_compute; reflexivity. Qed.

Lemma getVolume_loop_nonneg levels : forall sum,
  nonneg sum -> nonneg (getVolume_loop levels sum).
Proof.
  induction levels as [|l rest IH]; intros sum H; [exact H|].
  cbn [getVolume_loop]. apply IH. apply add_nonneg; [exact H|]. apply square_nonneg.
Qed.

Lemma of_length_positive (levels : list byte) :
  filled levels ->
  is_nan (JS.of_length levels) = false /\
  (0 < frank (JS.of_length levels) < 2 ^ 3172)%Z.
Proof.
  intros [Hne Hlen].
  assert (0 < Z.of_nat (List.length levels))%Z as Hpos
    by (destruct levels; [congruence | cbn [List.length]; lia]).
  destruct (of_uint63_positive (Z.of_nat (List.length levels)) ltac:(lia)) as [Hn Hp].
  pose proof (of_uint63_finite (Z.of_nat (List.length levels)) ltac:(lia)) as Hf.
  unfold JS.of_length. split; [exact Hn|]. split; assumption.
Qed.

Lemma zero_nonneg : nonneg 0.
Proof. split; [reflexivity | rewrite frank_zero; apply Z.le_refl]. Qed.

Lemma getVolume_range levels :
  filled levels ->
  nonneg (getVolume levels) /\
  (getVolume levels = 0 \/ (MIN_VOLUME_THRESHOLD <=? getVolume levels) = true).
Proof.
  intro Hf. destruct (of_length_positive levels Hf) as [Hn Hp].
  assert (nonneg (sqrt (getVolume_loop levels 0 / JS.of_length levels))) as Hr.
  { apply sqrt_nonneg. apply div_nonneg; try assumption.
    apply getVolume_loop_nonneg. exact zero_nonneg. }
  unfold getVolume.
  set (currVolume := sqrt (getVolume_loop levels 0 / JS.of_length levels)) in *.
  destruct (currVolume <? MIN_VOLUME_THRESHOLD) eqn:E.
  - split; [exact zero_nonneg | now left].
  - split; [exact Hr | right]. destruct Hr as [Hnan _].
    rewrite ltb_rank in E by (assumption || reflexivity).
    rewrite leb_rank by (assumption || reflexivity).
    apply Z.leb_le. apply Z.ltb_ge in E. exact E.
Qed.

(** X7: On every buffer a typed array can hold (at least one sample), whatever
    the samples are, [getVolume] returns a number, never [NaN] and never a
    negative one, and that number is either exactly 0 or at least
    [MIN_VOLUME_THRESHOLD]: nothing strictly between 0 and 0.01 is ever
    reported. *)
Theorem getVolume_is_zero_or_audible (levels : list byte) :
  levels <> [] -> (Z.of_nat (List.length levels) < 2 ^ 63)%Z ->
  is_nan (getVolume levels) = false /\
  (0 <=? getVolume levels) = true /\
  (getVolume levels = 0 \/ (MIN_VOLUME_THRESHOLD <=? getVolume levels) = true).
Proof.
  intros Hne Hlen. destruct (getVolume_range levels (conj Hne Hlen)) as [Hr Hc].
  split; [exact (proj1 Hr)|]. split; [now apply leb_of_nonneg | exact Hc].
Qed.

Lemma getVolume_is_zero_or_audible_witness :
  is_nan (getVolume loud) = false /\
  (0 <=? getVolume loud) = true /\
  (getVolume loud = 0 \/ (MIN_VOLUME_THRESHOLD <=? getVolume loud) = true).
Proof.
  apply getVolume_is_zero_or_audible; [discriminate | vm_compute; reflexivity].
Defined.

Lemma Prim2SF_smoothing : Prim2SF 0.3 = S754_finite false 5404319552844595 (-54).
Proof. reflexivity. Qed.

Lemma Prim2SF_retained : Prim2SF (1 - 0.3) = S754_finite false 6305039478318694 (-53).
Proof. reflexivity. Qed.

(** The smoothed volume of two numbers that are not negative. *)
Lemma smoothed_nonneg iv prev :
  nonneg iv -> nonneg prev -> nonneg (0.3 * iv + (1 - 0.3) * prev).
Proof.
  intros Hi Hp. apply add_nonneg.
  - exact (mul_const_nonneg _ _ _ _ Prim2SF_smoothing Hi).
  - exact (mul_const_nonneg _ _ _ _ Prim2SF_retained Hp).
Qed.

Lemma update_volume_fields s levels t :
  analyser s = true ->
  let v := smoothing s * getVolume levels + (1 - smoothing s) * prevVolume s in
  volume (_updateAnalysis s levels t) = v /\
  prevVolume (_updateAnalysis s levels t) = v /\
  immediateVolume (_updateAnalysis s levels t) = getVolume levels /\
  smoothing (_updateAnalysis s levels t) = smoothing s /\
  analyser (_updateAnalysis s levels t) = true.
Proof.
  intros Ha v. unfold _updateAnalysis. rewrite Ha. cbn [negb]. fold v.
  destruct (v <? DISABLE_AT_VOLUME_THRESHOLD).
  - destruct t as [tv|]; [destruct (lastSeenVolume s) as [seen|];
      [destruct (JS.truthy tv && JS.truthy seen && (seen <? tv - DISABLE_GRACE_PERIOD_MS))|]|];
      repeat split.
  - repeat split.
Qed.

Lemma in_range_initial : in_range initial.
Proof.
  unfold in_range, initial. cbn [smoothing volume prevVolume immediateVolume].
  split; [reflexivity|]. repeat (split; [exact zero_nonneg|]). now left.
Qed.

Lemma in_range_update s levels t :
  filled levels -> in_range s -> in_range (_updateAnalysis s levels t).
Proof.
  intros Hf H. destruct (analyser s) eqn:Ha.
  - destruct (update_volume_fields s levels t Ha) as (Hv & Hp & Hi & Hs & _).
    destruct H as (Sm & _ & Np & _ & _). destruct (getVolume_range levels Hf) as [Ng Hc].
    unfold in_range. rewrite Hv, Hp, Hi, Hs, Sm.
    pose proof (smoothed_nonneg _ _ Ng Np) as Hn.
    split; [reflexivity|]. split; [exact Hn|]. split; [exact Hn|]. split; assumption.
  - unfold _updateAnalysis. rewrite Ha. exact H.
Qed.

Lemma in_range_handle s e : fed e -> in_range s -> in_range (handle s e).
Proof.
  intros Hf H. destruct e as [|[t l|l|t l]]; cbn [handle step fed levels_of] in *.
  - destruct H as (H1 & H2 & H3 & H4 & H5). unfold in_range, sound_source_set.
    cbn [smoothing volume prevVolume immediateVolume]. repeat (split; [assumption|]). assumption.
  - unfold tick. destruct (negb _); [now apply in_range_update | assumption].
  - unfold _runScheduledWork. destruct (JS.truthy_flag _); [now apply in_range_update | assumption].
  - now apply in_range_update.
Qed.

Lemma in_range_play events : forall s,
  Forall fed events -> in_range s -> in_range (play s events).
Proof.
  induction events as [|e events IH]; intros s Hf H; [exact H|].
  inversion Hf as [|? ? He Hrest]; subst. cbn [play fold_left].
  apply (IH _ Hrest). now apply in_range_handle.
Qed.

(** X8: As long as every buffer read holds at least one sample, as the 16-sample
    buffers of the component do, the smoothed volume and the immediate
    volume are numbers that are not negative after any events and calls:
    no [NaN] ever enters the smoothing, and the immediate volume is exactly
    0 or at least [MIN_VOLUME_THRESHOLD]. *)
Theorem volumes_stay_numbers (events : list event) :
  Forall fed events ->
  let s := play initial events in
  is_nan (volume s) = false /\ (0 <=? volume s) = true /\
  is_nan (immediateVolume s) = false /\ (0 <=? immediateVolume s) = true /\
  (immediateVolume s = 0 \/ (MIN_VOLUME_THRESHOLD <=? immediateVolume s) = true).
Proof.
  intros Hf s. destruct (in_range_play events initial Hf in_range_initial)
    as (_ & Nv & _ & Ni & Hc). fold s in Nv, Ni, Hc.
  split; [exact (proj1 Nv)|]. split; [now apply leb_of_nonneg|].
  split; [exact (proj1 Ni)|]. split; [now apply leb_of_nonneg | exact Hc].
Qed.

Lemma volumes_stay_numbers_witness :
  let s := play initial [SoundSourceSet; Call (Tick 16 loud); Call (Update None silent)] in
  is_nan (volume s) = false /\ (0 <=? volume s) = true.
Proof.
  intro s.
  assert (Forall fed [SoundSourceSet; Call (Tick 16 loud); Call (Update None silent)]) as Hf.
  { repeat constructor; try discriminate; vm_compute; reflexivity. }
  destruct (volumes_stay_numbers _ Hf) as (H1 & H2 & _). split; assumption.
Defined.

End RangeFacts.

(** * Silence fades the smoothed volume *)

Module FadeFacts.

Import Binary64 Binary64Facts Sign VolumeRange SignFacts RangeFacts NetworkedAudioAnalyser.

Local Open Scope Z_scope.

(** A product with a constant below one is not above the other factor. *)
Lemma mul_fraction_le (x c : float) mc ec :
  Prim2SF c = S754_finite false mc ec -> ec <= 0 -> Zpos mc < 2 ^ (- ec) ->
  nonneg x -> frank (x * c)%float <= frank x.
Proof.
  intros Ec Hec Hmc [Hn Hr].
  destruct (nonneg_rank_cases x Hn Hr) as [[s E]|[E|(m & e & E)]].
  - unfold frank. rewrite mul_spec, E, Ec. cbn [SF64mul SFmul rank]. lia.
  - unfold frank. rewrite mul_spec, E, Ec. cbn [SF64mul SFmul rank xorb]. lia.
  - destruct (mul_finite_value x c m e _ _ E Ec)
      as (m2 & Hb & Hval & Hnan & Hnormal & He1 & HV).
    rewrite Hval.
    pose proof (Prim2SF_valid x) as V. rewrite E in V.
    pose proof (Prim2SF_valid c) as Vc. rewrite Ec in Vc.
    destruct (mul_exponent_ok _ _ _ _ V Vc) as [_ HK].
    destruct (valid_finite _ _ _ V) as (He & _).
    set (e1 := fexp prec emax (Zdigits2 (Zpos (m * mc)) + (e + ec))) in *.
    set (g := 2 ^ (e1 + 2148)) in *.
    set (V0 := Zpos (m * mc) * 2 ^ (e + ec + 2148)) in *.
    assert (V0 < frank x) as Hlt.
    { unfold V0, frank. rewrite E. cbn [rank cond_Zopp]. rewrite Pos2Z.inj_mul.
      replace (e + 2148) with (- ec + (e + ec + 2148)) by lia.
      rewrite (pow2_split (- ec) (e + ec + 2148)) by lia.
      pose proof (pow2_pos (e + ec + 2148) ltac:(lia)) as Hp.
      rewrite !Z.mul_assoc. apply Z.mul_lt_mono_pos_r; [exact Hp|].
      apply Z.mul_lt_mono_pos_l; [reflexivity | exact Hmc]. }
    apply (bracket_upper V0 g e1 m2 (Prim2SF x)); try assumption; try reflexivity.
    + apply Hb.
    + apply Prim2SF_valid.
    + rewrite E. discriminate.
Qed.

(** One product of a normal number with a 53-bit constant [mc / 2^53]
    shrinks it by the factor [(mc + 2) / 2^53] at least. *)
Lemma mul_fraction_geometric (x c : float) m e mc :
  Prim2SF c = S754_finite false mc (-53) -> Zpos mc < 2 ^ 53 ->
  Prim2SF x = S754_finite false m e -> Zpos (digits2_pos m) = 53 ->
  frank (x * c)%float * 2 ^ 53 <= frank x * (Zpos mc + 2).
Proof.
  intros Ec Hmc E Hd.
  destruct (mul_finite_value x c m e _ _ E Ec)
    as (m2 & Hb & Hval & Hnan & Hnormal & He1 & HV).
  pose proof (Prim2SF_valid x) as V. rewrite E in V.
  destruct (valid_finite _ _ _ V) as (He & _).
  rewrite Hval.
  set (P := Zpos (m * mc)) in *.
  set (e1 := fexp prec emax (Zdigits2 P + (e + -53))) in *.
  set (g := 2 ^ (e1 + 2148)) in *.
  set (V0 := P * 2 ^ (e + -53 + 2148)) in *.
  pose proof (pow2_pos (e1 + 2148) ltac:(lia)) as Hg. fold g in Hg.
  destruct (digits2_pos_bounds m) as [Hl Hu]. rewrite Hd in Hl, Hu.
  assert (Zdigits2 P <= 106) as HdP.
  { destruct (Zdigits2_bounds P ltac:(unfold P; lia)) as [HlP _].
    assert (P < 2 ^ 106).
    { unfold P. rewrite Pos2Z.inj_mul. change (2 ^ 106) with (2 ^ 53 * 2 ^ 53).
      apply Z.mul_lt_mono_nonneg; lia. }
    destruct (Z_le_gt_dec (Zdigits2 P) 106) as [|Hgt]; [assumption|].
    assert (2 ^ 106 <= 2 ^ (Zdigits2 P - 1)) by (apply Z.pow_le_mono_r; lia). lia. }
  assert (e1 <= e) as He1e by (unfold e1; rewrite fexp_eq; lia).
  assert (g <= 2 ^ (e + 2148)) as Hge by (unfold g; apply Z.pow_le_mono_r; lia).
  pose proof (pow2_pos (e + 2148) ltac:(lia)) as Hpe.
  assert (frank x = Zpos m * 2 ^ (e + 2148)) as Hfx by (unfold frank; rewrite E; reflexivity).
  assert (V0 * 2 ^ 53 = frank x * Zpos mc) as HV0.
  { rewrite Hfx. unfold V0, P. rewrite Pos2Z.inj_mul.
    replace (e + 2148) with (e + -53 + 2148 + 53) by lia.
    rewrite (pow2_split (e + -53 + 2148) 53) by lia. ring. }
  pose proof (Z.mul_div_le V0 g Hg) as Hfloor.
  assert (Z.min (m2 * g) (2 ^ 3172) <= V0 + g) as Hq.
  { apply Z.le_trans with (m2 * g); [apply Z.le_min_l|].
    assert (m2 * g <= (V0 / g + 1) * g) as Hm by (apply Z.mul_le_mono_nonneg_r; lia).
    rewrite Z.mul_add_distr_r in Hm. lia. }
  assert (2 ^ 53 * g <= 2 * frank x) as Hulp.
  { rewrite Hfx. change (53 - 1) with 52 in Hl.
    assert (2 ^ 52 * g <= Zpos m * 2 ^ (e + 2148)) by (apply Z.mul_le_mono_nonneg; lia).
    change (2 ^ 53) with (2 * 2 ^ 52). lia. }
  assert (Z.min (m2 * g) (2 ^ 3172) * 2 ^ 53 <= (V0 + g) * 2 ^ 53) as Hscaled
    by (apply Z.mul_le_mono_nonneg_r; lia).
  rewrite Z.mul_add_distr_r, HV0 in Hscaled. lia.
Qed.

Lemma frank_disable : frank DISABLE_AT_VOLUME_THRESHOLD = disable_rank.
Proof. reflexivity. Qed.

Lemma frank_min_volume_rank : 2 ^ 2141 <= frank MIN_VOLUME_THRESHOLD.
Proof. vm_compute. discriminate. Qed.

Lemma frank_one : frank 1%float = 2 ^ 2148.
Proof. reflexivity. Qed.

(** The smoothed volume after a buffer of silence: it is not negative, not
    above the previous one, and a previous volume at or above the disable
    threshold shrinks by the factor 0.7 (up to rounding). *)
Lemma faded_volume (prev : float) :
  nonneg prev ->
  nonneg (0.3 * 0 + (1 - 0.3) * prev)%float /\
  frank (0.3 * 0 + (1 - 0.3) * prev)%float <= frank prev /\
  (disable_rank <= frank prev < 2 ^ 3172 ->
   frank (0.3 * 0 + (1 - 0.3) * prev)%float * 2 ^ 53
   <= frank prev * (6305039478318694 + 2)).
Proof.
  intro Hp. change (0.3 * 0)%float with 0%float.
  pose proof (mul_const_nonneg _ _ _ _ Prim2SF_retained Hp) as Hm.
  destruct (add_zero_l _ (proj1 Hm)) as [Hn Hr].
  split; [split; [exact Hn | rewrite Hr; exact (proj2 Hm)]|].
  rewrite Hr, (mul_comm (1 - 0.3) prev).
  split.
  - apply (mul_fraction_le prev (1 - 0.3) _ _ Prim2SF_retained);
      [discriminate | reflexivity | exact Hp].
  - intros [Hlo Hfin]. destruct Hp as [Hnan Hge].
    assert (0 < disable_rank) as Hd by reflexivity.
    destruct (nonneg_rank_cases prev Hnan Hge) as [[sg Ez]|[Ei|(m & e & Ef)]].
    + exfalso. unfold frank in Hlo. rewrite Ez in Hlo. cbn [rank] in Hlo. lia.
    + exfalso. unfold frank in Hfin. rewrite Ei in Hfin. cbn [rank cond_Zopp] in Hfin. lia.
    + apply (mul_fraction_geometric prev (1 - 0.3) m e _ Prim2SF_retained);
        [reflexivity | exact Ef |].
      pose proof (Prim2SF_valid prev) as V. rewrite Ef in V.
      destruct (valid_finite _ _ _ V) as (He & Hdig & Hnormal).
      apply Hnormal.
      destruct (Z.eq_dec e (-1074)) as [->|]; [exfalso|lia].
      unfold frank in Hlo. rewrite Ef in Hlo. cbn [rank cond_Zopp] in Hlo.
      destruct (digits2_pos_bounds m) as [_ Hu].
      assert (2 ^ Zpos (digits2_pos m) <= 2 ^ 53) as H53 by (apply Z.pow_le_mono_r; lia).
      assert (2 ^ 53 * 2 ^ (-1074 + 2148) < disable_rank) as Hsmall by (vm_compute; reflexivity).
      pose proof (pow2_pos (-1074 + 2148) ltac:(lia)) as Hp.
      assert (Zpos m * 2 ^ (-1074 + 2148) < 2 ^ 53 * 2 ^ (-1074 + 2148))
        by (apply Z.mul_lt_mono_pos_r; lia).
      lia.
Qed.

Lemma fading_step s c :
  fading s -> still_update c ->
  fading (step s c) /\
  frank (volume (step s c)) <= frank (volume s) /\
  (disable_rank <= frank (volume s) ->
   frank (volume (step s c)) * 2 ^ 53 <= frank (volume s) * (6305039478318694 + 2)).
Proof.
  intros (Ha & Hs & Hp & Hn & Hfin) Hc.
  destruct c as [t l|l|t l]; try contradiction. destruct Hc as [[Hne Hlen] Hall].
  cbn [step].
  destruct (update_volume_fields s l t Ha) as (Hv & Hpv & _ & Hsm & Han).
  rewrite (VolumeFacts.getVolume_silent l Hne Hlen Hall), Hs, Hp in Hv, Hpv.
  destruct (faded_volume (volume s) Hn) as (Hn' & Hle & Hgeo).
  unfold fading. rewrite Hv, Hpv, Hsm, Han.
  split; [|split; [exact Hle | intro Hlo; apply Hgeo; split; assumption]].
  split; [reflexivity|]. split; [exact Hs|]. split; [reflexivity|]. split; [exact Hn'|].
  apply Z.le_lt_trans with (frank (volume s)); assumption.
Qed.

Lemma fading_run calls : forall s,
  fading s -> Forall still_update calls ->
  fading (run s calls) /\
  frank (volume (run s calls)) <= frank (volume s) /\
  (frank (volume (run s calls)) < disable_rank \/
   frank (volume (run s calls)) * 2 ^ (53 * Z.of_nat (List.length calls))
   <= frank (volume s) * (6305039478318694 + 2) ^ Z.of_nat (List.length calls)).
Proof.
  induction calls as [|c rest IH]; intros s Hf Hall.
  - cbn [run fold_left List.length]. split; [exact Hf|]. split; [apply Z.le_refl|].
    right. change (Z.of_nat 0) with 0. rewrite Z.mul_0_r, !Z.pow_0_r. apply Z.le_refl.
  - inversion Hall as [|? ? Hc Hrest]; subst.
    destruct (fading_step s c Hf Hc) as (Hf1 & Hle1 & Hgeo1).
    destruct (IH (step s c) Hf1 Hrest) as (Hf2 & Hle2 & Hgeo2).
    cbn [run fold_left]. fold (run (step s c) rest).
    split; [exact Hf2|]. split; [exact (Z.le_trans _ _ _ Hle2 Hle1)|].
    destruct (Z_lt_le_dec (frank (volume s)) disable_rank) as [Hlow|Hhigh].
    { left. apply Z.le_lt_trans with (frank (volume s)); [|exact Hlow].
      exact (Z.le_trans _ _ _ Hle2 Hle1). }
    destruct Hgeo2 as [Hlt|Hg2]; [now left | right].
    specialize (Hgeo1 Hhigh).
    set (n := List.length rest) in *.
    change (List.length (c :: rest)) with (S n).
    rewrite Nat2Z.inj_succ. unfold Z.succ.
    rewrite Z.mul_add_distr_l, Z.mul_1_r.
    rewrite !Z.pow_add_r by lia. rewrite Z.pow_1_r.
    pose proof (pow2_pos (53 * Z.of_nat n) ltac:(lia)) as Hpp.
    assert (0 < (6305039478318694 + 2) ^ Z.of_nat n) as Hq by (apply Z.pow_pos_nonneg; lia).
    revert Hg2 Hgeo1 Hpp Hq.
    generalize (frank (volume (run (step s c) rest))) as a.
    generalize (frank (volume (step s c))) as b.
    generalize (frank (volume s)) as c0.
    generalize (2 ^ (53 * Z.of_nat n)) as p.
    generalize ((6305039478318694 + 2) ^ Z.of_nat n) as q.
    intros q p c0 b a Hg2 Hgeo1 Hpp Hq.
    assert (a * p * 2 ^ 53 <= b * q * 2 ^ 53) by (apply Z.mul_le_mono_nonneg_r; lia).
    assert (b * 2 ^ 53 * q <= c0 * (6305039478318694 + 2) * q)
      by (apply Z.mul_le_mono_nonneg_r; lia).
    lia.
Qed.

(** Past [n0] updates, a start value of at most [B] units has fallen below
    the disable threshold. *)
Lemma below_disable_from B n0 :
  0 <= B ->
  B * (6305039478318694 + 2) ^ Z.of_nat n0 < disable_rank * 2 ^ (53 * Z.of_nat n0) ->
  forall n, (n0 <= n)%nat ->
  B * (6305039478318694 + 2) ^ Z.of_nat n < disable_rank * 2 ^ (53 * Z.of_nat n).
Proof.
  intros HB H0 n Hn. induction Hn as [|n Hn IH]; [assumption|].
  rewrite Nat2Z.inj_succ. unfold Z.succ. rewrite Z.mul_add_distr_l, Z.mul_1_r.
  rewrite !Z.pow_add_r by lia. rewrite Z.pow_1_r.
  pose proof (pow2_pos (53 * Z.of_nat n) ltac:(lia)) as Hp.
  assert (0 < (6305039478318694 + 2) ^ Z.of_nat n) as Hc by (apply Z.pow_pos_nonneg; lia).
  assert (0 < disable_rank) as Hd by reflexivity.
  assert (6305039478318694 + 2 < 2 ^ 53) as Hq by reflexivity.
  revert IH Hp Hc Hd. generalize disable_rank as T.
  generalize (2 ^ (53 * Z.of_nat n)) as p.
  generalize ((6305039478318694 + 2) ^ Z.of_nat n) as q.
  intros q p T IH Hp Hc Hd.
  assert (B * q * (6305039478318694 + 2) <= B * q * 2 ^ 53)
    by (apply Z.mul_le_mono_nonneg_l; [apply Z.mul_nonneg_nonneg; lia | lia]).
  assert (B * q * 2 ^ 53 < T * p * 2 ^ 53) by (apply Z.mul_lt_mono_pos_r; lia).
  lia.
Qed.

Lemma bound_disable :
  2 ^ 2148 * (6305039478318694 + 2) ^ Z.of_nat 33 < disable_rank * 2 ^ (53 * Z.of_nat 33).
Proof. vm_compute. reflexivity. Qed.

Lemma fading_run_below s calls :
  fading s -> frank (volume s) <= 2 ^ 2148 -> Forall still_update calls ->
  (33 <= List.length calls)%nat ->
  frank (volume (run s calls)) < disable_rank.
Proof.
  intros Hf HB Hall Hlen.
  destruct (fading_run calls s Hf Hall) as (_ & _ & [Hlow|Hg]); [exact Hlow|].
  destruct Hf as (_ & _ & _ & Hn & _).
  pose proof (below_disable_from (2 ^ 2148) 33 ltac:(apply Z.pow_nonneg; lia)
                bound_disable _ Hlen) as Hb.
  set (n := Z.of_nat (List.length calls)) in *.
  pose proof (pow2_pos (53 * n) ltac:(lia)) as Hpp.
  assert (0 < (6305039478318694 + 2) ^ n) as Hq by (apply Z.pow_pos_nonneg; lia).
  assert (frank (volume s) * (6305039478318694 + 2) ^ n
          <= 2 ^ 2148 * (6305039478318694 + 2) ^ n) as Hm
    by (apply Z.mul_le_mono_nonneg_r; [apply Z.lt_le_incl; exact Hq | exact HB]).
  apply (Z.mul_lt_mono_pos_r (2 ^ (53 * n))); [exact Hpp|].
  exact (Z.le_lt_trans _ _ _ Hg (Z.le_lt_trans _ _ _ Hm Hb)).
Qed.

Lemma fading_intro s :
  analyser s = true -> smoothing s = 0.3%float -> prevVolume s = volume s ->
  (0 <=? volume s)%float = true -> (volume s <=? 1)%float = true ->
  fading s /\ frank (volume s) <= 2 ^ 2148.
Proof.
  intros Ha Hs Hp H0 H1.
  pose proof (nonneg_of_leb _ H0) as Hn.
  assert (frank (volume s) <= 2 ^ 2148) as HB.
  { rewrite leb_rank in H1 by (exact (proj1 Hn) || reflexivity).
    rewrite frank_one in H1. now apply Z.leb_le. }
  assert (2 ^ 2148 < 2 ^ 3172) as Hlt by (apply Z.pow_lt_mono_r; lia).
  split; [|exact HB].
  unfold fading. repeat (split; [assumption|]).
  revert HB Hlt. generalize (2 ^ 2148) (2 ^ 3172). intros. lia.
Qed.

(** X9: Silence fades the smoothed volume. From a state with an analyser whose
    smoothed volume is a number between 0 and 1, any run of updates on
    buffers of silence never raises the volume, and after 33 of them the
    volume is below [DISABLE_AT_VOLUME_THRESHOLD], so that the quiet test of
    [_updateAnalysis] applies from then on. *)
Theorem silence_fades_below_threshold (s : state) (calls : list call) :
  analyser s = true -> smoothing s = 0.3%float -> prevVolume s = volume s ->
  (0 <=? volume s)%float = true -> (volume s <=? 1)%float = true ->
  Forall still_update calls ->
  (volume (run s calls) <=? volume s)%float = true /\
  ((33 <= List.length calls)%nat ->
   (volume (run s calls) <? DISABLE_AT_VOLUME_THRESHOLD)%float = true).
Proof.
  intros Ha Hs Hp H0 H1 Hall.
  destruct (fading_intro s Ha Hs Hp H0 H1) as [Hf HB].
  pose proof (nonneg_of_leb _ H0) as Hn.
  destruct (fading_run calls s Hf Hall) as ((_ & _ & _ & Hn' & _) & Hle & _).
  split.
  - rewrite leb_rank by (exact (proj1 Hn') || exact (proj1 Hn)). now apply Z.leb_le.
  - intro Hlen. rewrite ltb_rank by (exact (proj1 Hn') || reflexivity).
    rewrite frank_disable. apply Z.ltb_lt.
    exact (fading_run_below s calls Hf HB Hall Hlen).
Qed.

Lemma silence_fades_below_threshold_witness :
  let s := mkState 1 1 1 0.3 true (Some false) (Some 16%float) in
  (volume (run s (repeat (Update None silent) 33)) <? DISABLE_AT_VOLUME_THRESHOLD)%float = true /\
  (volume (run s (repeat (Update None silent) 32)) <? DISABLE_AT_VOLUME_THRESHOLD)%float = false.
Proof.
  intro s. split; [|vm_compute; reflexivity].
  apply (silence_fades_below_threshold s (repeat (Update None silent) 33));
    try reflexivity.
  repeat constructor; try discriminate;
    intros b Hb; repeat (destruct Hb as [Hb|Hb]; [now symmetry|]); destruct Hb.
Defined.

End FadeFacts.

(** * The icon and the subscription of the [mic-button] *)

Module IconFacts.

Import Binary64 Binary64Facts Sign SignFacts RangeFacts FadeFacts MicButton MicIcon.

Lemma level_of_cases volume loudest :
  In (level_of volume loudest) [1; 2; 3; 4; 5; 7]%nat.
Proof.
  unfold level_of.
  repeat match goal with |- context [if ?b then _ else _] => destruct b end;
    cbn; tauto.
Qed.

Lemma level_image level :
  In level [1; 2; 3; 4; 5; 7]%nat ->
  In (nth level micLevels ""%string) images /\ nth level micLevels ""%string <> ""%string.
Proof.
  intro H. cbn in H.
  repeat (destruct H as [<-|H]; [split; [cbn; tauto | discriminate]|]). destruct H.
Qed.

(** After a tick against a present analyser, [prevImage] is the image of
    the level of that tick, and an image is handed to [setAttribute]
    exactly when it differs from the previous one. *)
Lemma tick_image self s (visible : bool) a :
  let a' := if visible then LocalAudioAnalyser.subscribe a self
            else LocalAudioAnalyser.unsubscribe a self in
  let e := envelope s (LocalAudioAnalyser.immediateVolume a') in
  let newimage := nth (level_of (snd e) (snd (fst e))) micLevels ""%string in
  prevImage (fst (fst (tick self s visible (Some a)))) = newimage /\
  snd (tick self s visible (Some a)) =
    (if String.eqb newimage (prevImage s) then @None string else Some newimage) /\
  snd (fst (tick self s visible (Some a))) = Some a'.
Proof.
  intros a' e newimage. unfold tick. fold a'. fold e.
  destruct e as [[d l] v] eqn:E. cbn [fst snd] in newimage. fold newimage.
  destruct (String.eqb newimage (prevImage s)) eqn:Eq; cbn [negb fst snd prevImage].
  - apply String.eqb_eq in Eq. split; [now symmetry | split; reflexivity].
  - split; [reflexivity | split; reflexivity].
Qed.

Lemma tick_icon_shown self st f :
  (snd st = Some (prevImage (fst st)) \/ prevImage (fst st) = ""%string) ->
  snd (tick_icon self st f) = Some (prevImage (fst (tick_icon self st f))) /\
  In (prevImage (fst (tick_icon self st f))) images.
Proof.
  intro H. unfold tick_icon.
  destruct (tick_image self (fst st) (fst f) (snd f)) as (Hp & He & _).
  destruct (tick self (fst st) (fst f) (Some (snd f))) as [[s' a'] emitted].
  cbn [fst snd] in *. rewrite He, Hp.
  match goal with |- context [nth ?l micLevels _] =>
    destruct (level_image l (level_of_cases _ _)) as [Hin Hne]; set (img := nth l micLevels ""%string) in * end.
  split; [|exact Hin].
  destruct (String.eqb img (prevImage (fst st))) eqn:Eq; cbn [show]; [|reflexivity].
  apply String.eqb_eq in Eq. destruct H as [H|H]; [now rewrite H, Eq|].
  exfalso. apply Hne. now rewrite Eq.
Qed.

Lemma run_icon_shown self frames : forall st,
  (snd st = Some (prevImage (fst st)) \/ prevImage (fst st) = ""%string) ->
  frames <> [] ->
  snd (run_icon self st frames) = Some (prevImage (fst (run_icon self st frames))) /\
  In (prevImage (fst (run_icon self st frames))) images.
Proof.
  induction frames as [|f rest IH]; intros st H Hne; [congruence|].
  cbn [run_icon fold_left]. fold (run_icon self (tick_icon self st f) rest).
  destruct (tick_icon_shown self st f H) as [H1 H2].
  destruct rest as [|g rest']; [cbn [run_icon fold_left]; now split|].
  apply IH; [now left | discriminate].
Qed.

Lemma run_icon_state self frames : forall st,
  fst (run_icon self st frames) = run self (fst st) frames.
Proof.
  induction frames as [|f rest IH]; intro st; [reflexivity|].
  cbn [run_icon run fold_left]. fold (run_icon self (tick_icon self st f) rest).
  fold (run self (tick_state self (fst st) f) rest). rewrite IH. f_equal.
  unfold tick_icon, tick_state.
  destruct (tick self (fst st) (fst f) (Some (snd f))) as [[s' a'] emitted]. reflexivity.
Qed.

(** X10: Whatever the attribute held before, after any one or more ticks of a
    fresh button against a present analyser the "icon-button" image is the
    one stored in [prevImage], and it is one of the six image files: the
    calls of [setAttribute] that the button skips never leave the icon out
    of date. *)
Theorem icon_is_never_out_of_date (self : LocalAudioAnalyser.listener)
    (icon : option string) (frames : list frame) :
  frames <> [] ->
  let st := run_icon self (initial, icon) frames in
  fst st = run self initial frames /\
  snd st = Some (prevImage (fst st)) /\
  In (prevImage (fst st)) images.
Proof.
  intros Hne st. split; [apply run_icon_state|].
  apply run_icon_shown; [now right | exact Hne].
Qed.

Lemma icon_is_never_out_of_date_witness :
  snd (run_icon 3%nat (initial, Some "mic-level-1.png"%string)
         [(true, LocalAudioAnalyser.initial); (false, LocalAudioAnalyser.initial)])
  = Some "mic-level-7.png"%string.
Proof.
  destruct (icon_is_never_out_of_date 3%nat (Some "mic-level-1.png"%string)
              [(true, LocalAudioAnalyser.initial); (false, LocalAudioAnalyser.initial)])
    as (_ & H & _); [discriminate|].
  rewrite H. reflexivity.
Defined.

(** X11: A visible button is among the subscribers of the analyser after its
    tick; a hidden one is not, provided the array held no listener twice
    (which [subscribe] guarantees); and the other subscribers are the same
    as before either way. *)
Theorem button_subscribes_while_visible (self : LocalAudioAnalyser.listener)
    (s : state) (visible : bool) (a : LocalAudioAnalyser.state) :
  NoDup (LocalAudioAnalyser.subscribers a) ->
  exists a',
    snd (fst (tick self s visible (Some a))) = Some a' /\
    NoDup (LocalAudioAnalyser.subscribers a') /\
    (In self (LocalAudioAnalyser.subscribers a') <-> visible = true) /\
    (forall other, other <> self ->
       (In other (LocalAudioAnalyser.subscribers a') <->
        In other (LocalAudioAnalyser.subscribers a))) /\
    LocalAudioAnalyser.immediateVolume a' = LocalAudioAnalyser.immediateVolume a.
Proof.
  intro Hnd. destruct (tick_image self s visible a) as (_ & _ & Ha).
  eexists. split; [exact Ha|]. destruct visible.
  - split; [now apply SubscriptionFacts.subscribe_NoDup|].
    split; [|split].
    + rewrite SubscriptionFacts.subscribe_In. intuition.
    + intros other Ho. rewrite SubscriptionFacts.subscribe_In. intuition.
    + apply (EnvelopeFacts.heard_after_subscription true).
  - split; [now apply SubscriptionFacts.unsubscribe_NoDup|].
    split; [|split].
    + rewrite SubscriptionFacts.unsubscribe_In by assumption. intuition discriminate.
    + intros other Ho. rewrite SubscriptionFacts.unsubscribe_In by assumption. intuition.
    + apply (EnvelopeFacts.heard_after_subscription false).
Qed.

Lemma button_subscribes_while_visible_witness :
  exists a',
    snd (fst (tick 3%nat initial false
                (Some (LocalAudioAnalyser.set_subscribers LocalAudioAnalyser.initial [1; 3; 5]%nat))))
      = Some a' /\
    ~ In 3%nat (LocalAudioAnalyser.subscribers a').
Proof.
  destruct (button_subscribes_while_visible 3%nat initial false
              (LocalAudioAnalyser.set_subscribers LocalAudioAnalyser.initial [1; 3; 5]%nat))
    as (a' & Ha & _ & Hin & _).
  - repeat constructor; cbn; intuition discriminate.
  - exists a'. split; [exact Ha|]. intro H. apply Hin in H. discriminate.
Defined.

End IconFacts.

(** * The two ends of the level ladder *)

Module LadderFacts.

Import Binary64 Binary64Facts Sign SignFacts RangeFacts FadeFacts MicButton MicIcon IconFacts.

Local Open Scope Z_scope.

Lemma Prim2SF_tenth : Prim2SF 0.1 = S754_finite false 7205759403792794 (-56).
Proof. reflexivity. Qed.

Lemma Prim2SF_fifth : Prim2SF 0.2 = S754_finite false 7205759403792794 (-55).
Proof. reflexivity. Qed.

Lemma Prim2SF_045 : Prim2SF 0.45 = S754_finite false 8106479329266893 (-54).
Proof. reflexivity. Qed.

Lemma Prim2SF_06 : Prim2SF 0.6 = S754_finite false 5404319552844595 (-53).
Proof. reflexivity. Qed.

(** A rung of the ladder: the peak times a constant below one is not above
    a volume that reaches the peak. *)
Lemma rung_not_above (volume loudest c : float) mc ec :
  Prim2SF c = S754_finite false mc ec -> ec <= 0 -> Zpos mc < 2 ^ (- ec) ->
  nonneg loudest -> is_nan volume = false -> frank loudest <= frank volume ->
  (volume <? loudest * c)%float = false.
Proof.
  intros Ec Hec Hmc Hl Hv Hle.
  pose proof (mul_const_nonneg c loudest mc ec Ec Hl) as [Hn _].
  rewrite (mul_comm c loudest) in Hn.
  rewrite ltb_rank by assumption. apply Z.ltb_ge.
  apply Z.le_trans with (frank loudest); [|exact Hle].
  exact (mul_fraction_le loudest c mc ec Ec Hec Hmc Hl).
Qed.

Lemma level_of_at_peak (volume loudest : float) :
  nonneg loudest -> is_nan volume = false -> frank loudest <= frank volume ->
  level_of volume loudest = 7%nat.
Proof.
  intros Hl Hv Hle. unfold level_of.
  rewrite (rung_not_above volume loudest 0.1 _ _ Prim2SF_tenth)
    by (assumption || discriminate || reflexivity).
  rewrite (rung_not_above volume loudest 0.2 _ _ Prim2SF_fifth)
    by (assumption || discriminate || reflexivity).
  rewrite (rung_not_above volume loudest 0.45 _ _ Prim2SF_045)
    by (assumption || discriminate || reflexivity).
  rewrite (rung_not_above volume loudest 0.6 _ _ Prim2SF_06)
    by (assumption || discriminate || reflexivity).
  rewrite (rung_not_above volume loudest 0.8 _ _ Prim2SF_decay)
    by (assumption || discriminate || reflexivity).
  reflexivity.
Qed.

Lemma tick_state_image self s f :
  prevImage (tick_state self s f) =
  nth (level_of (snd (envelope s (heard f))) (snd (fst (envelope s (heard f)))))
      micLevels ""%string.
Proof.
  unfold tick_state. destruct (tick_image self s (fst f) (snd f)) as (Hp & _ & _).
  rewrite Hp, (EnvelopeFacts.heard_after_subscription (fst f)). reflexivity.
Qed.

(** X12: Whenever the input rises above the envelope and reaches the loudest
    volume heard so far, the button shows its top image, level 7. *)
Theorem new_peak_shows_level_7 (self : LocalAudioAnalyser.listener)
    (frames : list frame) (f : frame) :
  let s := run self initial frames in
  (decayingVolume s <? heard f)%float = true ->
  (loudest s <=? heard f)%float = true ->
  prevImage (tick_state self s f) = "mic-level-7.png"%string.
Proof.
  intros s Hv Hp.
  destruct (EnvelopeFacts.Inv_run self frames initial EnvelopeFacts.Inv_initial)
    as (_ & Hd & Hl & Hr). fold s in Hd, Hl, Hr.
  destruct (ltb_true_not_nan _ _ Hv) as [_ Hn].
  rewrite tick_state_image. unfold envelope. rewrite Hv. cbn [fst snd].
  destruct (Math_max_rank (loudest s) (heard f) Hl Hn) as [Hmn Hmr].
  rewrite leb_rank in Hp by assumption. apply Z.leb_le in Hp.
  rewrite level_of_at_peak; [reflexivity | | exact Hn |].
  - split; [exact Hmn|]. rewrite Hmr. lia.
  - rewrite Hmr. lia.
Qed.

Lemma new_peak_shows_level_7_witness :
  prevImage (tick_state 3%nat (run 3%nat initial [])
               (true, LocalAudioAnalyser.mkState 0 0 0.3 0.5 []))
  = "mic-level-7.png"%string.
Proof.
  apply (new_peak_shows_level_7 3%nat [] (true, LocalAudioAnalyser.mkState 0 0 0.3 0.5 []));
    reflexivity.
Defined.

(** A tenth of a number that is at least [MIN_VOLUME_THRESHOLD] is above
    zero: the product does not underflow. *)
Lemma tenth_positive (x : float) :
  is_nan x = false -> frank MIN_VOLUME_THRESHOLD <= frank x ->
  is_nan (x * 0.1)%float = false /\ 0 < frank (x * 0.1)%float.
Proof.
  intros Hn Hge. pose proof frank_min_volume_rank as Hmin.
  assert (0 < 2 ^ 2141) as H2141 by (apply pow2_pos; lia).
  assert (0 < 2 ^ 3172) as Hinf by (apply pow2_pos; lia).
  assert (0 <= frank x) as H0.
  { revert Hge Hmin H2141. generalize (2 ^ 2141) (frank MIN_VOLUME_THRESHOLD). intros; lia. }
  destruct (nonneg_rank_cases x Hn H0) as [[s E]|[E|(m & e & E)]].
  - exfalso. unfold frank in Hge at 2. rewrite E in Hge. cbn [rank] in Hge.
    revert Hge Hmin H2141. generalize (2 ^ 2141) (frank MIN_VOLUME_THRESHOLD). intros; lia.
  - assert (Prim2SF (x * 0.1)%float = S754_infinity false) as H
      by (rewrite mul_spec, E, Prim2SF_tenth; reflexivity).
    split; [apply not_nan_Prim2SF; rewrite H; discriminate|].
    unfold frank. rewrite H. cbn [rank cond_Zopp]. exact Hinf.
  - destruct (mul_finite_value x 0.1%float m e _ _ E Prim2SF_tenth)
      as (m2 & Hb & Hval & Hnan & Hnormal & He1 & HV).
    split; [exact Hnan|]. rewrite Hval.
    pose proof (Prim2SF_valid x) as V. rewrite E in V.
    destruct (valid_finite _ _ _ V) as (He & _).
    set (P := Zpos (m * 7205759403792794)) in *.
    set (e1 := fexp prec emax (Zdigits2 P + (e + -56))) in *.
    set (g := 2 ^ (e1 + 2148)) in *.
    pose proof (pow2_pos (e1 + 2148) ltac:(lia)) as Hg. fold g in Hg.
    assert (-1074 < e1) as Hnorm.
    { destruct (Z_lt_le_dec (-1074) e1) as [|Hsub]; [assumption|exfalso].
      assert (Zdigits2 P + e <= -965) as Hd by (unfold e1 in Hsub; rewrite fexp_eq in Hsub; lia).
      destruct (Zdigits2_bounds P ltac:(unfold P; lia)) as [_ HuP].
      pose proof (Zdigits2_pos P ltac:(unfold P; lia)) as HdP.
      assert (Zpos m * 2 ^ 52 <= P) as HmP.
      { unfold P. rewrite Pos2Z.inj_mul. apply Z.mul_le_mono_nonneg_l; [lia|].
        vm_compute. discriminate. }
      assert (frank x = Zpos m * 2 ^ (e + 2148)) as Hfx by (unfold frank; rewrite E; reflexivity).
      pose proof (pow2_pos (e + 2148) ltac:(lia)) as Hpe.
      assert (frank x * 2 ^ 52 < 2 ^ (Zdigits2 P + (e + 2148))) as Hup.
      { rewrite (pow2_split (Zdigits2 P) (e + 2148)) by lia. rewrite Hfx.
        replace (Zpos m * 2 ^ (e + 2148) * 2 ^ 52) with (Zpos m * 2 ^ 52 * 2 ^ (e + 2148)) by ring.
        apply Z.mul_lt_mono_pos_r; [exact Hpe | lia]. }
      assert (2 ^ (Zdigits2 P + (e + 2148)) <= 2 ^ 2141) as Hsmall
        by (apply Z.pow_le_mono_r; lia).
      assert (frank x <= frank x * 2 ^ 52) as Hgrow.
      { rewrite <- (Z.mul_1_r (frank x)) at 1. apply Z.mul_le_mono_nonneg_l; [exact H0|].
        vm_compute. discriminate. }
      revert Hge Hmin Hup Hsmall Hgrow.
      generalize (2 ^ 2141) (frank MIN_VOLUME_THRESHOLD) (frank x * 2 ^ 52)
                 (2 ^ (Zdigits2 P + (e + 2148))) (frank x).
      intros. lia. }
    specialize (Hnormal Hnorm).
    assert (0 < m2) as Hm2.
    { apply Z.lt_le_trans with (2 ^ 52); [reflexivity|]. apply Z.le_trans with (1 := Hnormal).
      apply Hb. }
    apply Z.min_glb_lt; [apply Z.mul_pos_pos; assumption | exact Hinf].
Qed.

(** X13: Once a volume of at least [MIN_VOLUME_THRESHOLD] has been the peak,
    a tick that finds no louder input and a decayed envelope (its product
    with the smoothing factor is below 0.001) shows the bottom image,
    level 1. *)
Theorem silence_after_sound_shows_level_1 (self : LocalAudioAnalyser.listener)
    (frames : list frame) (f : frame) :
  let s := run self initial frames in
  (decayingVolume s <? heard f)%float = false ->
  (decayingVolume s * smoothing s <? 0.001)%float = true ->
  (MIN_VOLUME_THRESHOLD <=? loudest s)%float = true ->
  prevImage (tick_state self s f) = "mic-level-1.png"%string /\
  decayingVolume (tick_state self s f) = 0%float.
Proof.
  intros s Hv Hd Hp.
  destruct (EnvelopeFacts.Inv_run self frames initial EnvelopeFacts.Inv_initial)
    as (_ & _ & Hl & _). fold s in Hl.
  split.
  - rewrite tick_state_image. unfold envelope. rewrite Hv, Hd. cbn [fst snd].
    rewrite leb_rank in Hp by (reflexivity || assumption). apply Z.leb_le in Hp.
    destruct (tenth_positive (loudest s) Hl Hp) as [Hn Hpos].
    unfold level_of. rewrite ltb_rank by (reflexivity || assumption). rewrite frank_zero.
    apply Z.ltb_lt in Hpos. rewrite Hpos. reflexivity.
  - destruct (EnvelopeFacts.tick_state_release self s f Hv) as (_ & -> & _).
    rewrite Hd. reflexivity.
Qed.

Lemma silence_after_sound_shows_level_1_witness :
  let frames :=
    (true, LocalAudioAnalyser.mkState 0 0 0.3 0.02 [])
    :: repeat (true, LocalAudioAnalyser.initial) 13 in
  prevImage (tick_state 3%nat (run 3%nat initial frames) (true, LocalAudioAnalyser.initial))
  = "mic-level-1.png"%string /\
  decayingVolume (tick_state 3%nat (run 3%nat initial frames) (true, LocalAudioAnalyser.initial))
  = 0%float.
Proof.
  intro frames.
  apply (silence_after_sound_shows_level_1 3%nat frames (true, LocalAudioAnalyser.initial));
    vm_compute; reflexivity.
Defined.

End LadderFacts.

(** * [tick] of [scale-audio-feedback] *)

Module ScaleTickFacts.

Import Binary64 Binary64Facts Sign SignFacts RangeFacts ScaleAudioFeedback.

Lemma div_not_nan x y :
  is_nan (x / y) = false -> is_nan x = false /\ is_nan y = false.
Proof.
  intro H. apply not_nan_Prim2SF in H. rewrite div_spec in H.
  split; apply not_nan_Prim2SF; intro E; apply H; rewrite E;
    [reflexivity | destruct (Prim2SF x); reflexivity].
Qed.

(** A square root that is a number is not negative. *)
Lemma sqrt_number_nonneg x : is_nan (sqrt x) = false -> nonneg (sqrt x).
Proof.
  intro H. assert (is_nan x = false) as Hx.
  { apply not_nan_Prim2SF. apply not_nan_Prim2SF in H. rewrite sqrt_spec in H.
    intro E. apply H. rewrite E. reflexivity. }
  destruct (Z_le_gt_dec 0 (frank x)) as [Hr|Hneg]; [now apply sqrt_nonneg|].
  exfalso. apply not_nan_Prim2SF in H. apply H. rewrite sqrt_spec.
  unfold frank in Hneg.
  destruct (Prim2SF x) as [s|s| |s m e]; cbn [rank cond_Zopp] in Hneg; try lia;
    destruct s; cbn [cond_Zopp] in Hneg; try reflexivity; exfalso.
  - pose proof (pow2_pos 3172 ltac:(lia)). lia.
  - assert (0 <= 2 ^ (e + 2148))%Z by (apply Z.pow_nonneg; lia).
    assert (0 <= Zpos m * 2 ^ (e + 2148))%Z by (apply Z.mul_nonneg_nonneg; lia). lia.
Qed.

Lemma Prim2SF_ten : Prim2SF 10 = S754_finite false 5629499534213120 (-49).
Proof. reflexivity. Qed.

(** The distance that [getAudioFeedbackScale] uses is not negative
    whenever it is a number. *)
Lemma tenth_of_root_nonneg q : is_nan (sqrt q / 10) = false -> nonneg (sqrt q / 10).
Proof.
  intro H. destruct (div_not_nan _ _ H) as [Hs _].
  apply div_nonneg; [now apply sqrt_number_nonneg | reflexivity |].
  unfold frank. rewrite Prim2SF_ten. cbn [rank cond_Zopp].
  split; [apply Z.mul_pos_pos; [reflexivity | apply pow2_pos; lia]|].
  change (5629499534213120 * 2 ^ (-49 + 2148) < 2 ^ 3172)%Z.
  apply Z.lt_le_trans with (2 ^ 53 * 2 ^ (-49 + 2148))%Z.
  - apply Z.mul_lt_mono_pos_r; [apply pow2_pos; lia | reflexivity].
  - rewrite <- pow2_split by lia. apply Z.pow_le_mono_r; lia.
Qed.

Lemma Math_min_number l v :
  is_nan (JS.Math_min l v) = false -> is_nan l = false /\ is_nan v = false.
Proof.
  unfold JS.Math_min. destruct (is_nan l); [discriminate|].
  destruct (is_nan v); [discriminate|]. now split.
Qed.

(** A scale that is a number lies within the bounds, whatever the two
    positions are. *)
Lemma scale_number_in_bounds (fromObject toObject : Object3D) (lo hi volume : float) :
  (lo <=? hi) = true -> (0 <=? volume) = true ->
  is_nan (getAudioFeedbackScale fromObject toObject lo hi volume) = false ->
  (lo <=? getAudioFeedbackScale fromObject toObject lo hi volume) = true /\
  (getAudioFeedbackScale fromObject toObject lo hi volume <=? hi) = true.
Proof.
  intros Hb Hv Hn. unfold getAudioFeedbackScale in *. cbv zeta in *.
  unfold distanceTo in *.
  set (q := distanceToSquared _ _) in *.
  destruct (Math_min_number _ _ Hn) as [_ Hg].
  pose proof Hg as Hg'. apply add_not_nan in Hg' as [_ Hm].
  apply mul_not_nan in Hm as [_ Hd].
  pose proof (leb_of_nonneg _ (tenth_of_root_nonneg q Hd)) as Hd0.
  destruct (ScaleFacts.feedbackScale_bounds lo hi volume (sqrt q / 10) Hb Hv Hd0 Hg)
    as (H1 & H2 & _).
  split; [exact H1 | exact H2].
Qed.

(** X14: [tick] leaves a hidden entity, and one without a
    "networked-audio-analyser", exactly as it is. Otherwise it flags
    [matrixNeedsUpdate] and sets the three components of the scale to one
    value which, when the configured bounds are in order and the volume is
    not negative, is either [NaN] or lies within [minScale] and [maxScale]:
    never a number out of range, wherever the entity and the camera are. *)
Theorem tick_scales_uniformly_within_bounds (d : data) (_playerCamera : Object3D)
    (el : entity) :
  (visible el = false \/ audioAnalyser el = None -> tick d _playerCamera el = el) /\
  (forall a, visible el = true -> audioAnalyser el = Some a ->
     (minScale d <=? maxScale d) = true ->
     (0 <=? NetworkedAudioAnalyser.volume a) = true ->
     exists s,
       tick d _playerCamera el = mkEntity (object3D el) true (mkVector3 s s s) true (Some a) /\
       (is_nan s = true \/ ((minScale d <=? s) = true /\ (s <=? maxScale d) = true))).
Proof.
  split.
  - intros [H|H]; unfold tick; [rewrite H; reflexivity|].
    rewrite H. destruct (negb (visible el)); reflexivity.
  - intros a Hv Ha Hb Hvol. unfold tick. rewrite Hv, Ha. cbn [negb].
    eexists. split; [reflexivity|].
    set (s := getAudioFeedbackScale _ _ _ _ _).
    destruct (is_nan s) eqn:E; [now left | right].
    exact (scale_number_in_bounds _ _ _ _ _ Hb Hvol E).
Qed.

Lemma tick_scales_uniformly_within_bounds_witness :
  let a := NetworkedAudioAnalyser.mkState 0.5 0.5 0.5 0.3 true (Some false) None in
  let el := mkEntity (at_position 0 0 0) true (mkVector3 1 1 1) false (Some a) in
  tick (mkData 1 2) (at_position 0 0 0) (mkEntity (at_position 3 4 0) false (mkVector3 5 5 5) false None)
  = mkEntity (at_position 3 4 0) false (mkVector3 5 5 5) false None /\
  exists s,
    tick schema (at_position 3 4 0) el = mkEntity (at_position 0 0 0) true (mkVector3 s s s) true (Some a) /\
    (is_nan s = true \/ ((1 <=? s) = true /\ (s <=? 2) = true)).
Proof.
  intros a el. split.
  - apply (proj1 (tick_scales_uniformly_within_bounds (mkData 1 2) (at_position 0 0 0)
                    (mkEntity (at_position 3 4 0) false (mkVector3 5 5 5) false None))).
    now left.
  - apply (proj2 (tick_scales_uniformly_within_bounds schema (at_position 3 4 0) el) a);
      reflexivity.
Defined.

End ScaleTickFacts.

(** * [tick] of [local-audio-analyser] across its [await] *)

Module LocalTickFacts.

Import Binary64 Binary64Facts Sign SignFacts RangeFacts LocalAudioAnalyser LocalAnalyserTick.

Lemma sound_initial : sound initial_system.
Proof.
  unfold sound, initial_system, initial. cbn.
  split; [reflexivity|]. split; [reflexivity|]. split; [constructor|].
  split; [now left|]. split; exact zero_nonneg.
Qed.

Lemma sound_measure s levels : filled levels -> sound s -> sound (measure s levels).
Proof.
  intros Hf H. unfold measure.
  destruct (analyser s) as [an|] eqn:Ea; [|exact H].
  destruct (stream s) as [st|] eqn:Es; [|exact H].
  destruct H as (Hp & Hs & Hnd & Hl & Hv & Hi).
  destruct (getVolume_range levels Hf) as [Ng _].
  unfold sound. cbn [fields stream analyser prevVolume volume smoothing subscribers immediateVolume].
  rewrite Hs, Hp. pose proof (smoothed_nonneg _ _ Ng Hv) as Hn.
  split; [reflexivity|]. split; [reflexivity|]. split; [exact Hnd|].
  rewrite Ea, Es in Hl. split; [exact Hl|]. split; assumption.
Qed.

Lemma sound_fields s st an :
  sound s -> (st = None \/ an = st) -> sound (mkSystem (fields s) st an).
Proof.
  intros (Hp & Hs & Hnd & _ & Hv & Hi) Hl. unfold sound. cbn [fields stream analyser].
  repeat (split; [assumption|]). assumption.
Qed.

Lemma sound_handle w e : fed e -> sound (fst w) -> sound (fst (handle w e)).
Proof.
  intros Hf H. destruct e as [r|adapter levels|result levels]; cbn [handle fed] in *.
  - cbn [fst]. destruct H as (Hp & Hs & Hnd & Hl & Hv & Hi).
    destruct (SubscriptionFacts.serve_volumes (fields (fst w)) r) as (V1 & V2 & V3 & V4).
    unfold sound. cbn [fields stream analyser]. rewrite V1, V2, V3, V4.
    split; [exact Hp|]. split; [exact Hs|]. split; [|split; [exact Hl | split; assumption]].
    destruct r as [x|x]; cbn [Subscriptions.serve];
      [now apply SubscriptionFacts.subscribe_NoDup | now apply SubscriptionFacts.unsubscribe_NoDup].
  - unfold tick_start. destruct adapter; cbn [negb]; [|exact H].
    destruct (subscribers (fields (fst w))) as [|x rest].
    + cbn [fst]. apply sound_measure; [exact Hf|]. apply sound_fields; [exact H | now left].
    + destruct (stream (fst w)); cbn [fst]; [now apply sound_measure | exact H].
  - destruct (snd w) as [|n]; [exact H|]. cbn [fst]. unfold tick_resume.
    destruct result as [id|].
    + apply sound_measure; [exact Hf|]. apply sound_fields; [exact H | now right].
    + apply sound_fields; [exact H | now left].
Qed.

Lemma sound_play events : forall w,
  Forall fed events -> sound (fst w) -> sound (fst (play w events)).
Proof.
  induction events as [|e events IH]; intros w Hf H; [exact H|].
  inversion Hf as [|? ? He Hrest]; subst. cbn [play fold_left].
  apply (IH _ Hrest). now apply sound_handle.
Qed.

(** X15: However subscriptions, frames and the resolutions of pending
    [getMediaStream] calls interleave after [init], and whatever the
    resolutions deliver: whenever the system holds a stream, its analyser
    node is the one connected to that stream; no listener is subscribed
    twice; the stored previous volume is the smoothed volume; and, the
    buffers holding at least one sample, both volumes are numbers that are
    not negative. *)
Theorem local_analyser_invariants (events : list event) :
  Forall fed events ->
  let s := fst (play (initial_system, 0%nat) events) in
  (stream s = None \/ analyser s = stream s) /\
  NoDup (subscribers (fields s)) /\
  prevVolume (fields s) = volume (fields s) /\
  smoothing (fields s) = 0.3 /\
  is_nan (volume (fields s)) = false /\ (0 <=? volume (fields s)) = true /\
  is_nan (immediateVolume (fields s)) = false /\ (0 <=? immediateVolume (fields s)) = true.
Proof.
  intros Hf s.
  destruct (sound_play events (initial_system, 0%nat) Hf sound_initial)
    as (Hp & Hs & Hnd & Hl & Hv & Hi). fold s in Hp, Hs, Hnd, Hl, Hv, Hi.
  split; [exact Hl|]. split; [exact Hnd|]. split; [exact Hp|]. split; [exact Hs|].
  split; [exact (proj1 Hv)|]. split; [now apply leb_of_nonneg|].
  split; [exact (proj1 Hi) | now apply leb_of_nonneg].
Qed.

Lemma local_analyser_invariants_witness :
  let s := fst (play (initial_system, 0%nat)
                  [Request (Subscriptions.Subscribe 3%nat);
                   Frame true NetworkedAudioAnalyser.loud;
                   Frame true NetworkedAudioAnalyser.loud;
                   Resolved (Some 8%nat) NetworkedAudioAnalyser.loud;
                   Resolved None NetworkedAudioAnalyser.silent]) in
  (stream s = None \/ analyser s = stream s) /\ analyser s = Some 8%nat.
Proof.
  intro s. split; [|reflexivity].
  refine (proj1 (local_analyser_invariants _ _)).
  repeat constructor; try discriminate; vm_compute; reflexivity.
Defined.

Lemma frame_awaiting s k l :
  subscribers (fields s) <> [] -> stream s = None ->
  handle (s, k) (Frame true l) = (s, S k).
Proof.
  intros Hne Hs. cbn [handle fst snd]. unfold tick_start. cbn [negb].
  destruct (subscribers (fields s)) as [|x xs]; [congruence|]. rewrite Hs. reflexivity.
Qed.

Lemma frame_idle s k l :
  subscribers (fields s) = [] ->
  handle (s, k) (Frame true l) = (mkSystem (fields s) None None, k).
Proof.
  intros He. cbn [handle fst snd]. unfold tick_start. cbn [negb]. rewrite He. reflexivity.
Qed.

Lemma frames_awaiting s buffers : forall k,
  subscribers (fields s) <> [] -> stream s = None ->
  play (s, k) (map (Frame true) buffers) = (s, (List.length buffers + k)%nat).
Proof.
  induction buffers as [|l rest IH]; intros k Hne Hs; [reflexivity|].
  cbn [map play fold_left]. rewrite frame_awaiting by assumption.
  fold (play (s, S k) (map (Frame true) rest)). rewrite IH by assumption.
  cbn [List.length]. f_equal. lia.
Qed.

Lemma frames_idle fl buffers : forall k,
  subscribers fl = [] ->
  play (mkSystem fl None None, k) (map (Frame true) buffers) = (mkSystem fl None None, k).
Proof.
  induction buffers as [|l rest IH]; intros k He; [reflexivity|].
  cbn [map play fold_left]. rewrite frame_idle by exact He. cbn [fields].
  fold (play (mkSystem fl None None, k) (map (Frame true) rest)). now apply IH.
Qed.

(** X16: Frames that pass before [getMediaStream] resolves. While somebody is
    subscribed and no stream is held, every frame stops at the [await]
    again: [n] frames leave [n] more requests pending and the system as it
    was. While nobody is subscribed, any one or more frames drop the stream
    and the analyser and leave the volumes as last measured; they are not
    reset to 0. *)
Theorem frames_without_a_stream (s : system) (k : nat) (buffers : list (list byte)) :
  (subscribers (fields s) <> [] -> stream s = None ->
   play (s, k) (map (Frame true) buffers) = (s, (List.length buffers + k)%nat)) /\
  (subscribers (fields s) = [] -> buffers <> [] ->
   play (s, k) (map (Frame true) buffers) = (mkSystem (fields s) None None, k)).
Proof.
  split; [apply frames_awaiting|].
  intros He Hne. destruct buffers as [|l rest]; [congruence|].
  cbn [map play fold_left]. rewrite frame_idle by exact He.
  fold (play (mkSystem (fields s) None None, k) (map (Frame true) rest)).
  now apply frames_idle.
Qed.

Lemma frames_without_a_stream_witness :
  let waiting := mkSystem (set_subscribers initial [3%nat]) None None in
  let left_alone := mkSystem (mkState 0.5 0.5 0.3 0.5 []) (Some 8%nat) (Some 8%nat) in
  play (waiting, 0%nat) (map (Frame true) [NetworkedAudioAnalyser.loud; NetworkedAudioAnalyser.loud])
  = (waiting, 2%nat) /\
  play (left_alone, 0%nat) (map (Frame true) [NetworkedAudioAnalyser.loud])
  = (mkSystem (mkState 0.5 0.5 0.3 0.5 []) None None, 0%nat).
Proof.
  intros waiting left_alone. split.
  - apply (proj1 (frames_without_a_stream waiting 0%nat
                    [NetworkedAudioAnalyser.loud; NetworkedAudioAnalyser.loud]));
      [discriminate | reflexivity].
  - apply (proj2 (frames_without_a_stream left_alone 0%nat [NetworkedAudioAnalyser.loud]));
      [reflexivity | discriminate].
Defined.

End LocalTickFacts.

(** * Going quiet and waking up *)

Module WakeFacts.

Import Binary64 Binary64Facts Sign VolumeRange SignFacts RangeFacts FadeFacts.
Import NetworkedAudioAnalyser AnalyserLife AnalyserLifeFacts.

Local Open Scope Z_scope.

Lemma disable_rank_small : disable_rank < 2 ^ 2132.
Proof. vm_compute. reflexivity. Qed.

(** The share of an audible immediate volume in the smoothed volume is at
    least the disable threshold. *)
Lemma audible_share (x : float) :
  is_nan x = false -> frank MIN_VOLUME_THRESHOLD <= frank x ->
  is_nan (0.3 * x)%float = false /\ disable_rank <= frank (0.3 * x)%float.
Proof.
  intros Hn Hge. pose proof frank_min_volume_rank as Hmin.
  pose proof disable_rank_small as Hsmall.
  assert (0 < 2 ^ 2141) as H2141 by (apply pow2_pos; lia).
  assert (2 ^ 2132 <= 2 ^ 2141) as Hpow by (apply Z.pow_le_mono_r; lia).
  assert (2 ^ 2132 <= 2 ^ 3172) as Hpow' by (apply Z.pow_le_mono_r; lia).
  assert (0 <= frank x) as H0.
  { revert Hge Hmin H2141. generalize (2 ^ 2141) (frank MIN_VOLUME_THRESHOLD). intros; lia. }
  destruct (nonneg_rank_cases x Hn H0) as [[s E]|[E|(m & e & E)]].
  - exfalso. unfold frank in Hge at 2. rewrite E in Hge. cbn [rank] in Hge.
    revert Hge Hmin H2141. generalize (2 ^ 2141) (frank MIN_VOLUME_THRESHOLD). intros; lia.
  - assert (Prim2SF (0.3 * x)%float = S754_infinity false) as H
      by (rewrite mul_spec, E, Prim2SF_smoothing; reflexivity).
    split; [apply not_nan_Prim2SF; rewrite H; discriminate|].
    unfold frank. rewrite H. cbn [rank cond_Zopp].
    revert Hsmall Hpow'. generalize disable_rank (2 ^ 2132) (2 ^ 3172). intros; lia.
  - destruct (mul_finite_value 0.3%float x _ _ m e Prim2SF_smoothing E)
      as (m2 & Hb & Hval & Hnan & Hnormal & He1 & HV).
    split; [exact Hnan|]. rewrite Hval.
    pose proof (Prim2SF_valid x) as V. rewrite E in V.
    destruct (valid_finite _ _ _ V) as (He & _).
    set (P := Zpos (5404319552844595 * m)) in *.
    set (e1 := fexp prec emax (Zdigits2 P + (-54 + e))) in *.
    set (V0 := P * 2 ^ (-54 + e + 2148)) in *.
    change disable_rank with (Zpos 5902958103587057 * 2 ^ (-69 + 2148)).
    apply (bracket_lower V0 (2 ^ (e1 + 2148)) e1 m2); try assumption; try reflexivity.
    + apply Hb.
    + (* the threshold is not above the exact product *)
      change (Zpos 5902958103587057 * 2 ^ (-69 + 2148)) with disable_rank.
      assert (frank x = Zpos m * 2 ^ (e + 2148)) as Hfx by (unfold frank; rewrite E; reflexivity).
      assert (2 ^ 2132 <= V0) as HV0;
        [|revert Hsmall HV0; generalize disable_rank (2 ^ 2132) V0; intros; lia].
      destruct (Z_le_gt_dec 54 (e + 2148)) as [Hbig|Hlow].
      * (* 2^2132 <= P * 2^(e + 2094) *)
        unfold V0. replace (-54 + e + 2148) with (e + 2148 - 54) by lia.
        assert (2 ^ (e + 2148) = 2 ^ (e + 2148 - 54) * 2 ^ 54) as Hsplit
          by (rewrite <- pow2_split by lia; f_equal; lia).
        assert (2 ^ 52 * Zpos m <= P) as HP.
        { unfold P. rewrite Pos2Z.inj_mul. apply Z.mul_le_mono_nonneg_r; [lia|].
          vm_compute. discriminate. }
        pose proof (pow2_pos (e + 2148 - 54) ltac:(lia)) as Hq.
        assert (2 ^ 52 * Zpos m * 2 ^ (e + 2148 - 54) <= P * 2 ^ (e + 2148 - 54)) as H1
          by (apply Z.mul_le_mono_nonneg_r; lia).
        assert (2 ^ 2141 <= Zpos m * 2 ^ (e + 2148 - 54) * 2 ^ 54) as H2.
        { rewrite <- Z.mul_assoc, <- Hsplit, <- Hfx.
          revert Hge Hmin. generalize (2 ^ 2141) (frank MIN_VOLUME_THRESHOLD) (frank x).
          intros; lia. }
        assert (2 ^ 2141 = 2 ^ 2132 * 2 ^ 9) as H3 by (rewrite <- pow2_split by lia; reflexivity).
        assert (0 < 2 ^ 2132) as H4 by (apply pow2_pos; lia).
        revert H1 H2 H3 H4 Hq. change (2 ^ 54) with 18014398509481984.
        change (2 ^ 52) with 4503599627370496. change (2 ^ 9) with 512.
        generalize (2 ^ 2141) (2 ^ 2132) (2 ^ (e + 2148 - 54)) P (Zpos m).
        intros A B Q P0 M H1 H2 H3 H4 Hq. nia.
      * exfalso.
        assert (2 ^ (e + 2148) <= 2 ^ 54) as Hle by (apply Z.pow_le_mono_r; lia).
        destruct (digits2_pos_bounds m) as [_ Hu].
        destruct (valid_finite _ _ _ V) as (_ & Hdig & _).
        assert (2 ^ Zpos (digits2_pos m) <= 2 ^ 53) as H53 by (apply Z.pow_le_mono_r; lia).
        assert (frank x <= 2 ^ 53 * 2 ^ 54) as Hup.
        { rewrite Hfx. apply Z.mul_le_mono_nonneg; try lia. }
        assert (2 ^ 53 * 2 ^ 54 < 2 ^ 2141) as Hcmp
          by (rewrite <- pow2_split by lia; apply Z.pow_lt_mono_r; lia).
        revert Hge Hmin Hup Hcmp.
        generalize (2 ^ 2141) (frank MIN_VOLUME_THRESHOLD) (frank x) (2 ^ 53 * 2 ^ 54).
        intros; lia.
Qed.

Lemma update_audible s levels t :
  analyser s = true -> smoothing s = 0.3%float -> nonneg (prevVolume s) ->
  filled levels -> getVolume levels <> 0%float ->
  avatarIsQuiet (_updateAnalysis s levels t) = Some false /\
  lastSeenVolume (_updateAnalysis s levels t)
  = (if JS.truthy_opt t then t else lastSeenVolume s).
Proof.
  intros Ha Hs Hp Hf Hne.
  destruct (getVolume_range levels Hf) as [Ng [Hz|Hc]]; [congruence|].
  rewrite leb_rank in Hc by (reflexivity || exact (proj1 Ng)). apply Z.leb_le in Hc.
  destruct (audible_share _ (proj1 Ng) Hc) as [Hn Hshare].
  pose proof (smoothed_nonneg _ _ Ng Hp) as [Hsum _].
  pose proof (mul_const_nonneg _ _ _ _ Prim2SF_retained Hp) as [_ Hkeep].
  pose proof (add_nonneg_ge _ _ Hsum Hkeep) as Hge.
  unfold _updateAnalysis. rewrite Ha, Hs. cbn [negb].
  set (v := (0.3 * getVolume levels + (1 - 0.3) * prevVolume s)%float) in *.
  assert ((v <? DISABLE_AT_VOLUME_THRESHOLD)%float = false) as E.
  { rewrite ltb_rank by (assumption || reflexivity). rewrite frank_disable.
    apply Z.ltb_ge. lia. }
  rewrite E. split; reflexivity.
Qed.

(** X18: An audible buffer (one whose [getVolume] is not 0) clears the quiet
    flag at every update that reads it, on a state whose previous volume is
    a number that is not negative. A quiet avatar is therefore woken by the
    next [_runScheduledWork] that hears it, and being woken on that path
    leaves [lastSeenVolume] as it was. *)
Theorem audible_buffer_wakes_the_avatar (s : state) (levels : list byte) (t : option float) :
  analyser s = true -> smoothing s = 0.3%float ->
  is_nan (prevVolume s) = false -> (0 <=? prevVolume s)%float = true ->
  levels <> [] -> Z.of_nat (List.length levels) < 2 ^ 63 ->
  getVolume levels <> 0%float ->
  avatarIsQuiet (_updateAnalysis s levels t) = Some false /\
  (JS.truthy_flag (avatarIsQuiet s) = true ->
   avatarIsQuiet (_runScheduledWork s levels) = Some false /\
   lastSeenVolume (_runScheduledWork s levels) = lastSeenVolume s).
Proof.
  intros Ha Hs Hn H0 Hne Hlen Hv.
  pose proof (nonneg_of_leb _ H0) as Hp.
  split.
  - exact (proj1 (update_audible s levels t Ha Hs Hp (conj Hne Hlen) Hv)).
  - intro Hq. unfold _runScheduledWork. rewrite Hq.
    destruct (update_audible s levels None Ha Hs Hp (conj Hne Hlen) Hv) as [H1 H2].
    split; [exact H1 | exact H2].
Qed.

Lemma audible_buffer_wakes_the_avatar_witness :
  let quiet := mkState 0 0 0 0.3 true (Some true) (Some 1%float) in
  avatarIsQuiet (_runScheduledWork quiet loud) = Some false /\
  lastSeenVolume (_runScheduledWork quiet loud) = Some 1%float.
Proof.
  intro quiet.
  apply (proj2 (audible_buffer_wakes_the_avatar quiet loud None
                  eq_refl eq_refl eq_refl eq_refl
                  ltac:(discriminate) ltac:(vm_compute; reflexivity) ltac:(vm_compute; discriminate))).
  reflexivity.
Defined.

Lemma ticks_or_quiet (frames : list frame) : forall s,
  JS.truthy_flag (avatarIsQuiet (run s (map as_tick frames))) = true \/
  run s (map as_tick frames) = run s (map as_update frames).
Proof.
  induction frames as [|f rest IH]; intro s; [now right|].
  destruct (JS.truthy_flag (avatarIsQuiet s)) eqn:Hq.
  - left. rewrite ticks_while_quiet by assumption. exact Hq.
  - cbn [map run fold_left step as_tick as_update]. unfold tick. rewrite Hq. cbn [negb].
    exact (IH _).
Qed.

Lemma truthy_flag_true q : JS.truthy_flag q = true -> q = Some true.
Proof. destruct q as [[|]|]; cbn; congruence. Qed.

(** X17: A silent avatar is taken off the per-frame path. From a state with an
    analyser and a smoothed volume between 0 and 1, after 33 or more frames
    of silence, the next silent frame whose timestamp is more than
    [DISABLE_GRACE_PERIOD_MS] past the recorded [lastSeenVolume] leaves
    [avatarIsQuiet] true. *)
Theorem silent_avatar_goes_quiet (s : state) (frames : list frame)
    (t : float) (levels : list byte) (seen : float) :
  analyser s = true -> smoothing s = 0.3%float -> prevVolume s = volume s ->
  (0 <=? volume s)%float = true -> (volume s <=? 1)%float = true ->
  Forall (fun f => still (snd f)) frames -> still levels ->
  (33 <= List.length frames)%nat ->
  let before := run s (map as_tick frames) in
  lastSeenVolume before = Some seen ->
  JS.truthy t = true -> JS.truthy seen = true ->
  (seen <? t - DISABLE_GRACE_PERIOD_MS)%float = true ->
  avatarIsQuiet (tick before levels t) = Some true.
Proof.
  intros Ha Hs Hp H0 H1 Hall Hl Hlen before Hseen Ht Hst Hgrace.
  unfold tick. destruct (JS.truthy_flag (avatarIsQuiet before)) eqn:Hq; cbn [negb];
    [now apply truthy_flag_true|].
  destruct (ticks_or_quiet frames s) as [Hq'|Hrun];
    [fold before in Hq'; congruence|]. fold before in Hrun.
  destruct (fading_intro s Ha Hs Hp H0 H1) as [Hf HB].
  assert (Forall still_update (map as_update frames)) as Hall'.
  { apply Forall_map. eapply Forall_impl; [|exact Hall]. intros f Hfr. exact Hfr. }
  assert (33 <= List.length (map as_update frames))%nat as Hlen'
    by (rewrite length_map; exact Hlen).
  pose proof (fading_run_below s _ Hf HB Hall' Hlen') as Hlow.
  destruct (fading_run _ s Hf Hall') as (Hfb & _ & _).
  rewrite <- Hrun in Hlow, Hfb.
  destruct Hfb as (Hab & Hsb & Hpb & Hnb & _).
  destruct Hl as [[Hne Hlen0] Hsil].
  unfold _updateAnalysis. rewrite Hab, Hsb, Hpb. cbn [negb].
  rewrite (VolumeFacts.getVolume_silent levels Hne Hlen0 Hsil).
  destruct (faded_volume (volume before) Hnb) as (Hn' & Hle & _).
  set (v := (0.3 * 0 + (1 - 0.3) * volume before)%float) in *.
  assert ((v <? DISABLE_AT_VOLUME_THRESHOLD)%float = true) as E.
  { rewrite ltb_rank by (exact (proj1 Hn') || reflexivity). rewrite frank_disable.
    apply Z.ltb_lt. apply Z.le_lt_trans with (frank (volume before)); assumption. }
  rewrite E, Hseen, Ht, Hst, Hgrace. reflexivity.
Qed.

Lemma silent_avatar_goes_quiet_witness :
  let s := mkState 1 1 1 0.3 true (Some false) (Some 16%float) in
  avatarIsQuiet
    (tick (run s (map as_tick (repeat (32%float, silent) 33))) silent 10033)
  = Some true.
Proof.
  intro s.
  apply (silent_avatar_goes_quiet s (repeat (32%float, silent) 33) 10033 silent 32);
    try reflexivity; try apply le_n;
    repeat constructor; try discriminate;
    intros b Hb; repeat (destruct Hb as [Hb|Hb]; [now symmetry|]); destruct Hb.
Defined.

End WakeFacts.
